(** * Gesture recognition and particle engine: a shallow embedding

    The development follows the TypeScript sources:
    - [types/gestures.ts]               (module [Gestures])
    - [mediapipe/GestureClassifier.ts]  (module [GestureClassifier])
    - [mediapipe/RapidPulseBuffer.ts]   (module [RapidPulse])
    - [three/ParticleSystem.ts]         (modules [Engine], [EngineDoubles])
    - [hooks/useParticleSystem.ts]      (module [Orchestration])
    - [hooks/useGestureRecognizer.ts]   (module [Recognizer])
    - [utils/PerformanceMonitor.ts]     (module [PerformanceMonitor])

    Landmark coordinates are IEEE 754 binary64 numbers, as JavaScript has
    them (module [Double], over the Standard Library's [SpecFloat]), and so
    are the numbers of the decaying engine modes in [EngineDoubles], where
    NaN and the infinities matter.  Timestamps are integers (milliseconds,
    as [Date.now()] yields them).  The numbers of the particle engine in
    [Engine] are real numbers: there the doubles are idealised, so that
    rounding, overflow and NaN are outside that part of the model. *)

From Stdlib Require Import String List Permutation Bool Arith ZArith QArith Lia.
From Stdlib Require Import Reals Lra Psatz.
From Stdlib Require SpecFloat PrimFloat FloatOps.
Import ListNotations.

(* ================================================================== *)
(** ** JavaScript numbers *)

(** A JavaScript number is an IEEE 754 binary64 value.  [spec_float] is
    the Standard Library's specification of these values and of their
    correctly rounded operations (round to nearest, ties to even); it has
    one NaN, the two infinities and the two zeros. *)
Module Double.
Import SpecFloat.

Definition double : Type := spec_float.

Definition prec : Z := 53.
Definition emax : Z := 1024.

Definition add : double -> double -> double := SFadd prec emax.
Definition sub : double -> double -> double := SFsub prec emax.
Definition mul : double -> double -> double := SFmul prec emax.
Definition div : double -> double -> double := SFdiv prec emax.
Definition abs : double -> double := SFabs.

(** [a < b], [a <= b], [a > b], [a >= b]: all false when an operand is NaN. *)
Definition ltb (a b : double) : bool := SFltb a b.
Definition leb (a b : double) : bool := SFleb a b.
Definition gtb (a b : double) : bool := SFltb b a.
Definition geb (a b : double) : bool := SFleb b a.

Definition zero : double := S754_zero false.
Definition infinity : double := S754_infinity false.
Definition nan : double := S754_nan.

(** An integer literal (of magnitude below [2^53], so that it is exact). *)
Definition ofZ (n : Z) : double := binary_normalize prec emax n 0 false.

(** The decimal literal whose value is [n/d]: the double nearest to that
    quotient, which the correctly rounded division of the two (exact)
    integers yields. *)
Definition decimal (n : Z) (d : positive) : double := div (ofZ n) (ofZ (Zpos d)).

Definition one : double := ofZ 1.

Definition isNaN (a : double) : bool :=
  match a with S754_nan => true | _ => false end.

(** Neither NaN nor an infinity: [Number.isFinite]. *)
Definition isFinite (a : double) : bool :=
  match a with
  | S754_zero _ | S754_finite _ _ _ => true
  | S754_infinity _ | S754_nan => false
  end.

(** [Math.max(a, b)]: NaN when an operand is NaN; [+0] is larger than [-0]. *)
Definition Math_max (a b : double) : double :=
  if isNaN a || isNaN b then nan
  else if ltb a b then b
  else if ltb b a then a
  else match a, b with
       | S754_zero true, S754_zero _ => b
       | _, _ => a
       end.

(** *** Reading aids *)

(** A well-formed binary64 value: the mantissa and the exponent are the
    canonical ones.  Every value a JavaScript number can hold is of this
    kind; [spec_float] also has terms that are not. *)
Definition isDouble (a : double) : bool := valid_binary prec emax a.

(** [|a| < 2^k], read off the leading bit; false for NaN and the
    infinities. *)
Definition below (k : Z) (a : double) : bool :=
  match a with
  | S754_zero _ => true
  | S754_finite _ m e => (Zdigits2 (Zpos m) + e <=? k)%Z
  | S754_infinity _ | S754_nan => false
  end.

(** Sign [s], and no NaN. *)
Definition signed (s : bool) (r : double) : Prop :=
  match r with
  | S754_zero s' | S754_infinity s' | S754_finite s' _ _ => s' = s
  | S754_nan => False
  end.

(** What a rounded result of sign [s] can be, when the exact value has
    [D] as the position of its leading bit ([2^(D-1) <= value < 2^D]):
    zero only below the smallest number, an infinity only from [2^1023]
    on, and otherwise a well-formed number with the same leading bit, or
    the next power of two. *)
Definition rounded (s : bool) (D : Z) (r : double) : Prop :=
  match r with
  | S754_zero s' => s' = s /\ (D <= -1074)%Z
  | S754_infinity s' => s' = s /\ (1024 <= D)%Z
  | S754_nan => False
  | S754_finite s' m' e' =>
    s' = s /\ bounded prec emax m' e' = true /\
    let D' := (Zdigits2 (Zpos m') + e')%Z in
    (D <= D')%Z /\
    ((D' <= D)%Z \/ D' = (-1073)%Z \/
     (D' = (D + 1)%Z /\ Zpos m' = (2 ^ Z.log2 (Zpos m'))%Z))
  end.

End Double.

(* ================================================================== *)
(** ** types/gestures.ts *)

Module Gestures.

Inductive GestureType : Type :=
| OPEN_PALM | POINT | VICTORY | THREE_COUNT | FIST | UNKNOWN.

Definition GestureType_eqb (a b : GestureType) : bool :=
  match a, b with
  | OPEN_PALM, OPEN_PALM | POINT, POINT | VICTORY, VICTORY
  | THREE_COUNT, THREE_COUNT | FIST, FIST | UNKNOWN, UNKNOWN => true
  | _, _ => false
  end.

Record GestureState : Type := mkGestureState {
  type : GestureType;
  confidence : Q;
  timestamp : Z
}.

(** [enum FingerLandmark]: the indices of the 21 MediaPipe joints. *)
Module FingerLandmark.
Definition WRIST := 0%nat.
Definition THUMB_CMC := 1%nat.
Definition THUMB_MCP := 2%nat.
Definition THUMB_IP := 3%nat.
Definition THUMB_TIP := 4%nat.
Definition INDEX_MCP := 5%nat.
Definition INDEX_PIP := 6%nat.
Definition INDEX_DIP := 7%nat.
Definition INDEX_TIP := 8%nat.
Definition MIDDLE_MCP := 9%nat.
Definition MIDDLE_PIP := 10%nat.
Definition MIDDLE_DIP := 11%nat.
Definition MIDDLE_TIP := 12%nat.
Definition RING_MCP := 13%nat.
Definition RING_PIP := 14%nat.
Definition RING_DIP := 15%nat.
Definition RING_TIP := 16%nat.
Definition PINKY_MCP := 17%nat.
Definition PINKY_PIP := 18%nat.
Definition PINKY_DIP := 19%nat.
Definition PINKY_TIP := 20%nat.
End FingerLandmark.

End Gestures.

(* ================================================================== *)
(** ** mediapipe/GestureClassifier.ts *)

Module GestureClassifier.
Import Gestures.
Import Gestures.FingerLandmark.

Record NormalizedLandmark : Type := mkLandmark {
  x : Double.double;
  y : Double.double;
  z : Double.double
}.

(** [landmarks[i]]; the callers below only index a list whose length was
    checked to be 21, so the default is never returned there. *)
Definition at_ (landmarks : list NormalizedLandmark) (i : nat) : NormalizedLandmark :=
  nth i landmarks (mkLandmark Double.zero Double.zero Double.zero).

Definition isFingerExtended (landmarks : list NormalizedLandmark)
           (tipIndex pipIndex : nat) : bool :=
  let tip := at_ landmarks tipIndex in
  let pip := at_ landmarks pipIndex in
  Double.ltb (y tip) (y pip).

Definition isThumbExtended (landmarks : list NormalizedLandmark) : bool :=
  let tip := at_ landmarks THUMB_TIP in
  let mcp := at_ landmarks THUMB_MCP in
  let tipDistance := Double.abs (Double.sub (x tip) (x (at_ landmarks WRIST))) in
  let mcpDistance := Double.abs (Double.sub (x mcp) (x (at_ landmarks WRIST))) in
  Double.gtb tipDistance (Double.mul mcpDistance (Double.decimal 13 10)).

Definition countExtendedFingers (landmarks : list NormalizedLandmark) : nat :=
  let count := 0%nat in
  let count := if isFingerExtended landmarks INDEX_TIP INDEX_PIP then S count else count in
  let count := if isFingerExtended landmarks MIDDLE_TIP MIDDLE_PIP then S count else count in
  let count := if isFingerExtended landmarks RING_TIP RING_PIP then S count else count in
  let count := if isFingerExtended landmarks PINKY_TIP PINKY_PIP then S count else count in
  let count := if isThumbExtended landmarks then S count else count in
  count.

Definition isOnlyIndexExtended (landmarks : list NormalizedLandmark) : bool :=
  let indexExtended := isFingerExtended landmarks INDEX_TIP INDEX_PIP in
  let middleExtended := isFingerExtended landmarks MIDDLE_TIP MIDDLE_PIP in
  let ringExtended := isFingerExtended landmarks RING_TIP RING_PIP in
  let pinkyExtended := isFingerExtended landmarks PINKY_TIP PINKY_PIP in
  indexExtended && negb middleExtended && negb ringExtended && negb pinkyExtended.

Definition isIndexAndMiddleExtended (landmarks : list NormalizedLandmark) : bool :=
  let indexExtended := isFingerExtended landmarks INDEX_TIP INDEX_PIP in
  let middleExtended := isFingerExtended landmarks MIDDLE_TIP MIDDLE_PIP in
  let ringExtended := isFingerExtended landmarks RING_TIP RING_PIP in
  let pinkyExtended := isFingerExtended landmarks PINKY_TIP PINKY_PIP in
  indexExtended && middleExtended && negb ringExtended && negb pinkyExtended.

Definition isIndexMiddleRingExtended (landmarks : list NormalizedLandmark) : bool :=
  let indexExtended := isFingerExtended landmarks INDEX_TIP INDEX_PIP in
  let middleExtended := isFingerExtended landmarks MIDDLE_TIP MIDDLE_PIP in
  let ringExtended := isFingerExtended landmarks RING_TIP RING_PIP in
  let pinkyExtended := isFingerExtended landmarks PINKY_TIP PINKY_PIP in
  indexExtended && middleExtended && ringExtended && negb pinkyExtended.

(** [classify(landmarks)].  A missing landmark array is [None]; [now] is the
    value [Date.now()] returns during the call. *)
Definition classify (landmarks : option (list NormalizedLandmark)) (now : Z)
  : GestureState :=
  match landmarks with
  | None => mkGestureState UNKNOWN 0 now
  | Some landmarks =>
    if negb (length landmarks =? 21)%nat then mkGestureState UNKNOWN 0 now
    else
      let extendedFingers := countExtendedFingers landmarks in
      if (extendedFingers =? 5)%nat then
        mkGestureState OPEN_PALM 1 now
      else if (extendedFingers =? 1)%nat && isOnlyIndexExtended landmarks then
        mkGestureState POINT (9 # 10) now
      else if (extendedFingers =? 2)%nat && isIndexAndMiddleExtended landmarks then
        mkGestureState VICTORY (95 # 100) now
      else if (extendedFingers =? 3)%nat && isIndexMiddleRingExtended landmarks then
        mkGestureState THREE_COUNT (9 # 10) now
      else if (extendedFingers <=? 1)%nat && negb (isOnlyIndexExtended landmarks) then
        mkGestureState FIST (95 # 100) now
      else
        mkGestureState UNKNOWN (5 # 10) now
  end.

(** A synthetic hand: every joint at [x = 0.5]; the five tips at height
    [0.2], every other joint at [0.6] (the vertical axis grows downward,
    so each tip is above all the joints of its finger). *)
Definition raisedTips : list NormalizedLandmark :=
  map (fun i => mkLandmark (Double.decimal 1 2)
                  (if existsb (Nat.eqb i) [THUMB_TIP; INDEX_TIP; MIDDLE_TIP; RING_TIP; PINKY_TIP]
                   then Double.decimal 2 10 else Double.decimal 6 10)
                  Double.zero)
      (seq 0 21).

(** The same hand with the thumb spread sideways: the wrist at [x = 0.5],
    the thumb's mcp joint at [x = 0.6], the thumb tip at [x = 0.9]. *)
Definition spreadHand : list NormalizedLandmark :=
  map (fun i => mkLandmark (if (i =? THUMB_TIP)%nat then Double.decimal 9 10 else
                            if (i =? THUMB_MCP)%nat then Double.decimal 6 10
                            else Double.decimal 1 2)
                  (if existsb (Nat.eqb i) [THUMB_TIP; INDEX_TIP; MIDDLE_TIP; RING_TIP; PINKY_TIP]
                   then Double.decimal 2 10 else Double.decimal 6 10)
                  Double.zero)
      (seq 0 21).

(** The hand of [spreadHand] with the wrist at [x = 0], the thumb's mcp
    joint at [x = 0.5] and the thumb tip at [x = 0.65]: as doubles,
    [0.5 * 1.3] and [0.65] are the same number. *)
Definition boundaryThumb : list NormalizedLandmark :=
  map (fun i => mkLandmark (if (i =? THUMB_TIP)%nat then Double.decimal 65 100 else
                            if (i =? THUMB_MCP)%nat then Double.decimal 1 2
                            else Double.zero)
                  (if existsb (Nat.eqb i) [THUMB_TIP; INDEX_TIP; MIDDLE_TIP; RING_TIP; PINKY_TIP]
                   then Double.decimal 2 10 else Double.decimal 6 10)
                  Double.zero)
      (seq 0 21).

End GestureClassifier.

(* ================================================================== *)
(** ** mediapipe/RapidPulseBuffer.ts *)

Module RapidPulse.
Import Gestures.

Definition RAPID_PULSE_WINDOW_MS : Z := 1500.
Definition RAPID_PULSE_MIN_CHANGES : Z := 3.

Record StateChangeEvent : Type := mkEvent {
  fromType : GestureType;
  toType : GestureType;
  ev_timestamp : Z
}.

Record RapidPulseBuffer : Type := mkBuffer {
  buffer : list StateChangeEvent;
  lastGesture : option GestureType;
  windowMs : Z;
  minChanges : Z
}.

(** [new RapidPulseBuffer(windowMs, minChanges)] *)
Definition create (windowMs minChanges : Z) : RapidPulseBuffer :=
  mkBuffer [] None windowMs minChanges.

(** [new RapidPulseBuffer()] *)
Definition createDefault : RapidPulseBuffer :=
  create RAPID_PULSE_WINDOW_MS RAPID_PULSE_MIN_CHANGES.

Definition cleanOldEvents (currentTimestamp : Z) (s : RapidPulseBuffer)
  : RapidPulseBuffer :=
  let cutoffTime := (currentTimestamp - windowMs s)%Z in
  mkBuffer (filter (fun event => (cutoffTime <=? ev_timestamp event)%Z) (buffer s))
           (lastGesture s) (windowMs s) (minChanges s).

Definition reset (s : RapidPulseBuffer) : RapidPulseBuffer :=
  mkBuffer [] None (windowMs s) (minChanges s).

Definition addGesture (gesture : GestureState) (s : RapidPulseBuffer)
  : RapidPulseBuffer :=
  let currentType := type gesture in
  let s1 :=
    match lastGesture s with
    | Some last =>
      if negb (GestureType_eqb last currentType) then
        cleanOldEvents (timestamp gesture)
          (mkBuffer (buffer s ++ [mkEvent last currentType (timestamp gesture)])
                    (lastGesture s) (windowMs s) (minChanges s))
      else s
    | None => s
    end in
  mkBuffer (buffer s1) (Some currentType) (windowMs s1) (minChanges s1).

Definition isRelevant (t : GestureType) : bool :=
  GestureType_eqb t OPEN_PALM || GestureType_eqb t FIST.

(** One iteration of the [for (const event of this.buffer)] loop; the loop
    state is [(alternationCount, lastRelevantType)]. *)
Definition countStep (acc : Z * option GestureType) (event : StateChangeEvent)
  : Z * option GestureType :=
  let '(alternationCount, lastRelevantType) := acc in
  let isRelevantFrom := isRelevant (fromType event) in
  let isRelevantTo := isRelevant (toType event) in
  if isRelevantFrom && isRelevantTo then
    match lastRelevantType with
    | None => ((alternationCount + 1)%Z, Some (toType event))
    | Some l =>
      if negb (GestureType_eqb l (toType event))
      then ((alternationCount + 1)%Z, Some (toType event))
      else acc
    end
  else acc.

Definition countAlternations (events : list StateChangeEvent) : Z :=
  fst (fold_left countStep events (0%Z, None)).

(** [detectRapidPulse()]: the returned boolean and the detector afterwards. *)
Definition detectRapidPulse (s : RapidPulseBuffer) : bool * RapidPulseBuffer :=
  if (Z.of_nat (length (buffer s)) <? minChanges s)%Z then (false, s)
  else
    let alternationCount := countAlternations (buffer s) in
    if (minChanges s <=? alternationCount)%Z then (true, reset s)
    else (false, s).

Definition getBufferSize (s : RapidPulseBuffer) : nat := length (buffer s).

(** Feeding a sequence of classified gestures, one [addGesture] each. *)
Definition feed (gestures : list GestureState) (s : RapidPulseBuffer)
  : RapidPulseBuffer :=
  fold_left (fun acc g => addGesture g acc) gestures s.

(** A gesture sequence alternates between OPEN_PALM and FIST. *)
Fixpoint alternating (gestures : list GestureState) : bool :=
  match gestures with
  | [] => true
  | g :: rest =>
    isRelevant (type g) &&
    match rest with
    | [] => true
    | g' :: _ => negb (GestureType_eqb (type g) (type g')) && alternating rest
    end
  end.

(** Timestamps never go back along the sequence, and start at [t] or later. *)
Fixpoint chronologicalFrom (t : Z) (gestures : list GestureState) : Prop :=
  match gestures with
  | [] => True
  | g :: rest => (t <= timestamp g)%Z /\ chronologicalFrom (timestamp g) rest
  end.

Definition chronological (gestures : list GestureState) : Prop :=
  match gestures with
  | [] => True
  | g :: rest => chronologicalFrom (timestamp g) rest
  end.

(** Time between the first and the last recorded transition of a sequence:
    every gesture after the first one of an alternating sequence is a
    transition. *)
Definition transitionSpan (gestures : list GestureState) : Z :=
  match gestures with
  | _ :: g1 :: rest => (timestamp (last rest g1) - timestamp g1)%Z
  | _ => 0%Z
  end.

Definition gesture (t : GestureType) (ts : Z) : GestureState :=
  mkGestureState t 1 ts.

(** Every buffered event is at most as recent as [t]. *)
Definition notAfter (t : Z) (s : RapidPulseBuffer) : Prop :=
  Forall (fun e => (ev_timestamp e <= t)%Z) (buffer s).

(** The burst of the one-shot law, at the given instants. *)
Definition pulseBurst (t1 t2 t3 t4 t5 : Z) : list GestureState :=
  [gesture OPEN_PALM t1; gesture FIST t2; gesture OPEN_PALM t3;
   gesture FIST t4; gesture OPEN_PALM t5].

End RapidPulse.

(* ================================================================== *)
(** ** three/ParticleSystem.ts *)

Module Engine.
Local Open Scope R_scope.

(** *** The parts of three.js the engine uses *)

Record Vector3 : Type := mkVector3 { vx : R; vy : R; vz : R }.

Definition add (a b : Vector3) : Vector3 :=
  mkVector3 (vx a + vx b) (vy a + vy b) (vz a + vz b).

Definition sub (a b : Vector3) : Vector3 :=
  mkVector3 (vx a - vx b) (vy a - vy b) (vz a - vz b).

Definition multiplyScalar (v : Vector3) (s : R) : Vector3 :=
  mkVector3 (vx v * s) (vy v * s) (vz v * s).

Definition divideScalar (v : Vector3) (s : R) : Vector3 :=
  multiplyScalar v (1 / s).

Definition dot (a b : Vector3) : R :=
  vx a * vx b + vy a * vy b + vz a * vz b.

Definition lengthSq (v : Vector3) : R :=
  vx v * vx v + vy v * vy v + vz v * vz v.

Definition length (v : Vector3) : R := sqrt (lengthSq v).

(** [normalize()] is [divideScalar(this.length() || 1)]: the zero vector
    stays the zero vector. *)
Definition normalize (v : Vector3) : Vector3 :=
  divideScalar v (if Req_dec_T (length v) 0 then 1 else length v).

Definition crossVectors (a b : Vector3) : Vector3 :=
  mkVector3 (vy a * vz b - vz a * vy b)
            (vz a * vx b - vx a * vz b)
            (vx a * vy b - vy a * vx b).

Record Box3 : Type := mkBox3 { bmin : Vector3; bmax : Vector3 }.

Definition expandByScalar (b : Box3) (s : R) : Box3 :=
  mkBox3 (mkVector3 (vx (bmin b) - s) (vy (bmin b) - s) (vz (bmin b) - s))
         (mkVector3 (vx (bmax b) + s) (vy (bmax b) + s) (vz (bmax b) + s)).

Definition Rlt_b (a b : R) : bool := if Rlt_dec a b then true else false.
Definition Rle_b (a b : R) : bool := if Rle_dec a b then true else false.

Definition isEmpty (b : Box3) : bool :=
  Rlt_b (vx (bmax b)) (vx (bmin b)) ||
  Rlt_b (vy (bmax b)) (vy (bmin b)) ||
  Rlt_b (vz (bmax b)) (vz (bmin b)).

Definition getCenter (b : Box3) : Vector3 :=
  if isEmpty b then mkVector3 0 0 0
  else multiplyScalar (add (bmin b) (bmax b)) 0.5.

Record Color : Type := mkColor { cr : R; cg : R; cb : R }.

(** *** three/types.ts *)

Record TextPoint : Type := mkTextPoint { px : R; py : R; pz : R }.

Record Particle : Type := mkParticle {
  current : Vector3;
  target : Vector3;
  velocity : Vector3;
  idleOffset : Vector3;
  color : Color;
  speed : R;
  orbitAxis : Vector3
}.

(** *** utils/constants.ts *)

Definition PARTICLE_COUNT : nat := 3000.
Definition PARTICLE_IDLE_RADIUS : R := 80.
Definition PARTICLE_DRIFT_SPEED : R := 0.05.
Definition PARTICLE_MORPH_SPEED : R := 0.08.
Definition PARTICLE_JITTER_AMOUNT : R := 0.08.

(** *** The engine's fields

    The rendering objects (geometry, material, points) are not modelled.
    [randomCalls] is the number of [Math.random()] calls made so far: the
    k-th call returns [random k]. *)
Record ParticleSystem : Type := mkParticleSystem {
  particles : list Particle;
  isIdle : bool;
  isExploding : bool;
  explosionTime : R;
  isDispersing : bool;
  dispersionTime : R;
  isOrbiting : bool;
  orbitBounds : option Box3;
  orbitTime : R;
  randomCalls : nat
}.

Definition EXPLOSION_DURATION : R := 0.5.
Definition DISPERSION_DURATION : R := 0.3.

(** A call either returns or throws; both leave an engine behind. *)
Inductive Exception : Type := TypeError.

Inductive Outcome : Type :=
| Returns (s : ParticleSystem)
| Throws (e : Exception) (s : ParticleSystem).

Definition stateOf (o : Outcome) : ParticleSystem :=
  match o with Returns s => s | Throws _ s => s end.

Definition hasThrown (o : Outcome) : bool :=
  match o with Returns _ => false | Throws _ _ => true end.

(** The branch [update] takes. *)
Inductive EngineMode : Type := IDLE | MORPHING | EXPLODING | DISPERSING | ORBITING.

(** Array helpers: [a[i] = v] inside the bounds of [a]. *)
Fixpoint setAt {A : Type} (l : list A) (i : nat) (v : A) : list A :=
  match l, i with
  | [], _ => []
  | _ :: rest, O => v :: rest
  | a :: rest, S i' => a :: setAt rest i' v
  end.

(** [Math.floor] of a number that is not negative, as an index. *)
Definition floorIndex (r : R) : nat := Z.to_nat (Int_part r).

(** *** A state monad for the calls of [Math.random()] *)

Definition Rand (A : Type) : Type := nat -> A * nat.

Definition ret {A : Type} (a : A) : Rand A := fun k => (a, k).

Definition bind {A B : Type} (m : Rand A) (f : A -> Rand B) : Rand B :=
  fun k => let (a, k') := m k in f a k'.

Notation "x <- m ;; f" := (bind m (fun x => f))
  (at level 61, m at next level, right associativity).

Fixpoint mapM {A B : Type} (f : A -> Rand B) (l : list A) : Rand (list B) :=
  match l with
  | [] => ret []
  | a :: rest => b <- f a ;; bs <- mapM f rest ;; ret (b :: bs)
  end.

(** [mapM] with the index of the element, as [for (let i = 0; ...)]. *)
Fixpoint mapMi {A B : Type} (f : nat -> A -> Rand B) (i : nat) (l : list A)
  : Rand (list B) :=
  match l with
  | [] => ret []
  | a :: rest => b <- f i a ;; bs <- mapMi f (S i) rest ;; ret (b :: bs)
  end.

Section WithRandom.

(** [random k] is what the k-th call of [Math.random()] returns. *)
Variable random : nat -> R.

Definition Math_random : Rand R := fun k => (random k, S k).

(** **** constructor and [initializeParticles] *)

Definition newParticle : Rand Particle :=
  r1 <- Math_random ;;
  let theta := r1 * PI * 2 in
  r2 <- Math_random ;;
  let phi := acos (r2 * 2 - 1) in
  r3 <- Math_random ;;
  let radius := r3 * PARTICLE_IDLE_RADIUS in
  let x := radius * sin phi * cos theta in
  let y := radius * sin phi * sin theta in
  let z := radius * cos phi in
  colorChoice <- Math_random ;;
  c1 <- Math_random ;;
  c2 <- Math_random ;;
  c3 <- Math_random ;;
  let particleColor :=
    if Rlt_b colorChoice 0.3 then
      mkColor (c1 * 0.4) (0.8 + c2 * 0.2) (0.8 + c3 * 0.2)
    else if Rlt_b colorChoice 0.5 then
      mkColor (c1 * 0.2) (0.5 + c2 * 0.3) (0.8 + c3 * 0.2)
    else if Rlt_b colorChoice 0.7 then
      mkColor (0.6 + c1 * 0.4) (c2 * 0.4) (0.8 + c3 * 0.2)
    else if Rlt_b colorChoice 0.85 then
      mkColor (0.8 + c1 * 0.2) (0.2 + c2 * 0.3) (0.5 + c3 * 0.3)
    else
      mkColor (c1 * 0.3) (0.8 + c2 * 0.2) (0.5 + c3 * 0.3) in
  r4 <- Math_random ;;
  let speed := 0.5 + r4 * 1.0 in
  a1 <- Math_random ;;
  a2 <- Math_random ;;
  a3 <- Math_random ;;
  let orbitAxis :=
    normalize (mkVector3 (a1 * 2 - 1) (a2 * 0.6 - 0.3) (a3 * 2 - 1)) in
  o1 <- Math_random ;;
  o2 <- Math_random ;;
  o3 <- Math_random ;;
  ret (mkParticle (mkVector3 x y z) (mkVector3 x y z) (mkVector3 0 0 0)
         (normalize (mkVector3 (o1 * 2 - 1) (o2 * 2 - 1) (o3 * 2 - 1)))
         particleColor speed orbitAxis).

Fixpoint initializeParticles (count : nat) : Rand (list Particle) :=
  match count with
  | O => ret []
  | S n => p <- newParticle ;; ps <- initializeParticles n ;; ret (p :: ps)
  end.

(** [new ParticleSystem(particleCount)].  After the particles, the
    constructor draws one random size per particle for the geometry. *)
Definition create (particleCount : nat) : ParticleSystem :=
  let (ps, k) := initializeParticles particleCount O in
  mkParticleSystem ps true false 0 false 0 false None 0 (k + particleCount).

(** **** [setTarget] *)

(** The Fisher-Yates loop [for (i = length - 1; i > 0; i--)]. *)
Fixpoint shuffle (i : nat) (shuffledIndices : list nat) : Rand (list nat) :=
  match i with
  | O => ret shuffledIndices
  | S i' =>
    r <- Math_random ;;
    let j := floorIndex (r * (INR i + 1)) in
    let ai := nth i shuffledIndices O in
    let aj := nth j shuffledIndices O in
    shuffle i' (setAt (setAt shuffledIndices i aj) j ai)
  end.

(** The assignment loop, [todo] iterations from index [i] on.  With an
    empty [points], [i % targetCount] is NaN, [points[NaN]] is
    [undefined], and reading [point.x] throws a TypeError before
    anything is written. *)
Fixpoint assignTargets (todo i : nat) (shuffledIndices : list nat)
         (points : list TextPoint) (ps : list Particle) (k : nat)
  : (option Exception) * list Particle * nat :=
  match todo with
  | O => (None, ps, k)
  | S todo' =>
    let targetCount := List.length points in
    let particleIndex := nth i shuffledIndices O in
    let point :=
      if (targetCount =? 0)%nat then None
      else nth_error points (i mod targetCount) in
    let layer := (i / targetCount)%nat in
    let jitter := INR layer * 0.05 in
    match point with
    | None => (Some TypeError, ps, k)
    | Some point =>
      let t := mkVector3 (px point + (random k - 0.5) * jitter)
                         (py point + (random (k + 1) - 0.5) * jitter)
                         (pz point + (random (k + 2) - 0.5) * jitter) in
      let ps' :=
        match nth_error ps particleIndex with
        | Some p =>
          setAt ps particleIndex
            (mkParticle (current p) t (velocity p) (idleOffset p)
                        (color p) (speed p) (orbitAxis p))
        | None => ps
        end in
      assignTargets todo' (S i) shuffledIndices points ps' (k + 3)
    end
  end.

Definition setTarget (points : list TextPoint) (s : ParticleSystem) : Outcome :=
  let n := List.length (particles s) in
  let (shuffledIndices, k) := shuffle (n - 1) (seq 0 n) (randomCalls s) in
  let '(exn, ps, k') := assignTargets n 0 shuffledIndices points (particles s) k in
  let s' := mkParticleSystem ps false (isExploding s) (explosionTime s)
              (isDispersing s) (dispersionTime s) (isOrbiting s)
              (orbitBounds s) (orbitTime s) k' in
  match exn with
  | None => Returns s'
  | Some e => Throws e s'
  end.

(** **** [setIdleState], [disperse], [explode] *)

Definition setIdleState (s : ParticleSystem) : ParticleSystem :=
  mkParticleSystem
    (map (fun p => mkParticle (current p) (current p) (velocity p)
                     (idleOffset p) (color p) (speed p) (orbitAxis p))
         (particles s))
    true false (explosionTime s) false (dispersionTime s) false None
    (orbitTime s) (randomCalls s).

Definition disperseParticle (p : Particle) : Rand Particle :=
  d1 <- Math_random ;;
  d2 <- Math_random ;;
  d3 <- Math_random ;;
  let randomDirection :=
    normalize (mkVector3 (d1 * 2 - 1) (d2 * 2 - 1) (d3 * 2 - 1)) in
  ret (mkParticle (current p) (target p)
         (multiplyScalar randomDirection (3.0 * speed p))
         (idleOffset p) (color p) (speed p) (orbitAxis p)).

Definition disperse (s : ParticleSystem) : ParticleSystem :=
  let (ps, k) := mapM disperseParticle (particles s) (randomCalls s) in
  mkParticleSystem ps false false (explosionTime s) true 0 (isOrbiting s)
    (orbitBounds s) (orbitTime s) k.

Definition explodeParticle (p : Particle) : Particle :=
  let direction := normalize (current p) in
  mkParticle (current p) (target p)
    (multiplyScalar direction (5.0 * speed p))
    (idleOffset p) (color p) (speed p) (orbitAxis p).

Definition explode (s : ParticleSystem) : ParticleSystem :=
  mkParticleSystem (map explodeParticle (particles s))
    false true 0 (isDispersing s) (dispersionTime s) (isOrbiting s)
    (orbitBounds s) (orbitTime s) (randomCalls s).

(** **** [orbitAroundBounds] *)

(** [Math.floor(i / particlesPerStrategy) % strategyCount]; with fewer
    than three particles [particlesPerStrategy] is 0 and the source gets
    NaN, which is neither 0 nor 1, so the last strategy runs. *)
Definition strategyOf (i particlesPerStrategy : nat) : option nat :=
  if (particlesPerStrategy =? 0)%nat then None
  else Some ((i / particlesPerStrategy) mod 3)%nat.

(** The tangent of a particle's orbit, with the fallback axis when the
    cross product is degenerate. *)
Definition orbitTangent (radialDir axis : Vector3) : Vector3 :=
  let tangent := normalize (crossVectors radialDir axis) in
  if Rlt_b (length tangent) 0.01 then
    let altAxis := mkVector3 1 0 0 in
    normalize (crossVectors radialDir altAxis)
  else tangent.

Definition placeOnOrbit (center : Vector3) (particlesPerStrategy : nat)
           (i : nat) (particle : Particle) : Rand Particle :=
  let m := INR (i mod particlesPerStrategy) in
  angles <-
    match strategyOf i particlesPerStrategy with
    | Some O =>
      let goldenRatio := (1 + sqrt 5) / 2 in
      ret (2 * PI * m / goldenRatio,
           acos (1 - 2 * (m + 0.5) / INR particlesPerStrategy))
    | Some (S O) =>
      r1 <- Math_random ;;
      r2 <- Math_random ;;
      ret (r1 * 2 * PI, acos (2 * r2 - 1))
    | _ =>
      let layer := m / INR particlesPerStrategy in
      r1 <- Math_random ;;
      ret ((r1 + INR i) * 2 * PI * 0.618034, PI * layer)
    end ;;
  n1 <- Math_random ;;
  n2 <- Math_random ;;
  let theta := fst angles + (n1 - 0.5) * 0.8 in
  let phi := snd angles + (n2 - 0.5) * 0.8 in
  let baseRadius := 20 in
  n3 <- Math_random ;;
  let radiusVariation := (n3 - 0.5) * 12 in
  let radius := baseRadius + radiusVariation in
  let x := vx center + radius * sin phi * cos theta in
  let y := vy center + radius * sin phi * sin theta in
  let z := vz center + radius * cos phi in
  let pos := mkVector3 x y z in
  let radialDir := normalize (sub pos center) in
  let tangent := orbitTangent radialDir (orbitAxis particle) in
  o1 <- Math_random ;;
  o2 <- Math_random ;;
  o3 <- Math_random ;;
  let randomOffset :=
    mkVector3 ((o1 - 0.5) * 0.3) ((o2 - 0.5) * 0.3) ((o3 - 0.5) * 0.3) in
  let tangent := normalize (add tangent randomOffset) in
  ret (mkParticle pos pos (multiplyScalar tangent (0.6 * speed particle))
         (idleOffset particle) (color particle) (speed particle)
         (orbitAxis particle)).

Definition orbitAroundBounds (bounds : Box3) (s : ParticleSystem)
  : ParticleSystem :=
  let center := getCenter bounds in
  let strategyCount := 3%nat in
  let particlesPerStrategy := (List.length (particles s) / strategyCount)%nat in
  let (ps, k) :=
    mapMi (placeOnOrbit center particlesPerStrategy) 0 (particles s)
          (randomCalls s) in
  mkParticleSystem ps false false (explosionTime s) false (dispersionTime s)
    true (Some (expandByScalar bounds 15)) 0 k.

(** **** [update] and the five per-mode steps *)

(** [now] is the value of [Date.now()] during the call.  Over the reals
    the clamp puts a particle exactly on the sphere; in doubles its length
    can differ from the radius in the last bit. *)
Definition idleParticle (now : R) (particle : Particle) : Particle :=
  let time := now * 0.001 in
  let drift :=
    multiplyScalar (idleOffset particle)
      (sin (time + vx (current particle)) * PARTICLE_DRIFT_SPEED * speed particle) in
  let moved := add (current particle) drift in
  let kept :=
    if Rlt_b PARTICLE_IDLE_RADIUS (length moved)
    then multiplyScalar (normalize moved) PARTICLE_IDLE_RADIUS
    else moved in
  mkParticle kept (target particle) (velocity particle) (idleOffset particle)
    (color particle) (speed particle) (orbitAxis particle).

Definition updateIdleState (now deltaTime : R) (s : ParticleSystem)
  : ParticleSystem :=
  mkParticleSystem (map (idleParticle now) (particles s))
    (isIdle s) (isExploding s) (explosionTime s) (isDispersing s)
    (dispersionTime s) (isOrbiting s) (orbitBounds s) (orbitTime s)
    (randomCalls s).

(** [Math.max(0, 1 - elapsed / duration)] *)
Definition decayFactor (elapsed duration : R) : R :=
  Rmax 0 (1 - elapsed / duration).

Definition moveBy (scale : R) (particle : Particle) : Particle :=
  let velocityWithDecay := multiplyScalar (velocity particle) scale in
  mkParticle (add (current particle) velocityWithDecay) (target particle)
    (velocity particle) (idleOffset particle) (color particle)
    (speed particle) (orbitAxis particle).

(** The two clocks are exact sums here; [EngineDoubles] has the same two
    methods with the rounded sums, the infinities and NaN. *)
Definition updateDispersion (deltaTime : R) (s : ParticleSystem)
  : ParticleSystem :=
  let dispersionTime' := dispersionTime s + deltaTime in
  let decay := decayFactor dispersionTime' DISPERSION_DURATION in
  let ps := map (moveBy (decay * deltaTime * 60)) (particles s) in
  if Rle_b DISPERSION_DURATION dispersionTime' then
    mkParticleSystem ps true (isExploding s) (explosionTime s) false
      dispersionTime' (isOrbiting s) (orbitBounds s) (orbitTime s)
      (randomCalls s)
  else
    mkParticleSystem ps (isIdle s) (isExploding s) (explosionTime s)
      (isDispersing s) dispersionTime' (isOrbiting s) (orbitBounds s)
      (orbitTime s) (randomCalls s).

Definition updateExplosion (deltaTime : R) (s : ParticleSystem)
  : ParticleSystem :=
  let explosionTime' := explosionTime s + deltaTime in
  let decay := decayFactor explosionTime' EXPLOSION_DURATION in
  let ps := map (moveBy (decay * deltaTime)) (particles s) in
  if Rle_b EXPLOSION_DURATION explosionTime' then
    mkParticleSystem ps (isIdle s) false explosionTime' (isDispersing s)
      (dispersionTime s) (isOrbiting s) (orbitBounds s) (orbitTime s)
      (randomCalls s)
  else
    mkParticleSystem ps (isIdle s) (isExploding s) explosionTime'
      (isDispersing s) (dispersionTime s) (isOrbiting s) (orbitBounds s)
      (orbitTime s) (randomCalls s).

Definition targetDistance : R := 20.

(** [(distance > targetDistance ? -0.5 : 0.5) * particle.speed] *)
Definition radialSpeed (distance speed : R) : R :=
  (if Rlt_b targetDistance distance then -0.5 else 0.5) * speed.

(** The part of a particle's orbit velocity that [radialSpeed]
    contributes: [toCenter.normalize()] scaled by it. *)
Definition radialCorrection (center : Vector3) (particle : Particle) : Vector3 :=
  let toCenter := sub center (current particle) in
  multiplyScalar (normalize toCenter)
    (radialSpeed (length toCenter) (speed particle)).

Definition orbitParticle (center : Vector3) (orbitTime' deltaTime : R)
           (particle : Particle) : Rand Particle :=
  let toCenter := sub center (current particle) in
  let distance := length toCenter in
  let radialDir := sub (current particle) center in
  let tangent := orbitTangent radialDir (orbitAxis particle) in
  let wave :=
    sin (orbitTime' * 2 + vx (current particle) * 0.1
         + vz (current particle) * 0.1) * 0.3 in
  let orbitalSpeed := 2.0 * speed particle in
  let v :=
    add (multiplyScalar tangent orbitalSpeed)
        (multiplyScalar (normalize toCenter)
           (radialSpeed distance (speed particle) + wave)) in
  let moved := add (current particle) (multiplyScalar v (deltaTime * 60)) in
  j1 <- Math_random ;;
  j2 <- Math_random ;;
  j3 <- Math_random ;;
  let jitter :=
    mkVector3 ((j1 - 0.5) * 0.15) ((j2 - 0.5) * 0.15) ((j3 - 0.5) * 0.15) in
  ret (mkParticle (add moved jitter) (target particle) v
         (idleOffset particle) (color particle) (speed particle)
         (orbitAxis particle)).

Definition updateOrbiting (deltaTime : R) (s : ParticleSystem)
  : ParticleSystem :=
  match orbitBounds s with
  | None => s
  | Some bounds =>
    let orbitTime' := orbitTime s + deltaTime in
    let center := getCenter bounds in
    let (ps, k) :=
      mapM (orbitParticle center orbitTime' deltaTime) (particles s)
           (randomCalls s) in
    mkParticleSystem ps (isIdle s) (isExploding s) (explosionTime s)
      (isDispersing s) (dispersionTime s) (isOrbiting s) (orbitBounds s)
      orbitTime' k
  end.

Definition interpolateParticle (particle : Particle) : Rand Particle :=
  let direction := sub (target particle) (current particle) in
  let distance := length direction in
  if Rlt_b 0.1 distance then
    ret (mkParticle
           (add (current particle)
                (multiplyScalar direction (PARTICLE_MORPH_SPEED * speed particle)))
           (target particle) (velocity particle) (idleOffset particle)
           (color particle) (speed particle) (orbitAxis particle))
  else
    j1 <- Math_random ;;
    j2 <- Math_random ;;
    j3 <- Math_random ;;
    let jitter :=
      mkVector3 ((j1 - 0.5) * PARTICLE_JITTER_AMOUNT * speed particle)
                ((j2 - 0.5) * PARTICLE_JITTER_AMOUNT * speed particle)
                ((j3 - 0.5) * PARTICLE_JITTER_AMOUNT * speed particle) in
    ret (mkParticle (add (current particle) jitter)
           (target particle) (velocity particle) (idleOffset particle)
           (color particle) (speed particle) (orbitAxis particle)).

Definition interpolateToTarget (deltaTime : R) (s : ParticleSystem)
  : ParticleSystem :=
  let (ps, k) := mapM interpolateParticle (particles s) (randomCalls s) in
  mkParticleSystem ps (isIdle s) (isExploding s) (explosionTime s)
    (isDispersing s) (dispersionTime s) (isOrbiting s) (orbitBounds s)
    (orbitTime s) k.

(** [update(deltaTime)]; copying the positions into the geometry buffer
    is not modelled. *)
Definition update (now deltaTime : R) (s : ParticleSystem) : ParticleSystem :=
  if isExploding s then updateExplosion deltaTime s
  else if isDispersing s then updateDispersion deltaTime s
  else if isOrbiting s then updateOrbiting deltaTime s
  else if isIdle s then updateIdleState now deltaTime s
  else interpolateToTarget deltaTime s.

(** [ticks n]: [n] calls of [update] with the same clock and step. *)
Fixpoint ticks (n : nat) (now deltaTime : R) (s : ParticleSystem)
  : ParticleSystem :=
  match n with
  | O => s
  | S n' => ticks n' now deltaTime (update now deltaTime s)
  end.

End WithRandom.

(** *** Reading the mode off the flags *)

(** The branch the next [update] takes. *)
Definition activeMode (s : ParticleSystem) : EngineMode :=
  if isExploding s then EXPLODING
  else if isDispersing s then DISPERSING
  else if isOrbiting s then ORBITING
  else if isIdle s then IDLE
  else MORPHING.

(** The engine has no flag for morphing: it morphs when the four flags it
    has are all off (the last branch of [update]). *)
Definition isMorphing (s : ParticleSystem) : bool :=
  negb (isExploding s) && negb (isDispersing s) && negb (isOrbiting s)
  && negb (isIdle s).

Definition modeFlags (s : ParticleSystem) : list bool :=
  [isIdle s; isMorphing s; isExploding s; isDispersing s; isOrbiting s].

Definition activeFlagCount (s : ParticleSystem) : nat :=
  List.length (filter (fun b => b) (modeFlags s)).

(** The four flags of an engine, read together. *)
Record Flags : Type := mkFlags {
  fIdle : bool; fExploding : bool; fDispersing : bool; fOrbiting : bool
}.

Definition flagsOf (s : ParticleSystem) : Flags :=
  mkFlags (isIdle s) (isExploding s) (isDispersing s) (isOrbiting s).

(** A particle's distance to the position it morphs to. *)
Definition distanceToTarget (p : Particle) : R :=
  length (sub (target p) (current p)).

Definition distanceAt (i : nat) (s : ParticleSystem) : R :=
  match nth_error (particles s) i with
  | Some p => distanceToTarget p
  | None => 0
  end.

(** The speed multipliers the constructor hands out. *)
Definition speedInRange (p : Particle) : Prop := 0.5 <= speed p <= 1.5.

(** The engine morphs, with the speed multipliers of the constructor. *)
Definition morphing (s : ParticleSystem) : Prop :=
  activeMode s = MORPHING /\ Forall speedInRange (particles s).

(** The morph threshold plus the longest jitter step: at most
    [0.5 * PARTICLE_JITTER_AMOUNT * 1.5] on each axis. *)
Definition settledRadius : R := 0.1 + 0.06 * sqrt 3.

(** An engine with one particle at [pos], of speed 1, heading for [goal]. *)
Definition loneParticle (pos goal : Vector3) : Particle :=
  mkParticle pos goal (mkVector3 0 0 0) (mkVector3 1 0 0) (mkColor 0 1 1) 1
    (mkVector3 0 1 0).

(** The calls of the public interface, to run a sequence of them. *)
Inductive Call : Type :=
| CallSetTarget (points : list TextPoint)
| CallSetIdleState
| CallDisperse
| CallExplode
| CallOrbitAroundBounds (bounds : Box3)
| CallUpdate (now deltaTime : R).

Definition perform (random : nat -> R) (s : ParticleSystem) (c : Call)
  : ParticleSystem :=
  match c with
  | CallSetTarget points => stateOf (setTarget random points s)
  | CallSetIdleState => setIdleState s
  | CallDisperse => disperse random s
  | CallExplode => explode s
  | CallOrbitAroundBounds bounds => orbitAroundBounds random bounds s
  | CallUpdate now deltaTime => update random now deltaTime s
  end.

Definition run (random : nat -> R) (calls : list Call) (s : ParticleSystem)
  : ParticleSystem :=
  fold_left (perform random) calls s.

End Engine.

(* ================================================================== *)
(** ** three/ParticleSystem.ts: the decaying modes, over doubles *)

(** [updateExplosion] and [updateDispersion] once more, with the numbers
    as binary64 values, so that rounding, overflow, the infinities and NaN
    are what they are in the code.  A particle is kept to the two fields
    these methods read or write, and the engine to the fields of the two
    modes. *)
Module EngineDoubles.
Import Double.

Record Vector3 : Type := mkVector3 { vx : double; vy : double; vz : double }.

(** [Vector3.multiplyScalar] and [Vector3.add] of three.js, component by
    component. *)
Definition multiplyScalar (v : Vector3) (scalar : double) : Vector3 :=
  mkVector3 (mul (vx v) scalar) (mul (vy v) scalar) (mul (vz v) scalar).

Definition addVector (a b : Vector3) : Vector3 :=
  mkVector3 (add (vx a) (vx b)) (add (vy a) (vy b)) (add (vz a) (vz b)).

Record Particle : Type := mkParticle { current : Vector3; velocity : Vector3 }.

Record DecayingModes : Type := mkDecaying {
  particles : list Particle;
  isIdle : bool;
  isExploding : bool;
  explosionTime : double;
  isDispersing : bool;
  dispersionTime : double
}.

Definition EXPLOSION_DURATION : double := decimal 5 10.
Definition DISPERSION_DURATION : double := decimal 3 10.

(** [Math.max(0, 1 - elapsed / duration)] *)
Definition decayFactor (elapsed duration : double) : double :=
  Math_max zero (sub one (div elapsed duration)).

(** [particle.current.add(particle.velocity.clone().multiplyScalar(factor))] *)
Definition moveBy (factor : double) (p : Particle) : Particle :=
  mkParticle (addVector (current p) (multiplyScalar (velocity p) factor))
             (velocity p).

Definition updateExplosion (deltaTime : double) (s : DecayingModes) : DecayingModes :=
  let explosionTime' := add (explosionTime s) deltaTime in
  let decay := decayFactor explosionTime' EXPLOSION_DURATION in
  let ps := map (moveBy (mul decay deltaTime)) (particles s) in
  mkDecaying ps (isIdle s)
    (if geb explosionTime' EXPLOSION_DURATION then false else isExploding s)
    explosionTime' (isDispersing s) (dispersionTime s).

Definition updateDispersion (deltaTime : double) (s : DecayingModes) : DecayingModes :=
  let dispersionTime' := add (dispersionTime s) deltaTime in
  let decay := decayFactor dispersionTime' DISPERSION_DURATION in
  let ps := map (moveBy (mul (mul decay deltaTime) (ofZ 60))) (particles s) in
  if geb dispersionTime' DISPERSION_DURATION then
    mkDecaying ps true (isExploding s) (explosionTime s) false dispersionTime'
  else
    mkDecaying ps (isIdle s) (isExploding s) (explosionTime s) (isDispersing s)
               dispersionTime'.

(** *** Reading aids *)

(** A well-formed number of magnitude below [2^1000]. *)
Definition ordinary (c : double) : bool := isDouble c && below 1000 c.
Definition ordinaryVector (v : Vector3) : bool :=
  ordinary (vx v) && ordinary (vy v) && ordinary (vz v).
Definition finiteVector (v : Vector3) : bool :=
  isFinite (vx v) && isFinite (vy v) && isFinite (vz v).
(** A step or an elapsed time: a finite number that is not negative. *)
Definition elapsed (c : double) : bool := isDouble c && isFinite c && leb zero c.

(** One particle at [(1,0,0)], as [explode] and as [disperse] leave it
    (velocities [(5,0,0)] and [(3,0,0)], timers at 0). *)
Definition exploded : DecayingModes :=
  mkDecaying [mkParticle (mkVector3 one zero zero) (mkVector3 (ofZ 5) zero zero)]
             false true zero false zero.
Definition dispersed : DecayingModes :=
  mkDecaying [mkParticle (mkVector3 one zero zero) (mkVector3 (ofZ 3) zero zero)]
             false false zero true zero.

End EngineDoubles.

(* ================================================================== *)
(** ** hooks/useParticleSystem.ts: the effect that follows [targetText] *)

Module Orchestration.
Local Open Scope string_scope.

Definition TEXTS_TO_GENERATE : list string :=
  ["SoC"; "Curiosity"; "Ingenuity"; "Deterministic"; "SP School Of Computing"].

(** What the effect asks of the engine; [afterMs] is the [setTimeout]
    delay of the call. *)
Inductive EngineRequest : Type :=
| Disperse
| Explode
| OrbitAroundBounds (afterMs : nat).

Definition sameText (a b : option string) : bool :=
  match a, b with
  | None, None => true
  | Some s, Some t => String.eqb s t
  | _, _ => false
  end.

(** The effect body, once the hook is ready (font loaded, engine and scene
    present, the text mesh has a bounding box): the new
    [prevTargetTextRef.current] and the requests made to the engine. *)
Definition onTargetText (prevTargetText targetText : option string)
  : option string * list EngineRequest :=
  if sameText targetText prevTargetText then (prevTargetText, [])
  else
    match targetText with
    | None => (targetText, [Disperse])
    | Some text =>
      if negb (existsb (String.eqb text) TEXTS_TO_GENERATE) then (targetText, [])
      else if String.eqb text "SP School Of Computing"
           then (targetText, [Explode; OrbitAroundBounds 500])
           else (targetText, [OrbitAroundBounds 0])
    end.

End Orchestration.

(* ================================================================== *)
(** ** Reading aids for the classifier and the detector *)

Module Reading.
Import Gestures Gestures.FingerLandmark GestureClassifier RapidPulse.

(** Which fingers [countExtendedFingers] finds extended. *)
Record Fingers : Type := mkFingers {
  index : bool; middle : bool; ring : bool; pinky : bool; thumb : bool
}.

Definition fingersOf (landmarks : list NormalizedLandmark) : Fingers :=
  mkFingers (isFingerExtended landmarks INDEX_TIP INDEX_PIP)
            (isFingerExtended landmarks MIDDLE_TIP MIDDLE_PIP)
            (isFingerExtended landmarks RING_TIP RING_PIP)
            (isFingerExtended landmarks PINKY_TIP PINKY_PIP)
            (isThumbExtended landmarks).

(** An event both of whose ends are OPEN_PALM or FIST. *)
Definition relevantEvent (e : StateChangeEvent) : bool :=
  isRelevant (fromType e) && isRelevant (toType e).

(** How far a detector is from its next possible firing: the buffered
    events, plus one when a last gesture is known. *)
Definition armLevel (s : RapidPulseBuffer) : nat :=
  (List.length (buffer s) + match lastGesture s with Some _ => 1 | None => 0 end)%nat.

(** All buffered events lie in the window that ends at [t]. *)
Definition withinWindow (t : Z) (s : RapidPulseBuffer) : Prop :=
  Forall (fun e => (t - windowMs s <= ev_timestamp e <= t)%Z) (buffer s).

Definition neverUnknown (s : RapidPulseBuffer) : Prop :=
  lastGesture s <> Some UNKNOWN /\
  Forall (fun e => fromType e <> UNKNOWN /\ toType e <> UNKNOWN) (buffer s).

(** A hand with the given fingers extended: wrist at [x = 0.5], tips up
    ([y = 0.2]) for the extended fingers and down ([y = 0.8]) for the
    others, the thumb tip sideways at [x = 0.9] when extended. *)
Definition handWith (f : Fingers) : list NormalizedLandmark :=
  map (fun i =>
         let up (b : bool) := if b then Double.decimal 2 10 else Double.decimal 8 10 in
         mkLandmark
           (if (i =? THUMB_TIP)%nat then
              (if thumb f then Double.decimal 9 10 else Double.decimal 1 2)
            else if (i =? THUMB_MCP)%nat then Double.decimal 6 10
            else Double.decimal 1 2)
           (if (i =? INDEX_TIP)%nat then up (index f)
            else if (i =? MIDDLE_TIP)%nat then up (middle f)
            else if (i =? RING_TIP)%nat then up (ring f)
            else if (i =? PINKY_TIP)%nat then up (pinky f)
            else Double.decimal 6 10)
           Double.zero)
      (seq 0 21).

End Reading.

(* ================================================================== *)
(** ** hooks/useGestureRecognizer.ts: the effect that follows [landmarks] *)

Module Recognizer.
Import Gestures GestureClassifier RapidPulse Reading.
Local Open Scope string_scope.

Definition CONFIDENCE_THRESHOLD : Q := 8 # 10.

(** [GESTURE_TEXT_MAP] of types/gestures.ts *)
Definition GESTURE_TEXT_MAP (t : GestureType) : option string :=
  match t with
  | OPEN_PALM => Some "SoC"
  | POINT => Some "Curiosity"
  | VICTORY => Some "Ingenuity"
  | THREE_COUNT => Some "Deterministic"
  | FIST => None
  | UNKNOWN => None
  end.

Definition RAPID_PULSE_TEXT : string := "SP School Of Computing".

(** The React state and refs of the hook. *)
Record RecognizerState : Type := mkRecognizer {
  rapidPulseBuffer : RapidPulseBuffer;
  currentGesture : option GestureState;
  targetText : option string;
  prevGestureType : option GestureType
}.

Definition initial : RecognizerState :=
  mkRecognizer createDefault None None None.

(** The branch taken without a usable gesture. *)
Definition clearGesture (st : RecognizerState) : RecognizerState :=
  match currentGesture st with
  | Some _ => mkRecognizer (rapidPulseBuffer st) None None None
  | None => st
  end.

Definition sameType (a : option GestureType) (t : GestureType) : bool :=
  match a with
  | Some t' => GestureType_eqb t t'
  | None => false
  end.

(** One run of the effect, for the landmarks of a frame; [now] is what
    [Date.now()] returns during the run. *)
Definition onLandmarks (now : Z) (landmarks : option (list NormalizedLandmark))
           (st : RecognizerState) : RecognizerState :=
  match landmarks with
  | None => clearGesture st
  | Some [] => clearGesture st
  | Some lm =>
    let gesture := classify (Some lm) now in
    if Qle_bool (confidence gesture) CONFIDENCE_THRESHOLD then clearGesture st
    else
      let buf := addGesture gesture (rapidPulseBuffer st) in
      let (isRapidPulse, buf') := detectRapidPulse buf in
      let text :=
        if isRapidPulse then Some RAPID_PULSE_TEXT
        else GESTURE_TEXT_MAP (type gesture) in
      let prev :=
        if negb (sameType (prevGestureType st) (type gesture)) && negb isRapidPulse
        then Some (type gesture) else prevGestureType st in
      mkRecognizer buf' (Some gesture) text prev
  end.

(** A frame: the clock and the landmarks it delivers. *)
Definition Frame : Type := (Z * option (list NormalizedLandmark))%type.

Definition runFrames (frames : list Frame) (st : RecognizerState)
  : RecognizerState :=
  fold_left (fun acc f => onLandmarks (fst f) (snd f) acc) frames st.

(** The state keeps no text without a gesture. *)
Definition consistent (st : RecognizerState) : Prop :=
  currentGesture st = None -> targetText st = None.

(** What one run of the effect does with a usable gesture. *)
Definition accepted (now : Z) (landmarks : option (list NormalizedLandmark))
           (st : RecognizerState) : RecognizerState :=
  let gesture := classify landmarks now in
  let buf := addGesture gesture (rapidPulseBuffer st) in
  mkRecognizer (snd (detectRapidPulse buf)) (Some gesture)
    (if fst (detectRapidPulse buf) then Some RAPID_PULSE_TEXT
     else GESTURE_TEXT_MAP (type gesture))
    (if negb (sameType (prevGestureType st) (type gesture))
        && negb (fst (detectRapidPulse buf))
     then Some (type gesture) else prevGestureType st).

(** What holds of every state the hook can be in. *)
Definition reachable (st : RecognizerState) : Prop :=
  consistent st /\
  minChanges (rapidPulseBuffer st) = RAPID_PULSE_MIN_CHANGES /\
  neverUnknown (rapidPulseBuffer st) /\
  match targetText st with
  | None => True
  | Some t => existsb (String.eqb t) Orchestration.TEXTS_TO_GENERATE = true
  end.

End Recognizer.

(* ================================================================== *)
(** ** Reading aids for the engine *)

Module EngineReading.
Import Engine.
Local Open Scope R_scope.

(** What a particle is given at creation: drift axis, colour, speed
    multiplier, orbit axis. *)
Definition identityOf (p : Particle) : Vector3 * Color * R * Vector3 :=
  (idleOffset p, color p, speed p, orbitAxis p).

(** Everything of a particle but its target. *)
Definition exceptTarget (p : Particle)
  : Vector3 * Vector3 * (Vector3 * Color * R * Vector3) :=
  (current p, velocity p, identityOf p).

(** The guard of [updateOrbiting] is not needed. *)
Definition orbitReady (s : ParticleSystem) : Prop :=
  isOrbiting s = true -> orbitBounds s <> None.

Definition insideIdleRadius (p : Particle) : Prop :=
  length (current p) <= PARTICLE_IDLE_RADIUS.

Definition zeroVector : Vector3 := mkVector3 0 0 0.





Definition unitBox : Box3 := mkBox3 (mkVector3 0 0 0) (mkVector3 1 1 1).

Definition half : nat -> R := fun _ => 0.5.

Definition vectorOf (pt : TextPoint) : Vector3 :=
  mkVector3 (px pt) (py pt) (pz pt).

(** What iteration [j] of the assignment loop of [setTarget] writes, when
    the first random draw of that iteration is the [k]-th. *)
Definition targetAt (random : nat -> R) (points : list TextPoint) (k j : nat)
  : Vector3 :=
  let targetCount := List.length points in
  let point := nth (j mod targetCount) points (mkTextPoint 0 0 0) in
  let layer := (j / targetCount)%nat in
  let jitter := INR layer * 0.05 in
  mkVector3 (px point + (random k - 0.5) * jitter)
            (py point + (random (k + 1)%nat - 0.5) * jitter)
            (pz point + (random (k + 2)%nat - 0.5) * jitter).


(** Every index below [n] occurs in a list of length [n]. *)
Definition coversIndices (n : nat) (l : list nat) : Prop :=
  List.length l = n /\ forall q, (q < n)%nat -> In q l.

End EngineReading.

(* ================================================================== *)
(** ** utils/performanceMonitor.ts *)

Module PerformanceMonitor.
Local Open Scope Q_scope.

Definition FPS_SAMPLE_SIZE : Z := 60.

Record Monitor : Type := mkMonitor {
  frameTimes : list Q;
  sampleSize : Z;
  lastFrameTime : Q
}.

(** [new PerformanceMonitor(sampleSize)]; [now] is [performance.now()]. *)
Definition create (sampleSize : Z) (now : Q) : Monitor :=
  mkMonitor [] sampleSize now.

Definition recordFrame (currentTime : Q) (m : Monitor) : Monitor :=
  let deltaTime := currentTime - lastFrameTime m in
  let pushed := frameTimes m ++ [deltaTime] in
  mkMonitor (if (sampleSize m <? Z.of_nat (List.length pushed))%Z
             then tl pushed else pushed)
            (sampleSize m) currentTime.

Definition reset (now : Q) (m : Monitor) : Monitor :=
  mkMonitor [] (sampleSize m) now.

(** One [recordFrame] per clock reading. *)
Definition recordAll (clock : list Q) (m : Monitor) : Monitor :=
  fold_left (fun acc t => recordFrame t acc) clock m.

(** The time between successive clock readings, starting after [last]. *)
Fixpoint deltas (last : Q) (clock : list Q) : list Q :=
  match clock with
  | [] => []
  | t :: rest => (t - last) :: deltas t rest
  end.

End PerformanceMonitor.

(* ================================================================== *)
(** * Properties of the rapid-pulse detector *)

Module RapidPulseFacts.
Import Gestures RapidPulse.
Local Open Scope Z_scope.

Lemma GestureType_eqb_spec (a b : GestureType) :
  reflect (a = b) (GestureType_eqb a b).
Proof. destruct a, b; constructor; congruence. Qed.

Lemma feed_app (l1 l2 : list GestureState) (s : RapidPulseBuffer) :
  feed (l1 ++ l2) s = feed l2 (feed l1 s).
Proof. unfold feed. apply fold_left_app. Qed.

Lemma addGesture_config (g : GestureState) (s : RapidPulseBuffer) :
  windowMs (addGesture g s) = windowMs s /\
  minChanges (addGesture g s) = minChanges s /\
  lastGesture (addGesture g s) = Some (type g).
Proof.
  unfold addGesture.
  destruct (lastGesture s) as [l|]; [|now simpl].
  destruct (negb (GestureType_eqb l (type g))); now simpl.
Qed.

(** What [addGesture] does to the buffer: nothing, or push then prune. *)
Lemma addGesture_buffer (g : GestureState) (s : RapidPulseBuffer) :
  match lastGesture s with
  | Some l =>
    if GestureType_eqb l (type g) then buffer (addGesture g s) = buffer s
    else buffer (addGesture g s) =
         filter (fun e => timestamp g - windowMs s <=? ev_timestamp e)
                (buffer s ++ [mkEvent l (type g) (timestamp g)])
  | None => buffer (addGesture g s) = buffer s
  end.
Proof.
  unfold addGesture.
  destruct (lastGesture s) as [l|]; [|reflexivity].
  destruct (GestureType_eqb l (type g)); reflexivity.
Qed.

Lemma addGesture_notAfter (g : GestureState) (s : RapidPulseBuffer) (t : Z) :
  notAfter t s -> t <= timestamp g -> notAfter (timestamp g) (addGesture g s).
Proof.
  unfold notAfter. intros Hs Ht.
  assert (Hold : Forall (fun e => ev_timestamp e <= timestamp g) (buffer s)).
  { eapply Forall_impl; [|exact Hs]. simpl. intros e He. lia. }
  pose proof (addGesture_buffer g s) as Hb.
  destruct (lastGesture s) as [l|]; [|now rewrite Hb].
  destruct (GestureType_eqb l (type g)); [now rewrite Hb|].
  rewrite Hb. apply Forall_forall. intros e He.
  apply filter_In in He. destruct He as [He _].
  apply in_app_or in He. destruct He as [He|[<-|[]]].
  - rewrite Forall_forall in Hold. now apply Hold.
  - simpl. lia.
Qed.

Lemma filter_nothing {A : Type} (f : A -> bool) (l : list A) :
  Forall (fun a => f a = false) l -> filter f l = [].
Proof.
  induction 1 as [|a l Ha _ IH]; simpl; [reflexivity|].
  now rewrite Ha.
Qed.

Lemma filter_length_le {A : Type} (f : A -> bool) (l : list A) :
  (List.length (filter f l) <= List.length l)%nat.
Proof.
  induction l as [|a l IH]; simpl; [lia|].
  destruct (f a); simpl; lia.
Qed.

Lemma alternating_tail (g : GestureState) (rest : list GestureState) :
  alternating (g :: rest) = true -> alternating rest = true.
Proof.
  simpl. destruct rest as [|g' rest']; [reflexivity|].
  intro H. apply andb_prop in H. destruct H as [_ H].
  apply andb_prop in H. tauto.
Qed.

(** The last two gestures of an alternating sequence differ. *)
Lemma alternating_last_two (pre : list GestureState) (b c : GestureState) :
  alternating (pre ++ [b; c]) = true -> GestureType_eqb (type b) (type c) = false.
Proof.
  induction pre as [|g pre IH]; intro H.
  - simpl in H. apply andb_prop in H. destruct H as [_ H].
    apply andb_prop in H. destruct H as [H _].
    now apply negb_true_iff.
  - apply IH. exact (alternating_tail _ _ H).
Qed.

(** Feeding the last three gestures of a chronological sequence in which
    the third from last is older than the window and the last one is a
    change: at most two events survive. *)
Lemma last_three_prune (a b c : GestureState) (s : RapidPulseBuffer) (t : Z) :
  notAfter t s ->
  t <= timestamp a -> timestamp a <= timestamp b -> timestamp b <= timestamp c ->
  timestamp c - timestamp a > windowMs s ->
  GestureType_eqb (type b) (type c) = false ->
  (List.length (buffer (feed [a; b; c] s)) <= 2)%nat.
Proof.
  intros Hs Hta Hab Hbc Hspan Hbc_ne.
  change (feed [a; b; c] s) with (addGesture c (addGesture b (addGesture a s))).
  pose proof (addGesture_notAfter a s t Hs Hta) as Ha.
  set (sa := addGesture a s) in *.
  destruct (addGesture_config a s) as (Hwa & _ & _). fold sa in Hwa.
  set (sb := addGesture b sa) in *.
  destruct (addGesture_config b sa) as (Hwb & _ & Hlb). fold sb in Hwb, Hlb.
  pose proof (addGesture_buffer c sb) as Hc.
  rewrite Hlb, Hbc_ne in Hc. rewrite Hc, filter_app.
  rewrite length_app.
  set (f := fun e => timestamp c - windowMs sb <=? ev_timestamp e).
  assert (Hstale : filter f (buffer sa) = []).
  { apply filter_nothing. unfold notAfter in Ha.
    eapply Forall_impl; [|exact Ha]. intros e He. cbv beta in He. unfold f.
    apply Z.leb_gt. rewrite Hwb, Hwa. lia. }
  assert (Hone : (List.length (filter f (buffer sb)) <= 1)%nat).
  { pose proof (addGesture_buffer b sa) as Hb. fold sb in Hb.
    destruct (lastGesture sa) as [l|].
    - destruct (GestureType_eqb l (type b)).
      + rewrite Hb, Hstale. simpl. lia.
      + rewrite Hb, filter_app.
        set (h := fun e => timestamp b - windowMs sa <=? ev_timestamp e).
        assert (Hff : filter f (filter h (buffer sa)) = []).
        { apply filter_nothing. apply Forall_forall. intros e He.
          apply filter_In in He. destruct He as [He _].
          unfold notAfter in Ha. rewrite Forall_forall in Ha.
          specialize (Ha e He). cbv beta in Ha. unfold f. apply Z.leb_gt.
          rewrite Hwb, Hwa. lia. }
        rewrite filter_app, Hff, app_nil_l.
        pose proof (filter_length_le f
          (filter h [mkEvent l (type b) (timestamp b)])) as H1.
        pose proof (filter_length_le h [mkEvent l (type b) (timestamp b)]) as H2.
        simpl List.length in H2 at 2. lia.
    - rewrite Hb, Hstale. simpl. lia. }
  pose proof (filter_length_le f [mkEvent (type b) (type c) (timestamp c)]) as H1.
  simpl List.length in H1 at 2. lia.
Qed.

Lemma feed_config (gs : list GestureState) (s : RapidPulseBuffer) :
  windowMs (feed gs s) = windowMs s /\ minChanges (feed gs s) = minChanges s.
Proof.
  revert s. induction gs as [|g gs IH]; intro s; [now simpl|].
  change (feed (g :: gs) s) with (feed gs (addGesture g s)).
  destruct (IH (addGesture g s)) as [-> ->].
  destruct (addGesture_config g s) as (-> & -> & _). split; reflexivity.
Qed.

Lemma prune_before_last_three (pre : list GestureState) (a b c : GestureState) :
  forall (s : RapidPulseBuffer) (t : Z),
    notAfter t s ->
    chronologicalFrom t (pre ++ [a; b; c]) ->
    alternating (pre ++ [a; b; c]) = true ->
    timestamp c - timestamp a > windowMs s ->
    (List.length (buffer (feed (pre ++ [a; b; c]) s)) <= 2)%nat.
Proof.
  induction pre as [|g pre IH]; intros s t Hs Hch Halt Hspan.
  - simpl app in *. destruct Hch as (Hta & Hab & Hbc & _).
    apply (last_three_prune a b c s t); try assumption.
    exact (alternating_last_two [a] b c Halt).
  - change ((g :: pre) ++ [a; b; c]) with (g :: (pre ++ [a; b; c])) in *.
    change (feed (g :: pre ++ [a; b; c]) s)
      with (feed (pre ++ [a; b; c]) (addGesture g s)).
    destruct Hch as [Htg Hch].
    apply (IH (addGesture g s) (timestamp g)).
    + now apply (addGesture_notAfter g s t).
    + exact Hch.
    + exact (alternating_tail _ _ Halt).
    + destruct (addGesture_config g s) as (-> & _). exact Hspan.
Qed.

(** C2 (pattern one-shot law).  Five gestures OPEN_PALM, FIST, OPEN_PALM,
    FIST, OPEN_PALM whose timestamps all lie in one window of
    [RAPID_PULSE_WINDOW_MS], fed to a new detector: [detectRapidPulse]
    returns true and leaves an empty buffer and no last gesture; called
    again at once, it returns false. *)
Theorem pulse_fires_exactly_once (lo t1 t2 t3 t4 t5 : Z) :
  (forall t, In t [t1; t2; t3; t4; t5] ->
             lo <= t <= lo + RAPID_PULSE_WINDOW_MS) ->
  let s := feed (pulseBurst t1 t2 t3 t4 t5) createDefault in
  let s' := snd (detectRapidPulse s) in
  fst (detectRapidPulse s) = true /\
  buffer s' = [] /\ lastGesture s' = None /\
  fst (detectRapidPulse s') = false /\
  snd (detectRapidPulse s') = s'.
Proof.
  intros Hwin.
  assert (H1 := Hwin t1 ltac:(simpl; tauto)).
  assert (H2 := Hwin t2 ltac:(simpl; tauto)).
  assert (H3 := Hwin t3 ltac:(simpl; tauto)).
  assert (H4 := Hwin t4 ltac:(simpl; tauto)).
  assert (H5 := Hwin t5 ltac:(simpl; tauto)).
  unfold RAPID_PULSE_WINDOW_MS in *.
  assert (K : forall a b, lo <= a <= lo + 1500 -> lo <= b <= lo + 1500 ->
                          (a - 1500 <=? b) = true).
  { intros a b Ha Hb. apply Z.leb_le. lia. }
  cbv [pulseBurst feed fold_left createDefault create addGesture gesture
       lastGesture type timestamp buffer windowMs minChanges
       GestureType_eqb negb cleanOldEvents app
       RAPID_PULSE_WINDOW_MS RAPID_PULSE_MIN_CHANGES].
  repeat first [ rewrite K by assumption
               | progress cbn [filter ev_timestamp app] ].
  cbn. repeat split; reflexivity.
Qed.

Lemma pulse_fires_exactly_once_witness :
  let s := feed (pulseBurst 0 100 200 300 400) createDefault in
  let s' := snd (detectRapidPulse s) in
  fst (detectRapidPulse s) = true /\
  buffer s' = [] /\ lastGesture s' = None /\
  fst (detectRapidPulse s') = false /\
  snd (detectRapidPulse s') = s'.
Proof.
  apply (pulse_fires_exactly_once 0 0 100 200 300 400).
  unfold RAPID_PULSE_WINDOW_MS. simpl. intros t Ht.
  repeat (destruct Ht as [<-|Ht]; [lia|]). destruct Ht.
Defined.

(** C10 (polling is harmless).  A call of [detectRapidPulse] that returns
    false leaves the detector exactly as it was. *)
Theorem detect_false_keeps_state (s : RapidPulseBuffer) :
  fst (detectRapidPulse s) = false -> snd (detectRapidPulse s) = s.
Proof.
  unfold detectRapidPulse.
  destruct (Z.of_nat (List.length (buffer s)) <? minChanges s); [reflexivity|].
  destruct (minChanges s <=? countAlternations (buffer s)); simpl;
    [discriminate|reflexivity].
Qed.

(** C3, as stated, fails: an alternating burst whose four transitions
    span 1600 ms, more than the window, still fires, because the last
    three of them lie 700 ms apart. *)
Lemma stretched_burst_still_fires :
  let gs := pulseBurst 0 100 1000 1100 1700 in
  alternating gs = true /\ chronological gs /\
  transitionSpan gs > RAPID_PULSE_WINDOW_MS /\
  fst (detectRapidPulse (feed gs createDefault)) = true.
Proof.
  cbv zeta. repeat split; try reflexivity; simpl; lia.
Qed.

(** C3, amended (window expiry).  For an alternating, chronological
    gesture sequence fed to a new detector of window [w] and the default
    minimum of three changes: when the third gesture from the end is more
    than [w] older than the last one, that is when the last three
    transitions do not fit in the window, [detectRapidPulse] returns
    false. *)
Theorem expired_window_does_not_fire
        (w : Z) (pre : list GestureState) (a b c : GestureState) :
  alternating (pre ++ [a; b; c]) = true ->
  chronological (pre ++ [a; b; c]) ->
  timestamp c - timestamp a > w ->
  fst (detectRapidPulse
         (feed (pre ++ [a; b; c]) (create w RAPID_PULSE_MIN_CHANGES))) = false.
Proof.
  intros Halt Hch Hspan.
  set (s0 := create w RAPID_PULSE_MIN_CHANGES).
  assert (Hlen : (List.length (buffer (feed (pre ++ [a; b; c]) s0)) <= 2)%nat).
  { assert (Hfrom : exists t, chronologicalFrom t (pre ++ [a; b; c])).
    { destruct pre as [|g pre].
      - exists (timestamp a). simpl in *. intuition lia.
      - exists (timestamp g). simpl in *. intuition lia. }
    destruct Hfrom as [t Hfrom].
    apply (prune_before_last_three pre a b c s0 t); try assumption.
    constructor. }
  unfold detectRapidPulse.
  destruct (feed_config (pre ++ [a; b; c]) s0) as [_ ->].
  replace (minChanges s0) with 3 by reflexivity.
  destruct (Z.of_nat _ <? 3) eqn:E; [reflexivity|].
  apply Z.ltb_ge in E. lia.
Qed.

Lemma expired_window_does_not_fire_witness :
  fst (detectRapidPulse
         (feed ([gesture OPEN_PALM 0; gesture FIST 100] ++
                [gesture OPEN_PALM 200; gesture FIST 1000; gesture OPEN_PALM 1800])
               (create 1500 RAPID_PULSE_MIN_CHANGES))) = false.
Proof.
  apply (expired_window_does_not_fire 1500
           [gesture OPEN_PALM 0; gesture FIST 100]
           (gesture OPEN_PALM 200) (gesture FIST 1000) (gesture OPEN_PALM 1800)).
  - reflexivity.
  - simpl. lia.
  - simpl. lia.
Defined.

Lemma detect_false_keeps_state_witness :
  let s := feed [gesture OPEN_PALM 0; gesture FIST 100; gesture OPEN_PALM 200]
                createDefault in
  snd (detectRapidPulse s) = s.
Proof.
  apply detect_false_keeps_state. reflexivity.
Defined.

End RapidPulseFacts.

(* ================================================================== *)
(** * Properties of the gesture classifier *)

Module DoubleFacts.
Import PrimFloat.
Local Set Warnings "-inexact-float".

(** The decimal constants are the doubles that the literals of the source
    denote: they agree with the machine's own reading of the literals. *)
Lemma decimal_literals :
  Double.decimal 13 10 = FloatOps.Prim2SF 1.3%float /\
  Double.decimal 65 100 = FloatOps.Prim2SF 0.65%float /\
  Double.decimal 1 2 = FloatOps.Prim2SF 0.5%float /\
  Double.decimal 2 10 = FloatOps.Prim2SF 0.2%float /\
  Double.decimal 6 10 = FloatOps.Prim2SF 0.6%float /\
  Double.decimal 8 10 = FloatOps.Prim2SF 0.8%float /\
  Double.decimal 9 10 = FloatOps.Prim2SF 0.9%float /\
  Double.decimal 3 10 = FloatOps.Prim2SF 0.3%float /\
  Double.ofZ 60 = FloatOps.Prim2SF 60%float /\
  Double.one = FloatOps.Prim2SF 1%float.
Proof. vm_compute. repeat split. Qed.

End DoubleFacts.

Module ClassifierFacts.
Import Gestures Gestures.FingerLandmark GestureClassifier.

(** Rounding decides at the boundary: with the wrist at 0, the mcp joint
    at 0.5 and the tip at 0.65, the product [0.5 * 1.3] is the double
    0.65, the comparison is not strict and the thumb is not extended,
    although the decimal 0.65 is above 1.3 times 0.5 as an exact number. *)
Lemma thumb_at_the_rounded_boundary :
  Double.mul (Double.decimal 1 2) (Double.decimal 13 10) = Double.decimal 65 100 /\
  isThumbExtended boundaryThumb = false /\
  classify (Some boundaryThumb) 0 = mkGestureState UNKNOWN (5 # 10) 0.
Proof. vm_compute. repeat split. Qed.

(** C8, as stated, fails: in [raisedTips] every tip, the thumb's too, is
    strictly above the joints of its finger, yet the thumb does not count
    as extended (its test is horizontal), four fingers are counted and the
    gesture is UNKNOWN. *)
Lemma raised_tips_are_not_open_palm :
  List.length raisedTips = 21%nat /\
  Forall (fun tp => Double.ltb (y (at_ raisedTips (fst tp)))
                               (y (at_ raisedTips (snd tp))) = true)
         [(THUMB_TIP, THUMB_IP); (INDEX_TIP, INDEX_PIP);
          (MIDDLE_TIP, MIDDLE_PIP); (RING_TIP, RING_PIP);
          (PINKY_TIP, PINKY_PIP)] /\
  countExtendedFingers raisedTips = 4%nat /\
  classify (Some raisedTips) 0 = mkGestureState UNKNOWN (5 # 10) 0.
Proof.
  split; [reflexivity|]. split; [|split; reflexivity].
  repeat constructor.
Qed.

(** C8, amended (finger-extension symmetry).  For 21 landmarks in which
    the tips of the index, middle, ring and pinky fingers are strictly
    above their pip joints and the thumb tip's horizontal distance from
    the wrist exceeds the thumb mcp joint's distance times 1.3, the two
    distances and the product being the doubles the code computes
    ([Math.abs] of the rounded difference, rounded product), [classify]
    counts five extended fingers and returns OPEN_PALM with confidence 1. *)
Theorem all_extended_is_open_palm (lm : list NormalizedLandmark) (now : Z) :
  List.length lm = 21%nat ->
  Double.ltb (y (at_ lm INDEX_TIP)) (y (at_ lm INDEX_PIP)) = true ->
  Double.ltb (y (at_ lm MIDDLE_TIP)) (y (at_ lm MIDDLE_PIP)) = true ->
  Double.ltb (y (at_ lm RING_TIP)) (y (at_ lm RING_PIP)) = true ->
  Double.ltb (y (at_ lm PINKY_TIP)) (y (at_ lm PINKY_PIP)) = true ->
  Double.gtb (Double.abs (Double.sub (x (at_ lm THUMB_TIP)) (x (at_ lm WRIST))))
             (Double.mul
                (Double.abs (Double.sub (x (at_ lm THUMB_MCP)) (x (at_ lm WRIST))))
                (Double.decimal 13 10)) = true ->
  countExtendedFingers lm = 5%nat /\
  classify (Some lm) now = mkGestureState OPEN_PALM 1 now.
Proof.
  intros Hlen Hi Hm Hr Hp Ht.
  assert (Hcount : countExtendedFingers lm = 5%nat).
  { unfold countExtendedFingers, isFingerExtended, isThumbExtended. cbv zeta.
    now rewrite Hi, Hm, Hr, Hp, Ht. }
  split; [exact Hcount|].
  unfold classify. rewrite Hlen, Hcount. reflexivity.
Qed.

Lemma all_extended_is_open_palm_witness :
  countExtendedFingers spreadHand = 5%nat /\
  classify (Some spreadHand) 7 = mkGestureState OPEN_PALM 1 7.
Proof.
  apply (all_extended_is_open_palm spreadHand 7); reflexivity.
Defined.

End ClassifierFacts.

(* ================================================================== *)
(** * Properties of the particle engine: modes and flags *)

Module EngineModes.
Import Engine.
Local Open Scope R_scope.

Lemma bind_unfold {A B : Type} (m : Rand A) (f : A -> Rand B) (k : nat) :
  bind m f k = f (fst (m k)) (snd (m k)).
Proof. unfold bind. destruct (m k); reflexivity. Qed.

Lemma Rle_b_true (a b : R) : a <= b -> Rle_b a b = true.
Proof. intro H. unfold Rle_b. destruct (Rle_dec a b); [reflexivity|contradiction]. Qed.

Lemma Rle_b_false (a b : R) : b < a -> Rle_b a b = false.
Proof. intro H. unfold Rle_b. destruct (Rle_dec a b); [lra|reflexivity]. Qed.

Lemma Rlt_b_true (a b : R) : a < b -> Rlt_b a b = true.
Proof. intro H. unfold Rlt_b. destruct (Rlt_dec a b); [reflexivity|contradiction]. Qed.

Lemma Rlt_b_false (a b : R) : b <= a -> Rlt_b a b = false.
Proof. intro H. unfold Rlt_b. destruct (Rlt_dec a b); [lra|reflexivity]. Qed.

Lemma explode_flags (s : ParticleSystem) :
  flagsOf (explode s) = mkFlags false true (isDispersing s) (isOrbiting s) /\
  explosionTime (explode s) = 0.
Proof. split; reflexivity. Qed.

Lemma disperse_flags (random : nat -> R) (s : ParticleSystem) :
  flagsOf (disperse random s) = mkFlags false false true (isOrbiting s) /\
  dispersionTime (disperse random s) = 0 /\
  orbitBounds (disperse random s) = orbitBounds s.
Proof.
  unfold disperse. destruct (mapM _ _ _). repeat split.
Qed.

Lemma orbitAroundBounds_flags (random : nat -> R) (b : Box3) (s : ParticleSystem) :
  flagsOf (orbitAroundBounds random b s) = mkFlags false false false true /\
  orbitTime (orbitAroundBounds random b s) = 0 /\
  orbitBounds (orbitAroundBounds random b s) = Some (expandByScalar b 15).
Proof.
  unfold orbitAroundBounds. cbv zeta. destruct (mapMi _ _ _ _). repeat split.
Qed.

Lemma setIdleState_flags (s : ParticleSystem) :
  flagsOf (setIdleState s) = mkFlags true false false false.
Proof. reflexivity. Qed.

Lemma setTarget_flags (random : nat -> R) (points : list TextPoint)
      (s : ParticleSystem) :
  let s' := stateOf (setTarget random points s) in
  flagsOf s' = mkFlags false (isExploding s) (isDispersing s) (isOrbiting s) /\
  explosionTime s' = explosionTime s /\
  dispersionTime s' = dispersionTime s /\
  orbitTime s' = orbitTime s /\
  orbitBounds s' = orbitBounds s.
Proof.
  unfold setTarget. cbv zeta.
  destruct (shuffle _ _ _ _) as [sh k].
  destruct (assignTargets _ _ _ _ _ _ _) as [[exn ps] k'].
  destruct exn; repeat split.
Qed.

Lemma activeMode_flags (s : ParticleSystem) (f : Flags) :
  flagsOf s = f ->
  activeMode s =
  if fExploding f then EXPLODING
  else if fDispersing f then DISPERSING
  else if fOrbiting f then ORBITING
  else if fIdle f then IDLE else MORPHING.
Proof. intros <-. reflexivity. Qed.

Lemma update_exploding (random : nat -> R) (now dt : R) (s : ParticleSystem) :
  isExploding s = true -> update random now dt s = updateExplosion dt s.
Proof. intro H. unfold update. now rewrite H. Qed.

Lemma update_dispersing (random : nat -> R) (now dt : R) (s : ParticleSystem) :
  isExploding s = false -> isDispersing s = true ->
  update random now dt s = updateDispersion dt s.
Proof. intros H1 H2. unfold update. now rewrite H1, H2. Qed.

Lemma update_orbiting (random : nat -> R) (now dt : R) (s : ParticleSystem) :
  isExploding s = false -> isDispersing s = false -> isOrbiting s = true ->
  update random now dt s = updateOrbiting random dt s.
Proof. intros H1 H2 H3. unfold update. now rewrite H1, H2, H3. Qed.

Lemma update_morphing (random : nat -> R) (now dt : R) (s : ParticleSystem) :
  activeMode s = MORPHING ->
  update random now dt s = interpolateToTarget random dt s.
Proof.
  unfold activeMode, update.
  destruct (isExploding s), (isDispersing s), (isOrbiting s), (isIdle s);
    intro H; try discriminate H; reflexivity.
Qed.

Lemma updateDispersion_done (dt : R) (s : ParticleSystem) :
  DISPERSION_DURATION <= dispersionTime s + dt ->
  flagsOf (updateDispersion dt s) =
  mkFlags true (isExploding s) false (isOrbiting s).
Proof.
  intro H. unfold updateDispersion. cbv zeta.
  rewrite (Rle_b_true _ _ H). reflexivity.
Qed.

Lemma updateExplosion_done (dt : R) (s : ParticleSystem) :
  EXPLOSION_DURATION <= explosionTime s + dt ->
  flagsOf (updateExplosion dt s) =
  mkFlags (isIdle s) false (isDispersing s) (isOrbiting s).
Proof.
  intro H. unfold updateExplosion. cbv zeta.
  rewrite (Rle_b_true _ _ H). reflexivity.
Qed.

Lemma updateExplosion_time (dt : R) (s : ParticleSystem) :
  explosionTime (updateExplosion dt s) = explosionTime s + dt.
Proof.
  unfold updateExplosion. cbv zeta.
  destruct (Rle_b _ _); reflexivity.
Qed.

Lemma flagsOf_inv (s : ParticleSystem) (a b c d : bool) :
  flagsOf s = mkFlags a b c d ->
  isIdle s = a /\ isExploding s = b /\ isDispersing s = c /\ isOrbiting s = d.
Proof. unfold flagsOf. intro H. injection H. auto. Qed.

Lemma activeFlagCount_flags (s : ParticleSystem) (a b c d : bool) :
  flagsOf s = mkFlags a b c d ->
  activeFlagCount s =
  List.length (filter (fun x => x) [a; negb b && negb c && negb d && negb a; b; c; d]).
Proof.
  intro H. apply flagsOf_inv in H. destruct H as (Ha & Hb & Hc & Hd).
  unfold activeFlagCount, modeFlags, isMorphing.
  now rewrite Ha, Hb, Hc, Hd.
Qed.

(** C1 (mode exclusivity) fails on the code.  On a new engine of any
    size, [orbitAroundBounds] followed by [disperse] leaves the orbiting
    and the dispersing flag both set; when the dispersion has run its
    0.3 s the idle and the orbiting flag are both set, and the next
    [update] orbits again instead of idling. *)
Theorem disperse_leaves_orbiting_set
        (random : nat -> R) (n : nat) (bounds : Box3) (now : R) :
  let s := run random [CallOrbitAroundBounds bounds; CallDisperse]
               (create random n) in
  let s' := update random now DISPERSION_DURATION s in
  flagsOf s = mkFlags false false true true /\
  activeFlagCount s = 2%nat /\
  flagsOf s' = mkFlags true false false true /\
  activeFlagCount s' = 2%nat /\
  activeMode s' = ORBITING.
Proof.
  cbv zeta. simpl run.
  set (s0 := create random n).
  destruct (orbitAroundBounds_flags random bounds s0) as (Ho & _ & _).
  set (s1 := orbitAroundBounds random bounds s0) in *.
  destruct (disperse_flags random s1) as (Hd & Ht & _).
  apply flagsOf_inv in Ho. destruct Ho as (_ & _ & _ & Ho).
  rewrite Ho in Hd.
  set (s2 := disperse random s1) in *.
  assert (Hu : flagsOf (update random now DISPERSION_DURATION s2)
               = mkFlags true false false true).
  { pose proof (flagsOf_inv _ _ _ _ _ Hd) as (_ & He & Hdi & Hor).
    rewrite (update_dispersing random now _ s2 He Hdi).
    rewrite updateDispersion_done by (rewrite Ht; lra).
    now rewrite He, Hor. }
  split; [|split; [|split; [|split]]].
  - exact Hd.
  - now rewrite (activeFlagCount_flags _ _ _ _ _ Hd).
  - exact Hu.
  - now rewrite (activeFlagCount_flags _ _ _ _ _ Hu).
  - now rewrite (activeMode_flags _ _ Hu).
Qed.

(** C4, as stated, fails: on a new engine of one particle, [explode]
    followed by [setTarget] leaves the exploding flag set, and the next
    [update] advances the explosion (its timer goes from 0 to 0.1). *)
Lemma setTarget_does_not_cancel_explosion :
  let random := fun _ : nat => 0.5 in
  let s := stateOf (setTarget random [mkTextPoint 1 2 3]
                      (explode (create random 1))) in
  isExploding s = true /\
  activeMode s = EXPLODING /\
  update random 0 0.1 s = updateExplosion 0.1 s /\
  explosionTime (update random 0 0.1 s) = 0 + 0.1.
Proof.
  cbv zeta.
  set (random := fun _ : nat => 0.5).
  set (s1 := explode (create random 1)).
  destruct (setTarget_flags random [mkTextPoint 1 2 3] s1) as (Hf & Ht & _).
  cbv zeta in Hf, Ht.
  set (s2 := stateOf (setTarget random [mkTextPoint 1 2 3] s1)) in *.
  pose proof (flagsOf_inv _ _ _ _ _ Hf) as (_ & He & _ & _).
  change (isExploding s1) with true in He.
  split; [|split; [|split]].
  - exact He.
  - unfold activeMode. now rewrite He.
  - now apply update_exploding.
  - rewrite (update_exploding random 0 0.1 s2 He), updateExplosion_time, Ht.
    reflexivity.
Qed.

(** C4, amended (cancellation).  In any state, [explode], [disperse],
    [orbitAroundBounds] and [setIdleState] make the next [update] run the
    mode they ask for, the first three with that mode's timer back at 0.
    [setTarget] starts the morph at once when no explosion, dispersion or
    orbit is on; it does not cancel a running explosion: flag and timer
    stay, the next [update] advances the explosion, and when the explosion
    has run its 0.5 s, with no dispersion or orbit on, the engine morphs. *)
Theorem latest_call_wins_but_setTarget_waits
        (random : nat -> R) (s : ParticleSystem) (points : list TextPoint)
        (bounds : Box3) (now dt : R) :
  (activeMode (explode s) = EXPLODING /\ explosionTime (explode s) = 0) /\
  (activeMode (disperse random s) = DISPERSING /\
   dispersionTime (disperse random s) = 0) /\
  (activeMode (orbitAroundBounds random bounds s) = ORBITING /\
   orbitTime (orbitAroundBounds random bounds s) = 0 /\
   update random now dt (orbitAroundBounds random bounds s)
   = updateOrbiting random dt (orbitAroundBounds random bounds s)) /\
  activeMode (setIdleState s) = IDLE /\
  let s' := stateOf (setTarget random points s) in
  (isExploding s = false -> isDispersing s = false -> isOrbiting s = false ->
   activeMode s' = MORPHING) /\
  (isExploding s = true ->
   isExploding s' = true /\ explosionTime s' = explosionTime s /\
   activeMode s' = EXPLODING /\
   update random now dt s' = updateExplosion dt s' /\
   explosionTime (update random now dt s') = explosionTime s + dt /\
   (isDispersing s = false -> isOrbiting s = false ->
    EXPLOSION_DURATION <= explosionTime s + dt ->
    activeMode (update random now dt s') = MORPHING)).
Proof.
  split; [split; reflexivity|].
  split.
  { destruct (disperse_flags random s) as (Hf & Ht & _).
    split; [|exact Ht]. now rewrite (activeMode_flags _ _ Hf). }
  split.
  { destruct (orbitAroundBounds_flags random bounds s) as (Hf & Ht & _).
    split; [now rewrite (activeMode_flags _ _ Hf)|]. split; [exact Ht|].
    apply flagsOf_inv in Hf. destruct Hf as (_ & He & Hd & Ho).
    now apply update_orbiting. }
  split; [reflexivity|].
  cbv zeta.
  destruct (setTarget_flags random points s) as (Hf & Ht & _).
  cbv zeta in Hf, Ht.
  set (s' := stateOf (setTarget random points s)) in *.
  split.
  - intros He Hd Ho. rewrite (activeMode_flags _ _ Hf). simpl.
    now rewrite He, Hd, Ho.
  - intro He. rewrite He in Hf.
    pose proof (flagsOf_inv _ _ _ _ _ Hf) as (Hi' & He' & Hd' & Ho').
    split; [exact He'|]. split; [exact Ht|].
    split; [now rewrite (activeMode_flags _ _ Hf)|].
    rewrite (update_exploding random now dt s' He').
    split; [reflexivity|].
    split; [now rewrite updateExplosion_time, Ht|].
    intros Hd Ho Hdone.
    rewrite (activeMode_flags _ _
               (updateExplosion_done dt s' ltac:(rewrite Ht; exact Hdone))).
    simpl. now rewrite Hd', Ho', Hd, Ho, Hi'.
Qed.

Lemma latest_call_wins_but_setTarget_waits_witness :
  let random := fun _ : nat => 0.5 in
  let s := explode (mkParticleSystem
                      [loneParticle (mkVector3 1 0 0) (mkVector3 1 0 0)]
                      true false 0 false 0 false None 0 0) in
  let s' := stateOf (setTarget random [mkTextPoint 1 2 3] s) in
  activeMode s' = EXPLODING /\
  activeMode (update random 0 0.5 s') = MORPHING.
Proof.
  cbv zeta.
  pose proof (latest_call_wins_but_setTarget_waits (fun _ : nat => 0.5)
    (explode (mkParticleSystem
                [loneParticle (mkVector3 1 0 0) (mkVector3 1 0 0)]
                true false 0 false 0 false None 0 0))
    [mkTextPoint 1 2 3] (mkBox3 (mkVector3 0 0 0) (mkVector3 1 1 1)) 0 0.5)
    as (_ & _ & _ & _ & _ & H).
  destruct (H eq_refl) as (_ & _ & Hm & _ & _ & Hdone).
  split; [exact Hm|].
  apply Hdone; [reflexivity|reflexivity|].
  simpl. unfold EXPLOSION_DURATION. lra.
Defined.

End EngineModes.

(* ================================================================== *)
(** * Properties of the particle engine: an empty target set *)

Module EmptyTarget.
Import Engine Orchestration EngineModes.
Local Open Scope R_scope.

Lemma initializeParticles_length (random : nat -> R) (n : nat) :
  forall k, List.length (fst (initializeParticles random n k)) = n.
Proof.
  induction n as [|n IH]; intro k; [reflexivity|].
  simpl initializeParticles. rewrite !bind_unfold. unfold ret. simpl.
  now rewrite IH.
Qed.

Lemma create_length (random : nat -> R) (n : nat) :
  List.length (particles (create random n)) = n.
Proof.
  unfold create.
  pose proof (initializeParticles_length random n 0%nat) as H.
  destruct (initializeParticles random n 0%nat) as [ps k]. exact H.
Qed.

Lemma create_flags (random : nat -> R) (n : nat) :
  flagsOf (create random n) = mkFlags true false false false.
Proof.
  unfold create. destruct (initializeParticles random n 0%nat). reflexivity.
Qed.

Lemma assignTargets_empty (random : nat -> R) (todo i : nat) (sh : list nat)
      (ps : list Particle) (k : nat) :
  assignTargets random todo i sh [] ps k =
  (if (todo =? 0)%nat then None else Some TypeError, ps, k).
Proof. destruct todo; reflexivity. Qed.

Lemma setTarget_empty_outcome (random : nat -> R) (s : ParticleSystem) :
  let o := setTarget random [] s in
  particles (stateOf o) = particles s /\
  isIdle (stateOf o) = false /\
  hasThrown o = negb (List.length (particles s) =? 0)%nat.
Proof.
  unfold setTarget. cbv zeta.
  destruct (shuffle _ _ _ _) as [sh k].
  rewrite assignTargets_empty.
  destruct (List.length (particles s) =? 0)%nat; repeat split.
Qed.

Lemma not_generated (text : string) :
  ~ In text TEXTS_TO_GENERATE ->
  existsb (String.eqb text) TEXTS_TO_GENERATE = false.
Proof.
  intro H. destruct (existsb _ _) eqn:E; [|reflexivity].
  apply existsb_exists in E. destruct E as (t & Hin & Heq).
  apply String.eqb_eq in Heq. subst t. contradiction.
Qed.

(** C7, as stated, fails: on a new engine of one particle, [setTarget]
    with no anchor point throws, and it has switched the idle flag off
    before. *)
Lemma setTarget_empty_throws :
  let random := fun _ : nat => 0.5 in
  let s := create random 1 in
  hasThrown (setTarget random [] s) = true /\
  isIdle s = true /\
  isIdle (stateOf (setTarget random [] s)) = false.
Proof.
  cbv zeta.
  set (random := fun _ : nat => 0.5).
  destruct (setTarget_empty_outcome random (create random 1)) as (_ & Hi & Ht).
  rewrite create_length in Ht.
  pose proof (create_flags random 1) as Hf. apply flagsOf_inv in Hf.
  destruct Hf as (Hidle & _).
  split; [exact Ht|]. split; [exact Hidle|exact Hi].
Qed.

(** C7, amended (empty target set).  [setTarget] with no anchor point
    leaves every particle as it was, switches the idle flag off, and
    throws a TypeError exactly when the engine has a particle.  The
    orchestration layer asks nothing of the engine for a label that is
    not among the pre-generated texts. *)
Theorem empty_target_set_behaviour
        (random : nat -> R) (s : ParticleSystem)
        (prevTargetText : option string) (text : string) :
  ~ In text TEXTS_TO_GENERATE ->
  let o := setTarget random [] s in
  particles (stateOf o) = particles s /\
  isIdle (stateOf o) = false /\
  hasThrown o = negb (List.length (particles s) =? 0)%nat /\
  snd (onTargetText prevTargetText (Some text)) = [].
Proof.
  intros Hnot o.
  destruct (setTarget_empty_outcome random s) as (Hp & Hi & Ht).
  split; [exact Hp|]. split; [exact Hi|]. split; [exact Ht|].
  unfold onTargetText.
  destruct (sameText (Some text) prevTargetText); [reflexivity|].
  now rewrite (not_generated text Hnot).
Qed.

Lemma empty_target_set_behaviour_witness :
  let s := mkParticleSystem
             [loneParticle (mkVector3 1 0 0) (mkVector3 1 0 0)]
             true false 0 false 0 false None 0 0 in
  let o := setTarget (fun _ : nat => 0.5) [] s in
  particles (stateOf o) = particles s /\
  isIdle (stateOf o) = false /\
  hasThrown o = true /\
  snd (onTargetText (Some "SoC"%string) (Some "Hello"%string)) = [].
Proof.
  apply (empty_target_set_behaviour (fun _ : nat => 0.5)
           (mkParticleSystem
              [loneParticle (mkVector3 1 0 0) (mkVector3 1 0 0)]
              true false 0 false 0 false None 0 0)
           (Some "SoC"%string) "Hello"%string).
  simpl. intros H.
  repeat (destruct H as [H|H]; [discriminate H|]). exact H.
Defined.

End EmptyTarget.

(* ================================================================== *)
(** * Properties of the particle engine: motion *)

Module EngineMotion.
Import Engine EngineModes.
Local Open Scope R_scope.

(** *** Vectors *)

Lemma lengthSq_nonneg (v : Vector3) : 0 <= lengthSq v.
Proof. unfold lengthSq. nra. Qed.

Lemma length_nonneg (v : Vector3) : 0 <= length v.
Proof. apply sqrt_pos. Qed.

Lemma length_sq (v : Vector3) : length v * length v = lengthSq v.
Proof. unfold length. apply sqrt_sqrt. apply lengthSq_nonneg. Qed.

Lemma length_multiplyScalar (v : Vector3) (k : R) :
  length (multiplyScalar v k) = Rabs k * length v.
Proof.
  unfold length.
  replace (lengthSq (multiplyScalar v k)) with (k * k * lengthSq v)
    by (unfold lengthSq, multiplyScalar; simpl; ring).
  rewrite sqrt_mult; [|nra|apply lengthSq_nonneg].
  f_equal. fold (Rsqr k). apply sqrt_Rsqr_abs.
Qed.

Lemma cauchy_schwarz (a b : Vector3) :
  dot a b * dot a b <= lengthSq a * lengthSq b.
Proof.
  unfold dot, lengthSq.
  assert (H : (vx a * vx a + vy a * vy a + vz a * vz a)
              * (vx b * vx b + vy b * vy b + vz b * vz b)
              - (vx a * vx b + vy a * vy b + vz a * vz b)
                * (vx a * vx b + vy a * vy b + vz a * vz b)
              = (vy a * vz b - vz a * vy b) * (vy a * vz b - vz a * vy b)
                + (vz a * vx b - vx a * vz b) * (vz a * vx b - vx a * vz b)
                + (vx a * vy b - vy a * vx b) * (vx a * vy b - vy a * vx b))
    by ring.
  pose proof (Rle_0_sqr (vy a * vz b - vz a * vy b)) as H1.
  pose proof (Rle_0_sqr (vz a * vx b - vx a * vz b)) as H2.
  pose proof (Rle_0_sqr (vx a * vy b - vy a * vx b)) as H3.
  unfold Rsqr in H1, H2, H3. lra.
Qed.

Lemma dot_le_lengths (a b : Vector3) : Rabs (dot a b) <= length a * length b.
Proof.
  pose proof (cauchy_schwarz a b) as H.
  rewrite <- (length_sq a), <- (length_sq b) in H.
  pose proof (length_nonneg a) as Ha. pose proof (length_nonneg b) as Hb.
  assert (Hp : 0 <= length a * length b) by nra.
  apply Rnot_lt_le. intro Hlt.
  assert (Hq : length a * length b * (length a * length b)
               < Rabs (dot a b) * Rabs (dot a b)) by nra.
  assert (Hr : Rabs (dot a b) * Rabs (dot a b) = dot a b * dot a b).
  { unfold Rabs. destruct (Rcase_abs (dot a b)); ring. }
  nra.
Qed.

(** The triangle inequality, in the form the jitter step needs. *)
Lemma length_add_le (a b : Vector3) : length (add a b) <= length a + length b.
Proof.
  pose proof (length_nonneg a) as Ha. pose proof (length_nonneg b) as Hb.
  pose proof (length_nonneg (add a b)) as Hab.
  pose proof (dot_le_lengths a b) as Hd.
  assert (Hsq : length (add a b) * length (add a b)
                <= (length a + length b) * (length a + length b)).
  { rewrite length_sq.
    replace (lengthSq (add a b)) with (lengthSq a + lengthSq b + 2 * dot a b)
      by (unfold lengthSq, add, dot; simpl; ring).
    rewrite <- (length_sq a), <- (length_sq b).
    assert (dot a b <= Rabs (dot a b)) by apply Rle_abs. nra. }
  apply Rnot_lt_le. intro Hlt. nra.
Qed.

(** A vector whose coordinates are at most [c] long is at most
    [c * sqrt 3] long. *)
Lemma length_box (v : Vector3) (c : R) :
  0 <= c -> Rabs (vx v) <= c -> Rabs (vy v) <= c -> Rabs (vz v) <= c ->
  length v <= c * sqrt 3.
Proof.
  intros Hc Hx Hy Hz.
  assert (Hsq : forall t, Rabs t <= c -> t * t <= c * c).
  { intros t Ht. unfold Rabs in Ht. destruct (Rcase_abs t); nra. }
  assert (Hle : lengthSq v <= c * c * 3).
  { unfold lengthSq. pose proof (Hsq _ Hx). pose proof (Hsq _ Hy).
    pose proof (Hsq _ Hz). lra. }
  unfold length.
  replace (c * sqrt 3) with (sqrt (c * c * 3)).
  - apply sqrt_le_1; [apply lengthSq_nonneg|nra|exact Hle].
  - rewrite sqrt_mult; [|nra|lra]. rewrite sqrt_square by exact Hc. reflexivity.
Qed.

Lemma add_zero_step (c v : Vector3) : add c (multiplyScalar v 0) = c.
Proof. destruct c. unfold add, multiplyScalar. simpl. f_equal; ring. Qed.

Lemma moveBy_zero (p : Particle) : moveBy 0 p = p.
Proof. destruct p. unfold moveBy. simpl. now rewrite add_zero_step. Qed.

Lemma map_moveBy_zero (ps : list Particle) : map (moveBy 0) ps = ps.
Proof.
  induction ps as [|p ps IH]; simpl; [reflexivity|].
  now rewrite moveBy_zero, IH.
Qed.

(** *** Decaying impulses: explosion and dispersion *)

Lemma decayFactor_range (elapsed duration : R) :
  0 < duration -> 0 <= elapsed -> 0 <= decayFactor elapsed duration <= 1.
Proof.
  intros Hd He. unfold decayFactor.
  assert (0 <= elapsed / duration).
  { unfold Rdiv. apply Rmult_le_pos; [exact He|].
    left. now apply Rinv_0_lt_compat. }
  unfold Rmax. destruct (Rle_dec 0 (1 - elapsed / duration)); lra.
Qed.

Lemma decayFactor_clamps (elapsed duration : R) :
  0 < duration -> duration <= elapsed -> decayFactor elapsed duration = 0.
Proof.
  intros Hd He. unfold decayFactor.
  assert (1 <= elapsed / duration).
  { apply (Rmult_le_reg_r duration); [exact Hd|].
    unfold Rdiv. rewrite Rmult_assoc, Rinv_l by lra. lra. }
  unfold Rmax. destruct (Rle_dec 0 (1 - elapsed / duration)); lra.
Qed.

(** However long the step, the decayed step is at most the duration. *)
Lemma decayed_step_bounded (elapsed duration dt : R) :
  0 < duration -> 0 <= elapsed -> 0 <= dt ->
  0 <= decayFactor (elapsed + dt) duration * dt <= duration.
Proof.
  intros Hd He Hdt.
  destruct (Rle_lt_dec duration (elapsed + dt)) as [Hdone|Hrun].
  - rewrite decayFactor_clamps by assumption. lra.
  - pose proof (decayFactor_range (elapsed + dt) duration Hd ltac:(lra)). nra.
Qed.

Lemma updateExplosion_particles (dt : R) (s : ParticleSystem) :
  particles (updateExplosion dt s) =
  map (moveBy (decayFactor (explosionTime s + dt) EXPLOSION_DURATION * dt))
      (particles s).
Proof. unfold updateExplosion. cbv zeta. destruct (Rle_b _ _); reflexivity. Qed.

Lemma updateDispersion_particles (dt : R) (s : ParticleSystem) :
  particles (updateDispersion dt s) =
  map (moveBy (decayFactor (dispersionTime s + dt) DISPERSION_DURATION * dt * 60))
      (particles s).
Proof. unfold updateDispersion. cbv zeta. destruct (Rle_b _ _); reflexivity. Qed.

(** Timestep robustness over the reals (what it says of NaN and of the
    infinities is in [EngineDoublesFacts]).  For every step [dt >= 0],
    with the mode's elapsed time not negative (it starts at 0 and only
    grows by such steps): in the exploding and in the dispersing mode the
    decay factor
    lies in [0,1] and is exactly 0 once the elapsed time reaches the
    mode's duration; [update] moves each particle by its velocity times a
    factor between 0 and the duration (60 times that for the dispersion),
    whatever the size of [dt]; and a step of 0, or one past the duration,
    leaves every particle where it was. *)
Theorem decaying_modes_tolerate_any_step
        (random : nat -> R) (now dt : R) (s : ParticleSystem) :
  0 <= dt -> 0 <= explosionTime s -> 0 <= dispersionTime s ->
  (isExploding s = true ->
   let k := decayFactor (explosionTime s + dt) EXPLOSION_DURATION in
   0 <= k <= 1 /\
   (EXPLOSION_DURATION <= explosionTime s + dt -> k = 0) /\
   0 <= k * dt <= EXPLOSION_DURATION /\
   particles (update random now dt s) = map (moveBy (k * dt)) (particles s) /\
   (dt = 0 \/ EXPLOSION_DURATION <= explosionTime s + dt ->
    particles (update random now dt s) = particles s)) /\
  (isExploding s = false -> isDispersing s = true ->
   let k := decayFactor (dispersionTime s + dt) DISPERSION_DURATION in
   0 <= k <= 1 /\
   (DISPERSION_DURATION <= dispersionTime s + dt -> k = 0) /\
   0 <= k * dt * 60 <= 60 * DISPERSION_DURATION /\
   particles (update random now dt s) = map (moveBy (k * dt * 60)) (particles s) /\
   (dt = 0 \/ DISPERSION_DURATION <= dispersionTime s + dt ->
    particles (update random now dt s) = particles s)).
Proof.
  intros Hdt He Hd.
  assert (HE : 0 < EXPLOSION_DURATION) by (unfold EXPLOSION_DURATION; lra).
  assert (HD : 0 < DISPERSION_DURATION) by (unfold DISPERSION_DURATION; lra).
  split.
  - intros Hx k.
    pose proof (decayFactor_range (explosionTime s + dt) _ HE ltac:(lra)) as Hr.
    pose proof (decayed_step_bounded (explosionTime s) _ dt HE He Hdt) as Hb.
    fold k in Hr, Hb.
    assert (Hp : particles (update random now dt s)
                 = map (moveBy (k * dt)) (particles s)).
    { rewrite (update_exploding random now dt s Hx).
      apply updateExplosion_particles. }
    split; [exact Hr|]. split; [intro; now apply decayFactor_clamps|].
    split; [exact Hb|]. split; [exact Hp|].
    intros [H0|Hdone]; rewrite Hp.
    + subst dt. rewrite Rmult_0_r. apply map_moveBy_zero.
    + unfold k. rewrite decayFactor_clamps by assumption.
      rewrite Rmult_0_l. apply map_moveBy_zero.
  - intros Hx Hy k.
    pose proof (decayFactor_range (dispersionTime s + dt) _ HD ltac:(lra)) as Hr.
    pose proof (decayed_step_bounded (dispersionTime s) _ dt HD Hd Hdt) as Hb.
    fold k in Hr, Hb.
    assert (Hp : particles (update random now dt s)
                 = map (moveBy (k * dt * 60)) (particles s)).
    { rewrite (update_dispersing random now dt s Hx Hy).
      apply updateDispersion_particles. }
    split; [exact Hr|]. split; [intro; now apply decayFactor_clamps|].
    split; [lra|]. split; [exact Hp|].
    intros [H0|Hdone]; rewrite Hp.
    + subst dt. rewrite Rmult_0_r, Rmult_0_l. apply map_moveBy_zero.
    + unfold k. rewrite decayFactor_clamps by assumption.
      rewrite !Rmult_0_l. apply map_moveBy_zero.
Qed.

Lemma decaying_modes_tolerate_any_step_witness :
  let s := explode (mkParticleSystem
                      [loneParticle (mkVector3 1 0 0) (mkVector3 1 0 0)]
                      true false 0 false 0 false None 0 0) in
  let k := decayFactor (explosionTime s + 1000) EXPLOSION_DURATION in
  0 <= k <= 1 /\ k = 0 /\
  particles (update (fun _ : nat => 0.5) 0 1000 s) = particles s.
Proof.
  cbv zeta.
  destruct (decaying_modes_tolerate_any_step (fun _ : nat => 0.5) 0 1000
    (explode (mkParticleSystem
                [loneParticle (mkVector3 1 0 0) (mkVector3 1 0 0)]
                true false 0 false 0 false None 0 0)))
    as [H _].
  - lra.
  - simpl. lra.
  - simpl. lra.
  - destruct (H eq_refl) as (Hr & Hz & _ & _ & Hsame).
    assert (Hdone : EXPLOSION_DURATION <= 0 + 1000)
      by (unfold EXPLOSION_DURATION; lra).
    split; [exact Hr|]. split; [exact (Hz Hdone)|].
    apply Hsame. right. exact Hdone.
Defined.

(** *** The radial term of the orbit *)

Lemma normalize_nonzero (v : Vector3) :
  length v <> 0 -> normalize v = multiplyScalar v (1 / length v).
Proof.
  intro H. unfold normalize, divideScalar.
  destruct (Req_dec_T (length v) 0); [contradiction|reflexivity].
Qed.

Lemma dot_multiplyScalar (v w : Vector3) (k : R) :
  dot (multiplyScalar v k) w = k * dot v w.
Proof. unfold dot, multiplyScalar. simpl. ring. Qed.

Lemma dot_self (v : Vector3) : dot v v = lengthSq v.
Proof. reflexivity. Qed.

(** The velocity [updateOrbiting] gives a particle is the tangential
    part, plus [radialCorrection], plus the wave along the same line. *)
Lemma orbitParticle_velocity (random : nat -> R) (center : Vector3)
      (orbitTime' dt : R) (p : Particle) (k : nat) :
  let toCenter := sub center (current p) in
  let wave := sin (orbitTime' * 2 + vx (current p) * 0.1
                   + vz (current p) * 0.1) * 0.3 in
  velocity (fst (orbitParticle random center orbitTime' dt p k)) =
  add (add (multiplyScalar (orbitTangent (sub (current p) center) (orbitAxis p))
                           (2.0 * speed p))
           (radialCorrection center p))
      (multiplyScalar (normalize toCenter) wave).
Proof.
  cbv zeta. unfold orbitParticle. rewrite !bind_unfold. unfold ret. simpl.
  unfold radialCorrection, add, multiplyScalar. simpl. f_equal; ring.
Qed.

(** Along the line to the centre, the radial term has the sign of
    [radialSpeed]. *)
Lemma radialCorrection_dot (center : Vector3) (p : Particle) :
  let toCenter := sub center (current p) in
  0 < length toCenter ->
  dot (radialCorrection center p) toCenter =
  radialSpeed (length toCenter) (speed p) * length toCenter.
Proof.
  cbv zeta. intro Hpos. unfold radialCorrection. cbv zeta.
  set (v := sub center (current p)) in *.
  rewrite normalize_nonzero by lra.
  rewrite !dot_multiplyScalar, dot_self, <- length_sq.
  field. lra.
Qed.

(** A particle farther than the target distance is pushed away from the
    centre, a nearer one is pulled toward it. *)
Lemma radialCorrection_direction (center : Vector3) (p : Particle) :
  let toCenter := sub center (current p) in
  0 < speed p -> 0 < length toCenter ->
  (targetDistance < length toCenter ->
   dot (radialCorrection center p) toCenter < 0) /\
  (length toCenter <= targetDistance ->
   0 < dot (radialCorrection center p) toCenter).
Proof.
  cbv zeta. intros Hs Hpos.
  pose proof (radialCorrection_dot center p Hpos) as Hd. cbv zeta in Hd.
  rewrite Hd. unfold radialSpeed. split; intro H.
  - rewrite (Rlt_b_true _ _ H). nra.
  - rewrite (Rlt_b_false _ _ H). nra.
Qed.

Lemma length_on_x_axis (a : R) : length (mkVector3 a 0 0) = Rabs a.
Proof.
  unfold length, lengthSq. simpl.
  replace (a * a + 0 * 0 + 0 * 0) with (Rsqr a) by (unfold Rsqr; ring).
  apply sqrt_Rsqr_abs.
Qed.

Lemma radialCorrection_on_x_axis (a : R) (goal : Vector3) :
  0 < a ->
  radialCorrection (mkVector3 0 0 0) (loneParticle (mkVector3 a 0 0) goal) =
  mkVector3 (- radialSpeed a 1) 0 0.
Proof.
  intro Ha. unfold radialCorrection. cbv zeta. simpl current. simpl speed.
  replace (sub (mkVector3 0 0 0) (mkVector3 a 0 0)) with (mkVector3 (- a) 0 0)
    by (unfold sub; simpl; f_equal; ring).
  assert (Hl : length (mkVector3 (- a) 0 0) = a).
  { rewrite length_on_x_axis, Rabs_Ropp. apply Rabs_pos_eq. lra. }
  rewrite normalize_nonzero by (rewrite Hl; lra).
  rewrite Hl. unfold multiplyScalar. simpl. f_equal; field; lra.
Qed.

(** C5 (orbit radial correction) fails on the code: the sign is the
    other way round.  Around the centre (0,0,0), a particle of speed 1 at
    distance 30, beyond the target distance 20, gets the radial term
    (0.5,0,0), which takes it to distance 30.5; a particle at distance
    10, inside the target distance, gets (-0.5,0,0), which takes it to
    distance 9.5. *)
Theorem radial_term_pushes_away_from_target_distance :
  let center := mkVector3 0 0 0 in
  let far := loneParticle (mkVector3 30 0 0) (mkVector3 30 0 0) in
  let near := loneParticle (mkVector3 10 0 0) (mkVector3 10 0 0) in
  length (sub center (current far)) = 30 /\
  radialCorrection center far = mkVector3 0.5 0 0 /\
  length (sub center (add (current far) (radialCorrection center far))) = 30.5 /\
  length (sub center (current near)) = 10 /\
  radialCorrection center near = mkVector3 (-0.5) 0 0 /\
  length (sub center (add (current near) (radialCorrection center near))) = 9.5.
Proof.
  cbv zeta.
  assert (Hfar : radialSpeed 30 1 = -0.5).
  { unfold radialSpeed, targetDistance. rewrite Rlt_b_true by lra. lra. }
  assert (Hnear : radialSpeed 10 1 = 0.5).
  { unfold radialSpeed, targetDistance. rewrite Rlt_b_false by lra. lra. }
  assert (Hx : forall a b, 0 <= a + b ->
               length (sub (mkVector3 0 0 0)
                           (add (mkVector3 a 0 0) (mkVector3 b 0 0))) = a + b).
  { intros a b Hab.
    replace (sub (mkVector3 0 0 0) (add (mkVector3 a 0 0) (mkVector3 b 0 0)))
      with (mkVector3 (- (a + b)) 0 0)
      by (unfold sub, add; simpl; f_equal; ring).
    rewrite length_on_x_axis, Rabs_Ropp. now apply Rabs_pos_eq. }
  assert (H0 : forall a, 0 <= a ->
               length (sub (mkVector3 0 0 0) (mkVector3 a 0 0)) = a).
  { intros a Ha.
    replace (sub (mkVector3 0 0 0) (mkVector3 a 0 0)) with (mkVector3 (- a) 0 0)
      by (unfold sub; simpl; f_equal; ring).
    rewrite length_on_x_axis, Rabs_Ropp. now apply Rabs_pos_eq. }
  rewrite !radialCorrection_on_x_axis by lra.
  rewrite Hfar, Hnear. simpl current.
  rewrite !H0 by lra. rewrite !Hx by lra.
  repeat split; try lra; f_equal; lra.
Qed.

(** *** Morphing *)

Section Morphing.

Variable random : nat -> R.
Hypothesis random_range : forall k, 0 <= random k < 1.

Lemma settledRadius_above_threshold : 0.1 <= settledRadius.
Proof. unfold settledRadius. pose proof (sqrt_pos 3). lra. Qed.

(** One step of one particle. *)
Lemma interpolateParticle_step (p : Particle) (k : nat) :
  speedInRange p ->
  let p' := fst (interpolateParticle random p k) in
  target p' = target p /\ speed p' = speed p /\
  (0.1 < distanceToTarget p -> distanceToTarget p' <= distanceToTarget p) /\
  (distanceToTarget p <= settledRadius -> distanceToTarget p' <= settledRadius).
Proof.
  intros [Hlo Hhi]. cbv zeta. unfold interpolateParticle. cbv zeta.
  fold (distanceToTarget p).
  destruct (Rlt_dec 0.1 (distanceToTarget p)) as [Hfar|Hnear].
  - rewrite (Rlt_b_true _ _ Hfar). unfold ret. simpl.
    assert (Hstep :
      distanceToTarget
        (mkParticle
           (add (current p)
                (multiplyScalar (sub (target p) (current p))
                                (PARTICLE_MORPH_SPEED * speed p)))
           (target p) (velocity p) (idleOffset p) (color p) (speed p)
           (orbitAxis p))
      <= distanceToTarget p).
    { unfold distanceToTarget. simpl.
      replace (sub (target p)
                   (add (current p)
                        (multiplyScalar (sub (target p) (current p))
                                        (PARTICLE_MORPH_SPEED * speed p))))
        with (multiplyScalar (sub (target p) (current p))
                             (1 - PARTICLE_MORPH_SPEED * speed p))
        by (unfold sub, add, multiplyScalar; simpl; f_equal; ring).
      rewrite length_multiplyScalar.
      pose proof (length_nonneg (sub (target p) (current p))) as Hn.
      unfold PARTICLE_MORPH_SPEED.
      rewrite Rabs_pos_eq by lra. nra. }
    repeat split; try reflexivity; intros; lra.
  - rewrite Rlt_b_false by lra.
    rewrite !bind_unfold. unfold ret, Math_random. simpl.
    set (j := mkVector3
                ((random k - 0.5) * PARTICLE_JITTER_AMOUNT * speed p)
                ((random (S k) - 0.5) * PARTICLE_JITTER_AMOUNT * speed p)
                ((random (S (S k)) - 0.5) * PARTICLE_JITTER_AMOUNT * speed p)).
    assert (Hj : length (multiplyScalar j (-1)) <= 0.06 * sqrt 3).
    { rewrite length_multiplyScalar.
      replace (Rabs (-1)) with 1
        by (unfold Rabs; destruct (Rcase_abs (-1)); lra).
      rewrite Rmult_1_l.
      assert (Hc : forall r, 0 <= r < 1 ->
                   Rabs ((r - 0.5) * PARTICLE_JITTER_AMOUNT * speed p) <= 0.06).
      { intros r Hr. unfold PARTICLE_JITTER_AMOUNT.
        apply Rabs_le. split; nra. }
      apply length_box; [lra| | |]; unfold j; simpl; apply Hc;
        apply random_range. }
    assert (Hstep :
      distanceToTarget
        (mkParticle (add (current p) j) (target p) (velocity p)
                    (idleOffset p) (color p) (speed p) (orbitAxis p))
      <= distanceToTarget p + 0.06 * sqrt 3).
    { unfold distanceToTarget. simpl.
      replace (sub (target p) (add (current p) j))
        with (add (sub (target p) (current p)) (multiplyScalar j (-1)))
        by (unfold sub, add, multiplyScalar; simpl; f_equal; ring).
      pose proof (length_add_le (sub (target p) (current p))
                                (multiplyScalar j (-1))). lra. }
    unfold settledRadius.
    repeat split; try reflexivity; intros; lra.
Qed.

Lemma mapM_nth_error {A B : Type} (f : A -> Rand B) (l : list A) :
  forall (k i : nat),
    match nth_error l i with
    | Some a => exists k', nth_error (fst (mapM f l k)) i = Some (fst (f a k'))
    | None => nth_error (fst (mapM f l k)) i = None
    end.
Proof.
  induction l as [|a l IH]; intros k i.
  - destruct i; reflexivity.
  - simpl mapM. rewrite !bind_unfold. unfold ret. simpl fst.
    destruct i as [|i]; simpl nth_error.
    + now exists k.
    + apply IH.
Qed.

Lemma mapM_Forall {A B : Type} (f : A -> Rand B) (P : A -> Prop) (Q : B -> Prop)
      (l : list A) :
  (forall a k, P a -> Q (fst (f a k))) ->
  forall k, Forall P l -> Forall Q (fst (mapM f l k)).
Proof.
  intro Hf. induction l as [|a l IH]; intros k Hl.
  - constructor.
  - simpl mapM. rewrite !bind_unfold. unfold ret. simpl fst.
    inversion Hl; subst. constructor; [now apply Hf|now apply IH].
Qed.

Lemma interpolateToTarget_particles (dt : R) (s : ParticleSystem) :
  particles (interpolateToTarget random dt s) =
  fst (mapM (interpolateParticle random) (particles s) (randomCalls s)) /\
  flagsOf (interpolateToTarget random dt s) = flagsOf s.
Proof.
  unfold interpolateToTarget. destruct (mapM _ _ _). split; reflexivity.
Qed.

Lemma update_morphing_step (now dt : R) (s : ParticleSystem) (i : nat) :
  morphing s ->
  let s' := update random now dt s in
  morphing s' /\
  (0.1 < distanceAt i s -> distanceAt i s' <= distanceAt i s) /\
  (distanceAt i s <= settledRadius -> distanceAt i s' <= settledRadius).
Proof.
  intros [Hmode Hspeed]. cbv zeta.
  rewrite (update_morphing random now dt s Hmode).
  destruct (interpolateToTarget_particles dt s) as [Hp Hf].
  split; [split|].
  - rewrite (activeMode_flags _ _ Hf). exact Hmode.
  - rewrite Hp. apply (mapM_Forall _ speedInRange speedInRange); [|exact Hspeed].
    intros a k Ha. destruct (interpolateParticle_step a k Ha) as (_ & Hs & _).
    unfold speedInRange in *. now rewrite Hs.
  - unfold distanceAt. rewrite Hp.
    pose proof (mapM_nth_error (interpolateParticle random) (particles s)
                               (randomCalls s) i) as Hn.
    destruct (nth_error (particles s) i) as [p|] eqn:E.
    + destruct Hn as [k' ->].
      rewrite Forall_forall in Hspeed.
      destruct (interpolateParticle_step p k'
                  (Hspeed p (nth_error_In _ _ E))) as (_ & _ & H1 & H2).
      split; assumption.
    + rewrite Hn. pose proof settledRadius_above_threshold. split; intros; lra.
Qed.

Lemma ticks_succ (n : nat) (now dt : R) (s : ParticleSystem) :
  ticks random (S n) now dt s = update random now dt (ticks random n now dt s).
Proof.
  revert s. induction n as [|n IH]; intro s; [reflexivity|].
  change (ticks random (S (S n)) now dt s)
    with (ticks random (S n) now dt (update random now dt s)).
  now rewrite IH.
Qed.

Lemma ticks_morphing (n : nat) (now dt : R) (s : ParticleSystem) :
  morphing s -> morphing (ticks random n now dt s).
Proof.
  intro H. induction n as [|n IH]; [exact H|].
  rewrite ticks_succ. exact (proj1 (update_morphing_step now dt _ 0%nat IH)).
Qed.

Lemma ticks_stay_settled (n m : nat) (now dt : R) (s : ParticleSystem) (i : nat) :
  morphing s ->
  distanceAt i (ticks random n now dt s) <= settledRadius ->
  distanceAt i (ticks random (n + m) now dt s) <= settledRadius.
Proof.
  intros Hs Hn. induction m as [|m IH].
  - now rewrite Nat.add_0_r.
  - rewrite Nat.add_succ_r, ticks_succ.
    apply (update_morphing_step now dt _ i (ticks_morphing (n + m) now dt s Hs)).
    exact IH.
Qed.

End Morphing.

(** C6 (morph convergence).  With [Math.random()] in [0,1), an engine
    that morphs (no explosion, dispersion or orbit on, not idle) and whose
    particles have speed multipliers in [0.5,1.5], under repeated [update]
    with a constant positive step: as long as a particle is farther than
    0.1 from its target, the next tick does not increase the distance;
    once it is within 0.1, it stays within [settledRadius], the threshold
    plus the longest jitter step, at every later tick. *)
Theorem morph_converges_then_stays_close
        (random : nat -> R) (now dt : R) (s : ParticleSystem) (i n : nat) :
  (forall k, 0 <= random k < 1) ->
  0 < dt ->
  activeMode s = MORPHING ->
  Forall speedInRange (particles s) ->
  let d := fun m => distanceAt i (ticks random m now dt s) in
  (0.1 < d n -> d (S n) <= d n) /\
  (d n <= 0.1 -> forall m, d (n + m)%nat <= settledRadius).
Proof.
  intros Hr _ Hmode Hspeed d.
  assert (Hs : morphing s) by (split; assumption).
  split.
  - unfold d. rewrite ticks_succ.
    apply (update_morphing_step random Hr now dt _ i
             (ticks_morphing random Hr n now dt s Hs)).
  - intros Hn m. unfold d in *.
    apply (ticks_stay_settled random Hr n m now dt s i Hs).
    pose proof settledRadius_above_threshold. lra.
Qed.

Lemma morph_converges_then_stays_close_witness :
  let random := fun _ : nat => 0.5 in
  let s := mkParticleSystem
             [loneParticle (mkVector3 0 0 0) (mkVector3 1 0 0)]
             false false 0 false 0 false None 0 0 in
  distanceAt 0 (ticks random 1 0 1 s) <= distanceAt 0 (ticks random 0 0 1 s).
Proof.
  cbv zeta.
  destruct (morph_converges_then_stays_close (fun _ : nat => 0.5) 0 1
    (mkParticleSystem [loneParticle (mkVector3 0 0 0) (mkVector3 1 0 0)]
                      false false 0 false 0 false None 0 0) 0 0)
    as [H _].
  - intros k. lra.
  - lra.
  - reflexivity.
  - constructor; [|constructor]. unfold speedInRange. simpl. lra.
  - apply H. unfold distanceAt, distanceToTarget. simpl.
    replace (sub (mkVector3 1 0 0) (mkVector3 0 0 0)) with (mkVector3 1 0 0)
      by (unfold sub; simpl; f_equal; ring).
    rewrite length_on_x_axis, Rabs_R1. lra.
Defined.

(** *** The morphing state is the one [setTarget] installs *)

Lemma setAt_Forall {A : Type} (P : A -> Prop) (l : list A) (i : nat) (v : A) :
  Forall P l -> P v -> Forall P (setAt l i v).
Proof.
  intros Hl Hv. revert i. induction Hl as [|a l Ha Hl IH]; intro i.
  - constructor.
  - destruct i; simpl; constructor; auto.
Qed.

Lemma assignTargets_nonempty (random : nat -> R) (sh : list nat)
      (points : list TextPoint) :
  points <> [] ->
  forall (todo i : nat) (ps : list Particle) (k : nat),
    Forall speedInRange ps ->
    fst (fst (assignTargets random todo i sh points ps k)) = None /\
    Forall speedInRange (snd (fst (assignTargets random todo i sh points ps k))).
Proof.
  intro Hne. induction todo as [|todo IH]; intros i ps k Hps.
  - split; [reflexivity|exact Hps].
  - simpl assignTargets.
    assert (Hlen : List.length points <> 0%nat)
      by (destruct points; [contradiction|discriminate]).
    rewrite (proj2 (Nat.eqb_neq _ _) Hlen).
    destruct (nth_error points (i mod List.length points)) as [pt|] eqn:E.
    + apply IH.
      destruct (nth_error ps (nth i sh 0%nat)) as [p|] eqn:Ep; [|exact Hps].
      apply setAt_Forall; [exact Hps|].
      rewrite Forall_forall in Hps.
      exact (Hps p (nth_error_In _ _ Ep)).
    + exfalso. apply nth_error_None in E.
      pose proof (Nat.mod_upper_bound i _ Hlen). lia.
Qed.

Lemma initializeParticles_speeds (random : nat -> R) :
  (forall k, 0 <= random k < 1) ->
  forall n k, Forall speedInRange (fst (initializeParticles random n k)).
Proof.
  intro Hr. induction n as [|n IH]; intro k; [constructor|].
  simpl initializeParticles. rewrite !bind_unfold. unfold ret. simpl fst.
  constructor; [|apply IH].
  unfold speedInRange, newParticle, bind, ret, Math_random. simpl.
  match goal with |- _ <= 0.5 + random ?j * 1.0 <= _ => pose proof (Hr j) end.
  lra.
Qed.

(** On a new engine, [setTarget] with at least one anchor point returns
    and leaves the engine morphing. *)
Lemma installed_target_morphs (random : nat -> R) (n : nat)
      (points : list TextPoint) :
  (forall k, 0 <= random k < 1) -> points <> [] ->
  hasThrown (setTarget random points (create random n)) = false /\
  morphing (stateOf (setTarget random points (create random n))).
Proof.
  intros Hr Hne.
  assert (Hsp : Forall speedInRange (particles (create random n))).
  { unfold create.
    pose proof (initializeParticles_speeds random Hr n 0%nat) as H.
    destruct (initializeParticles random n 0%nat). exact H. }
  pose proof (EmptyTarget.create_flags random n) as Hfl.
  apply flagsOf_inv in Hfl. destruct Hfl as (_ & He & Hd & Ho).
  set (s := create random n) in *.
  unfold setTarget, morphing. cbv zeta.
  destruct (shuffle _ _ _ _) as [sh k].
  pose proof (assignTargets_nonempty random sh points Hne
                (List.length (particles s)) 0 (particles s) k Hsp) as [H1 H2].
  destruct (assignTargets _ _ _ _ _ _ _) as [[exn ps] k'].
  simpl in H1, H2. subst exn. simpl.
  split; [reflexivity|]. split; [|exact H2].
  unfold activeMode. simpl. now rewrite He, Hd, Ho.
Qed.

End EngineMotion.

(* ================================================================== *)
(** * More on the classifier: the decision table *)

Module ClassifierTable.
Import Gestures Gestures.FingerLandmark GestureClassifier Reading.

Ltac by_fingers lm Hlen :=
  unfold classify, countExtendedFingers, isOnlyIndexExtended,
         isIndexAndMiddleExtended, isIndexMiddleRingExtended, fingersOf;
  rewrite Hlen; cbv zeta;
  destruct (isFingerExtended lm INDEX_TIP INDEX_PIP),
           (isFingerExtended lm MIDDLE_TIP MIDDLE_PIP),
           (isFingerExtended lm RING_TIP RING_PIP),
           (isFingerExtended lm PINKY_TIP PINKY_PIP),
           (isThumbExtended lm); cbn.

Lemma classify_wrong_length (lm : list NormalizedLandmark) (now : Z) :
  List.length lm <> 21%nat ->
  classify (Some lm) now = mkGestureState UNKNOWN 0 now.
Proof.
  intro H. unfold classify.
  destruct (List.length lm =? 21)%nat eqn:E; [|reflexivity].
  apply Nat.eqb_eq in E. contradiction.
Qed.

(** Malformed input does not raise: without landmarks, or with a
    number of landmarks other than 21, the result is UNKNOWN with
    confidence 0. *)
Theorem malformed_landmarks_are_unknown
        (landmarks : option (list NormalizedLandmark)) (now : Z) :
  (forall lm, landmarks = Some lm -> List.length lm <> 21%nat) ->
  classify landmarks now = mkGestureState UNKNOWN 0 now.
Proof.
  intro H. destruct landmarks as [lm|]; [|reflexivity].
  apply classify_wrong_length. exact (H lm eq_refl).
Qed.

Lemma malformed_landmarks_are_unknown_witness :
  classify (Some [mkLandmark Double.zero Double.zero Double.zero;
                  mkLandmark Double.one Double.one Double.one]) 5
  = mkGestureState UNKNOWN 0 5.
Proof.
  apply malformed_landmarks_are_unknown.
  intros lm H. injection H as <-. simpl. discriminate.
Defined.

(** X1.  With 21 landmarks, the result is OPEN_PALM exactly when the
    code's own five tests succeed: the index, middle, ring and pinky tips
    have [y] below their pip joints' [y], and for the thumb
    [|tip.x - wrist.x| > |mcp.x - wrist.x| * 1.3], computed in doubles. *)
Theorem open_palm_iff_five_fingers (lm : list NormalizedLandmark) (now : Z) :
  List.length lm = 21%nat ->
  (type (classify (Some lm) now) = OPEN_PALM <->
   fingersOf lm = mkFingers true true true true true).
Proof.
  intro Hlen. by_fingers lm Hlen; split; intro H; try discriminate H; reflexivity.
Qed.

Lemma open_palm_iff_five_fingers_witness :
  type (classify (Some (handWith (mkFingers true true true true true))) 0)
  = OPEN_PALM <->
  fingersOf (handWith (mkFingers true true true true true))
  = mkFingers true true true true true.
Proof.
  apply open_palm_iff_five_fingers. reflexivity.
Defined.

(** X2.  With 21 landmarks, POINT, VICTORY and THREE_COUNT are returned
    exactly for the index alone, index and middle, and index, middle and
    ring, each with the thumb NOT extended: the same shape with the thumb
    out is none of the three. *)
Theorem counting_gestures_need_folded_thumb
        (lm : list NormalizedLandmark) (now : Z) :
  List.length lm = 21%nat ->
  (type (classify (Some lm) now) = POINT <->
   fingersOf lm = mkFingers true false false false false) /\
  (type (classify (Some lm) now) = VICTORY <->
   fingersOf lm = mkFingers true true false false false) /\
  (type (classify (Some lm) now) = THREE_COUNT <->
   fingersOf lm = mkFingers true true true false false).
Proof.
  intro Hlen.
  by_fingers lm Hlen;
    (split; [|split]); split; intro H; try discriminate H; reflexivity.
Qed.

Lemma counting_gestures_need_folded_thumb_witness :
  type (classify (Some (handWith (mkFingers true true false false false))) 0)
  = VICTORY /\
  type (classify (Some (handWith (mkFingers true true false false true))) 0)
  <> VICTORY.
Proof.
  split.
  - apply (counting_gestures_need_folded_thumb
             (handWith (mkFingers true true false false false)) 0 eq_refl).
    reflexivity.
  - intro H.
    apply (counting_gestures_need_folded_thumb
             (handWith (mkFingers true true false false true)) 0 eq_refl) in H.
    discriminate H.
Defined.

(** X3.  With 21 landmarks, the result is FIST exactly when the index is
    not extended and at most one of the other four fingers is: a lone
    thumb, but also a lone middle, ring or pinky finger, is a fist. *)
Theorem fist_iff_at_most_one_other_finger
        (lm : list NormalizedLandmark) (now : Z) :
  List.length lm = 21%nat ->
  let f := fingersOf lm in
  (type (classify (Some lm) now) = FIST <->
   index f = false /\
   (List.length (filter (fun b => b) [middle f; ring f; pinky f; thumb f]) <= 1)%nat).
Proof.
  intro Hlen. cbv zeta.
  by_fingers lm Hlen; split; intro H; try discriminate H; try reflexivity;
    try (split; [reflexivity|lia]);
    destruct H as [H1 H2]; try discriminate H1; try lia.
Qed.

Lemma fist_iff_at_most_one_other_finger_witness :
  type (classify (Some (handWith (mkFingers false true false false false))) 0)
  = FIST.
Proof.
  apply (fist_iff_at_most_one_other_finger
           (handWith (mkFingers false true false false false)) 0 eq_refl).
  split; [reflexivity|]. simpl. lia.
Defined.

(** X4.  Whatever the input, the confidence is above the recogniser's
    threshold of 0.8 exactly when the category is not UNKNOWN. *)
Theorem confident_iff_not_unknown
        (landmarks : option (list NormalizedLandmark)) (now : Z) :
  Qle_bool (confidence (classify landmarks now)) Recognizer.CONFIDENCE_THRESHOLD
  = false <->
  type (classify landmarks now) <> UNKNOWN.
Proof.
  destruct landmarks as [lm|]; [|simpl; split; [discriminate|congruence]].
  destruct (Nat.eq_dec (List.length lm) 21) as [Hlen|Hlen].
  - by_fingers lm Hlen; split; intro H; try discriminate H;
      try reflexivity; try congruence.
  - rewrite (classify_wrong_length lm now Hlen).
    simpl. split; [discriminate|congruence].
Qed.

End ClassifierTable.

(* ================================================================== *)
(** * More on the rapid-pulse detector *)

Module DetectorFacts.
Import Gestures RapidPulse Reading RapidPulseFacts.
Local Open Scope Z_scope.

Lemma countStep_cases (acc : Z * option GestureType) (e : StateChangeEvent) :
  (relevantEvent e = false -> countStep acc e = acc) /\
  (fst (countStep acc e) = fst acc \/ fst (countStep acc e) = fst acc + 1).
Proof.
  destruct acc as [n o]. unfold countStep, relevantEvent.
  destruct (isRelevant (fromType e) && isRelevant (toType e)).
  - split; [discriminate|].
    destruct o as [l|]; [|right; reflexivity].
    destruct (negb (GestureType_eqb l (toType e))); [right|left]; reflexivity.
  - split; [reflexivity|left; reflexivity].
Qed.

Lemma fold_countStep_bounds (l : list StateChangeEvent) :
  forall acc,
    fst acc <= fst (fold_left countStep l acc)
    <= fst acc + Z.of_nat (List.length l).
Proof.
  induction l as [|e l IH]; intro acc.
  - simpl. lia.
  - simpl fold_left. specialize (IH (countStep acc e)).
    destruct (countStep_cases acc e) as [_ [H|H]];
      rewrite H in IH; simpl List.length; lia.
Qed.

Lemma countAlternations_bounds (l : list StateChangeEvent) :
  0 <= countAlternations l <= Z.of_nat (List.length l).
Proof.
  unfold countAlternations.
  pose proof (fold_countStep_bounds l (0, None)) as H. simpl fst in H. lia.
Qed.

(** X5.  The length test at the head of [detectRapidPulse] is a shortcut
    only: the detector fires exactly when the number of alternations among
    the buffered events reaches [minChanges]. *)
Theorem detector_fires_iff_enough_alternations (s : RapidPulseBuffer) :
  fst (detectRapidPulse s) = true <->
  minChanges s <= countAlternations (buffer s).
Proof.
  unfold detectRapidPulse.
  pose proof (countAlternations_bounds (buffer s)) as Hb.
  destruct (Z.of_nat (List.length (buffer s)) <? minChanges s) eqn:E.
  - apply Z.ltb_lt in E. simpl. split; [discriminate|lia].
  - destruct (minChanges s <=? countAlternations (buffer s)) eqn:F; simpl.
    + apply Z.leb_le in F. tauto.
    + apply Z.leb_gt in F. split; [discriminate|lia].
Qed.



(** X7.  A detector whose [minChanges] is zero or negative fires at every
    poll, whatever it holds, an empty buffer included. *)
Theorem nonpositive_minChanges_always_fires (s : RapidPulseBuffer) :
  minChanges s <= 0 -> fst (detectRapidPulse s) = true.
Proof.
  intro H. unfold detectRapidPulse.
  pose proof (countAlternations_bounds (buffer s)) as Hb.
  destruct (Z.of_nat (List.length (buffer s)) <? minChanges s) eqn:E.
  - apply Z.ltb_lt in E. lia.
  - destruct (minChanges s <=? countAlternations (buffer s)) eqn:F;
      [reflexivity|]. apply Z.leb_gt in F. lia.
Qed.

Lemma nonpositive_minChanges_always_fires_witness :
  fst (detectRapidPulse (create 1500 0)) = true.
Proof.
  apply nonpositive_minChanges_always_fires. simpl. lia.
Defined.

Lemma addGesture_armLevel (g : GestureState) (s : RapidPulseBuffer) :
  (armLevel (addGesture g s) <= S (armLevel s))%nat /\
  (List.length (buffer (addGesture g s)) < armLevel (addGesture g s))%nat.
Proof.
  unfold armLevel.
  destruct (addGesture_config g s) as (_ & _ & Hl). rewrite Hl.
  pose proof (addGesture_buffer g s) as Hb.
  destruct (lastGesture s) as [l|].
  - destruct (GestureType_eqb l (type g)).
    + rewrite Hb. lia.
    + rewrite Hb.
      pose proof (filter_length_le
                    (fun e => timestamp g - windowMs s <=? ev_timestamp e)
                    (buffer s ++ [mkEvent l (type g) (timestamp g)])) as Hf.
      rewrite length_app in Hf. simpl in Hf. lia.
  - rewrite Hb. lia.
Qed.

Lemma feed_armLevel (gs : list GestureState) :
  forall s, (armLevel (feed gs s) <= armLevel s + List.length gs)%nat /\
            (gs <> [] -> List.length (buffer (feed gs s)) < armLevel (feed gs s))%nat.
Proof.
  induction gs as [|g gs IH]; intro s.
  - simpl. split; [lia|congruence].
  - change (feed (g :: gs) s) with (feed gs (addGesture g s)).
    destruct (IH (addGesture g s)) as [H1 H2].
    destruct (addGesture_armLevel g s) as [H3 H4].
    split; [simpl List.length; lia|]. intros _.
    destruct gs as [|g' gs']; [exact H4|]. apply H2. discriminate.
Qed.

(** X8.  Re-arming: after [reset] (so after every firing), a detector with
    a positive [minChanges] cannot fire on [minChanges] gestures or fewer;
    it takes at least one gesture more than [minChanges]. *)
Theorem rearming_needs_more_than_minChanges_gestures
        (s : RapidPulseBuffer) (gs : list GestureState) :
  0 < minChanges s ->
  Z.of_nat (List.length gs) <= minChanges s ->
  fst (detectRapidPulse (feed gs (reset s))) = false.
Proof.
  intros Hm Hn.
  destruct (feed_armLevel gs (reset s)) as [H1 H2].
  destruct (feed_config gs (reset s)) as [_ Hc].
  change (armLevel (reset s)) with 0%nat in H1.
  change (minChanges (reset s)) with (minChanges s) in Hc.
  unfold detectRapidPulse. rewrite Hc.
  destruct (Z.of_nat (List.length (buffer (feed gs (reset s)))) <? minChanges s)
    eqn:E; [reflexivity|].
  apply Z.ltb_ge in E. exfalso.
  destruct gs as [|g gs'].
  - simpl in E. lia.
  - specialize (H2 ltac:(discriminate)). lia.
Qed.

Lemma rearming_needs_more_than_minChanges_gestures_witness :
  fst (detectRapidPulse
         (feed [gesture OPEN_PALM 0; gesture FIST 10; gesture OPEN_PALM 20]
               (reset createDefault))) = false.
Proof.
  apply rearming_needs_more_than_minChanges_gestures.
  - reflexivity.
  - cbv. discriminate.
Defined.

Lemma addGesture_withinWindow (g : GestureState) (s : RapidPulseBuffer) (t : Z) :
  withinWindow t s -> t <= timestamp g ->
  exists t', withinWindow t' (addGesture g s) /\ t' <= timestamp g.
Proof.
  intros Hs Ht. unfold withinWindow in *.
  destruct (addGesture_config g s) as (Hw & _ & _).
  pose proof (addGesture_buffer g s) as Hb.
  assert (Hsame : buffer (addGesture g s) = buffer s ->
                  exists t', Forall (fun e => t' - windowMs (addGesture g s)
                                              <= ev_timestamp e <= t')
                                    (buffer (addGesture g s)) /\ t' <= timestamp g).
  { intro E. exists t. rewrite E, Hw. split; assumption. }
  destruct (lastGesture s) as [l|]; [|now apply Hsame].
  destruct (GestureType_eqb l (type g)); [now apply Hsame|].
  exists (timestamp g). split; [|lia].
  rewrite Hb, Hw. apply Forall_forall. intros e He.
  apply filter_In in He. destruct He as [He Hf]. apply Z.leb_le in Hf.
  split; [exact Hf|].
  apply in_app_or in He. destruct He as [He|[<-|[]]]; [|simpl; lia].
  rewrite Forall_forall in Hs. specialize (Hs e He). cbv beta in Hs. lia.
Qed.

Lemma feed_withinWindow (gs : list GestureState) :
  forall s t, withinWindow t s -> chronologicalFrom t gs ->
              exists t', withinWindow t' (feed gs s).
Proof.
  induction gs as [|g gs IH]; intros s t Hs Hch.
  - exists t. exact Hs.
  - change (feed (g :: gs) s) with (feed gs (addGesture g s)).
    destruct Hch as [Htg Hch].
    destruct (addGesture_withinWindow g s t Hs Htg) as (t' & Hw & Hle).
    apply (IH (addGesture g s) t' Hw).
    destruct gs as [|g' gs']; [exact I|].
    destruct Hch as [H1 H2]. split; [lia|exact H2].
Qed.

(** X9.  Sliding window: when gestures arrive in chronological order at a
    new detector, any two events it holds are at most [windowMs] apart. *)
Theorem buffered_events_fit_in_the_window
        (w m : Z) (gs : list GestureState) (e e' : StateChangeEvent) :
  chronological gs ->
  In e (buffer (feed gs (create w m))) ->
  In e' (buffer (feed gs (create w m))) ->
  ev_timestamp e' - ev_timestamp e <= w.
Proof.
  intros Hch He He'.
  assert (Hw : exists t, withinWindow t (feed gs (create w m))).
  { destruct gs as [|g gs'].
    - exists 0. constructor.
    - apply (feed_withinWindow (g :: gs') (create w m) (timestamp g)).
      + constructor.
      + split; [lia|exact Hch]. }
  destruct Hw as [t Hw]. unfold withinWindow in Hw.
  destruct (feed_config gs (create w m)) as [Hc _]. rewrite Hc in Hw.
  rewrite Forall_forall in Hw.
  pose proof (Hw e He) as H1. pose proof (Hw e' He') as H2.
  cbv beta in H1, H2. simpl in H1, H2. lia.
Qed.

Lemma buffered_events_fit_in_the_window_witness :
  ev_timestamp (mkEvent FIST OPEN_PALM 1700)
  - ev_timestamp (mkEvent FIST OPEN_PALM 1000) <= 1500.
Proof.
  apply (buffered_events_fit_in_the_window 1500 3
           (pulseBurst 0 100 1000 1100 1700)).
  - simpl. lia.
  - simpl. tauto.
  - simpl. tauto.
Defined.

End DetectorFacts.

(* ================================================================== *)
(** * The recogniser: classifier, threshold and detector together *)

Module RecognizerFacts.
Import Gestures GestureClassifier RapidPulse Reading Recognizer.
Import RapidPulseFacts DetectorFacts ClassifierTable.

Lemma confident_is_known (landmarks : option (list NormalizedLandmark)) (now : Z) :
  Qle_bool (confidence (classify landmarks now)) CONFIDENCE_THRESHOLD = false ->
  type (classify landmarks now) <> UNKNOWN.
Proof.
  destruct landmarks as [lm|]; [|simpl; discriminate].
  destruct (Nat.eq_dec (List.length lm) 21) as [Hlen|Hlen].
  - by_fingers lm Hlen; intro H; try discriminate H; congruence.
  - rewrite (classify_wrong_length lm now Hlen). simpl. discriminate.
Qed.

Lemma unknown_is_not_confident (landmarks : option (list NormalizedLandmark)) (now : Z) :
  type (classify landmarks now) = UNKNOWN ->
  Qle_bool (confidence (classify landmarks now)) CONFIDENCE_THRESHOLD = true.
Proof.
  intro H.
  destruct (Qle_bool _ _) eqn:E; [reflexivity|].
  exfalso. exact (confident_is_known landmarks now E H).
Qed.

(** The two ways a run of the effect can go. *)
Lemma onLandmarks_cases (now : Z) (landmarks : option (list NormalizedLandmark))
      (st : RecognizerState) :
  (Qle_bool (confidence (classify landmarks now)) CONFIDENCE_THRESHOLD = true /\
   onLandmarks now landmarks st = clearGesture st) \/
  (Qle_bool (confidence (classify landmarks now)) CONFIDENCE_THRESHOLD = false /\
   onLandmarks now landmarks st = accepted now landmarks st).
Proof.
  destruct landmarks as [[|l lm]|].
  - left. split; reflexivity.
  - unfold onLandmarks, accepted. cbv zeta.
    destruct (Qle_bool _ _); [left; split; reflexivity|right].
    split; [reflexivity|].
    destruct (detectRapidPulse _) as [fired buf']. reflexivity.
  - left. split; reflexivity.
Qed.

Lemma clearGesture_facts (st : RecognizerState) :
  rapidPulseBuffer (clearGesture st) = rapidPulseBuffer st /\
  (consistent st -> targetText (clearGesture st) = None) /\
  (consistent st -> consistent (clearGesture st)).
Proof.
  unfold clearGesture, consistent.
  destruct (currentGesture st) eqn:E; simpl.
  - split; [reflexivity|]. split; intros; reflexivity.
  - split; [reflexivity|]. split.
    + intro H. now apply H.
    + intros H _. now apply H.
Qed.

Lemma onLandmarks_consistent (now : Z) (landmarks : option (list NormalizedLandmark))
      (st : RecognizerState) :
  consistent st -> consistent (onLandmarks now landmarks st).
Proof.
  intro H.
  destruct (onLandmarks_cases now landmarks st) as [[_ ->]|[_ ->]].
  - destruct (clearGesture_facts st) as (_ & _ & Hc). now apply Hc.
  - unfold consistent, accepted. simpl. discriminate.
Qed.

Lemma detect_quiet (s : RapidPulseBuffer) :
  fst (detectRapidPulse s) = false -> snd (detectRapidPulse s) = s.
Proof.
  unfold detectRapidPulse.
  destruct (_ <? _)%Z; [reflexivity|].
  destruct (_ <=? _)%Z; simpl; [discriminate|reflexivity].
Qed.

Lemma detect_config (s : RapidPulseBuffer) :
  minChanges (snd (detectRapidPulse s)) = minChanges s /\
  windowMs (snd (detectRapidPulse s)) = windowMs s.
Proof.
  unfold detectRapidPulse.
  destruct (_ <? _)%Z; [split; reflexivity|].
  destruct (_ <=? _)%Z; split; reflexivity.
Qed.

Lemma onLandmarks_config (now : Z) (landmarks : option (list NormalizedLandmark))
      (st : RecognizerState) :
  minChanges (rapidPulseBuffer (onLandmarks now landmarks st))
  = minChanges (rapidPulseBuffer st).
Proof.
  destruct (onLandmarks_cases now landmarks st) as [[_ ->]|[_ ->]].
  - now destruct (clearGesture_facts st) as (-> & _).
  - unfold accepted. simpl.
    destruct (detect_config (addGesture (classify landmarks now)
                                        (rapidPulseBuffer st))) as [-> _].
    now destruct (addGesture_config (classify landmarks now)
                                    (rapidPulseBuffer st)) as (_ & -> & _).
Qed.

Lemma addGesture_neverUnknown (g : GestureState) (s : RapidPulseBuffer) :
  type g <> UNKNOWN -> neverUnknown s -> neverUnknown (addGesture g s).
Proof.
  intros Hg [Hl Hb]. unfold neverUnknown.
  destruct (addGesture_config g s) as (_ & _ & Hlast). rewrite Hlast.
  split; [congruence|].
  pose proof (addGesture_buffer g s) as Hbuf.
  destruct (lastGesture s) as [l|]; [|now rewrite Hbuf].
  destruct (GestureType_eqb l (type g)); [now rewrite Hbuf|].
  rewrite Hbuf. apply Forall_forall. intros e He.
  apply filter_In in He. destruct He as [He _].
  apply in_app_or in He. destruct He as [He|[<-|[]]].
  - rewrite Forall_forall in Hb. now apply Hb.
  - simpl. split; congruence.
Qed.

Lemma detect_neverUnknown (s : RapidPulseBuffer) :
  neverUnknown s -> neverUnknown (snd (detectRapidPulse s)).
Proof.
  intro H. unfold detectRapidPulse.
  destruct (_ <? _)%Z; [exact H|].
  destruct (_ <=? _)%Z; [|exact H].
  simpl. split; [discriminate|constructor].
Qed.

Lemma onLandmarks_reachable (now : Z) (landmarks : option (list NormalizedLandmark))
      (st : RecognizerState) :
  reachable st -> reachable (onLandmarks now landmarks st).
Proof.
  intros (Hc & Hm & Hu & Ht).
  split; [now apply onLandmarks_consistent|].
  split; [now rewrite onLandmarks_config|].
  destruct (onLandmarks_cases now landmarks st) as [[_ E]|[Hconf E]]; rewrite E.
  - destruct (clearGesture_facts st) as (Hb & Hn & _).
    rewrite Hb, (Hn Hc). split; [exact Hu|exact I].
  - unfold accepted. simpl. split.
    + apply detect_neverUnknown. apply addGesture_neverUnknown; [|exact Hu].
      exact (confident_is_known landmarks now Hconf).
    + destruct (fst (detectRapidPulse _)); [reflexivity|].
      destruct (type (classify landmarks now)); simpl; try reflexivity; exact I.
Qed.

Lemma initial_reachable : reachable initial.
Proof.
  repeat split; try exact I.
  - simpl. discriminate.
  - simpl. constructor.
Qed.

Lemma runFrames_reachable (frames : list Frame) :
  forall st, reachable st -> reachable (runFrames frames st).
Proof.
  induction frames as [|f frames IH]; intros st H; [exact H|].
  apply IH. now apply onLandmarks_reachable.
Qed.

(** X10.  Whatever the frames, the text the recogniser holds is none or
    one of the pre-generated texts: the branch of [useParticleSystem] that
    skips an unknown text is never taken for a recogniser text. *)
Theorem recognised_text_is_pregenerated
        (frames : list Frame) (prev : option string) (t : string) :
  targetText (runFrames frames initial) = Some t ->
  Orchestration.sameText (Some t) prev = false ->
  existsb (String.eqb t) Orchestration.TEXTS_TO_GENERATE = true /\
  snd (Orchestration.onTargetText prev (Some t)) <> [].
Proof.
  intros Et Hs.
  destruct (runFrames_reachable frames initial initial_reachable)
    as (_ & _ & _ & Ht).
  rewrite Et in Ht.
  split; [exact Ht|].
  unfold Orchestration.onTargetText. rewrite Hs, Ht. simpl.
  destruct (String.eqb t "SP School Of Computing"); discriminate.
Qed.

Lemma recognised_text_is_pregenerated_witness :
  targetText (runFrames [(0%Z, Some (handWith (mkFingers true true true true true)))]
                        initial) = Some "SoC"%string /\
  snd (Orchestration.onTargetText None (Some "SoC"%string)) <> [].
Proof.
  split; [reflexivity|].
  apply (recognised_text_is_pregenerated
           [(0%Z, Some (handWith (mkFingers true true true true true)))]
           None "SoC"%string); reflexivity.
Defined.

(** X11.  A frame without a usable gesture (no hand, a malformed landmark
    set, or a confidence of 0.8 or less, that is category UNKNOWN) clears
    the text and leaves the pulse detector exactly as it was: losing the
    hand does not erase the pulse gathered so far. *)
Theorem unusable_frame_clears_text_keeps_detector
        (frames : list Frame) (now : Z)
        (landmarks : option (list NormalizedLandmark)) :
  type (classify landmarks now) = UNKNOWN ->
  let st := runFrames frames initial in
  targetText (onLandmarks now landmarks st) = None /\
  currentGesture (onLandmarks now landmarks st) = None /\
  rapidPulseBuffer (onLandmarks now landmarks st) = rapidPulseBuffer st.
Proof.
  intros Hu st.
  destruct (runFrames_reachable frames initial initial_reachable)
    as (Hc & _). fold st in Hc.
  destruct (onLandmarks_cases now landmarks st) as [[_ ->]|[Hconf _]].
  - destruct (clearGesture_facts st) as (Hb & Hn & _).
    split; [exact (Hn Hc)|]. split; [|exact Hb].
    unfold clearGesture. destruct (currentGesture st) eqn:E; [reflexivity|exact E].
  - rewrite (unknown_is_not_confident landmarks now Hu) in Hconf. discriminate.
Qed.

Lemma unusable_frame_clears_text_keeps_detector_witness :
  let st := runFrames [(0%Z, Some (handWith (mkFingers true true true true true)))]
                      initial in
  targetText st = Some "SoC"%string /\
  targetText (onLandmarks 10 None st) = None /\
  rapidPulseBuffer (onLandmarks 10 None st) = rapidPulseBuffer st.
Proof.
  cbv zeta. split; [reflexivity|].
  destruct (unusable_frame_clears_text_keeps_detector
              [(0%Z, Some (handWith (mkFingers true true true true true)))]
              10 None eq_refl) as (H1 & _ & H3).
  split; assumption.
Defined.

(** X12.  UNKNOWN never reaches the detector: whatever the frames, neither
    the last gesture nor an end of a buffered transition is UNKNOWN. *)
Theorem unknown_never_reaches_the_detector (frames : list Frame) :
  neverUnknown (rapidPulseBuffer (runFrames frames initial)).
Proof.
  assert (Hstep : forall fs st,
             neverUnknown (rapidPulseBuffer st) ->
             neverUnknown (rapidPulseBuffer (runFrames fs st))).
  { induction fs as [|f fs IH]; intros st Hu; [exact Hu|].
    change (runFrames (f :: fs) st)
      with (runFrames fs (onLandmarks (fst f) (snd f) st)).
    apply IH.
    destruct (onLandmarks_cases (fst f) (snd f) st) as [[_ E]|[Hconf E]];
      rewrite E.
    - destruct (clearGesture_facts st) as (Hb & _). now rewrite Hb.
    - unfold accepted. cbn [rapidPulseBuffer].
      apply detect_neverUnknown.
      apply addGesture_neverUnknown; [|exact Hu].
      exact (confident_is_known (snd f) (fst f) Hconf). }
  apply Hstep. split; [simpl; discriminate|constructor].
Qed.

Lemma text_map_is_not_the_pulse_text (t : GestureType) :
  GESTURE_TEXT_MAP t <> Some RAPID_PULSE_TEXT.
Proof. destruct t; discriminate. Qed.

Lemma quiet_frames (frames : list Frame) :
  forall st,
    consistent st ->
    minChanges (rapidPulseBuffer st) = RAPID_PULSE_MIN_CHANGES ->
    (armLevel (rapidPulseBuffer st) + List.length frames <= 3)%nat ->
    frames <> [] ->
    targetText (runFrames frames st) <> Some RAPID_PULSE_TEXT.
Proof.
  induction frames as [|f frames IH]; intros st Hc Hm Ha Hne; [congruence|].
  change (runFrames (f :: frames) st)
    with (runFrames frames (onLandmarks (fst f) (snd f) st)).
  set (st1 := onLandmarks (fst f) (snd f) st).
  assert (Hc1 : consistent st1) by now apply onLandmarks_consistent.
  assert (Hm1 : minChanges (rapidPulseBuffer st1) = RAPID_PULSE_MIN_CHANGES)
    by (unfold st1; now rewrite onLandmarks_config).
  simpl List.length in Ha.
  assert (H1 : (armLevel (rapidPulseBuffer st1) <= S (armLevel (rapidPulseBuffer st)))%nat
               /\ targetText st1 <> Some RAPID_PULSE_TEXT).
  { unfold st1.
    destruct (onLandmarks_cases (fst f) (snd f) st) as [[_ ->]|[_ ->]].
    - destruct (clearGesture_facts st) as (Hb & Hn & _).
      rewrite Hb, (Hn Hc). split; [lia|discriminate].
    - unfold accepted. cbv zeta. simpl.
      set (g := classify (snd f) (fst f)).
      destruct (addGesture_armLevel g (rapidPulseBuffer st)) as [H3 H4].
      destruct (addGesture_config g (rapidPulseBuffer st)) as (_ & Hmc & _).
      assert (Hq : fst (detectRapidPulse (addGesture g (rapidPulseBuffer st))) = false).
      { unfold detectRapidPulse. rewrite Hmc, Hm.
        destruct (_ <? _)%Z eqn:E; [reflexivity|].
        apply Z.ltb_ge in E. unfold RAPID_PULSE_MIN_CHANGES in E. lia. }
      rewrite Hq, (detect_quiet _ Hq).
      split; [exact H3|apply text_map_is_not_the_pulse_text]. }
  destruct H1 as [Harm Htext].
  destruct frames as [|f' frames']; [exact Htext|].
  apply IH; try assumption; [|discriminate].
  simpl List.length in *. lia.
Qed.

(** X13.  Cool-down: once the recogniser has shown the pulse text, none of
    the next three frames can show it again, whatever they hold. *)
Theorem pulse_text_not_repeated_within_three_frames
        (frames0 : list Frame) (now : Z)
        (landmarks : option (list NormalizedLandmark)) (frames : list Frame) :
  let st := onLandmarks now landmarks (runFrames frames0 initial) in
  targetText st = Some RAPID_PULSE_TEXT ->
  frames <> [] -> (List.length frames <= 3)%nat ->
  targetText (runFrames frames st) <> Some RAPID_PULSE_TEXT.
Proof.
  intros st Hfired Hne Hlen.
  pose proof (runFrames_reachable frames0 initial initial_reachable) as Hr0.
  set (st0 := runFrames frames0 initial) in *.
  pose proof (onLandmarks_reachable now landmarks st0 Hr0) as (Hc & Hm & _).
  fold st in Hc, Hm.
  apply quiet_frames; try assumption.
  assert (Harm : armLevel (rapidPulseBuffer st) = 0%nat).
  { unfold st in *.
    destruct (onLandmarks_cases now landmarks st0) as [[_ E]|[_ E]];
      rewrite E in *.
    - destruct Hr0 as (Hc0 & _).
      destruct (clearGesture_facts st0) as (_ & Hn & _).
      rewrite (Hn Hc0) in Hfired. discriminate.
    - unfold accepted in *. cbv zeta in *. simpl in *.
      set (b := addGesture (classify landmarks now) (rapidPulseBuffer st0)) in *.
      unfold detectRapidPulse in *.
      destruct (_ <? _)%Z.
      + simpl in Hfired. exfalso.
        exact (text_map_is_not_the_pulse_text _ Hfired).
      + destruct (_ <=? _)%Z; [reflexivity|].
        simpl in Hfired. exfalso.
        exact (text_map_is_not_the_pulse_text _ Hfired). }
  rewrite Harm. lia.
Qed.

Lemma pulse_text_not_repeated_within_three_frames_witness :
  let palm := Some (handWith (mkFingers true true true true true)) in
  let fist := Some (handWith (mkFingers false false false false false)) in
  let st := onLandmarks 300 fist
              (runFrames [(0%Z, palm); (100%Z, fist); (200%Z, palm)] initial) in
  targetText st = Some RAPID_PULSE_TEXT /\
  targetText (runFrames [(400%Z, palm)] st) <> Some RAPID_PULSE_TEXT.
Proof.
  cbv zeta. split; [reflexivity|].
  apply (pulse_text_not_repeated_within_three_frames
           [(0%Z, Some (handWith (mkFingers true true true true true)));
            (100%Z, Some (handWith (mkFingers false false false false false)));
            (200%Z, Some (handWith (mkFingers true true true true true)))]
           300
           (Some (handWith (mkFingers false false false false false)))
           [(400%Z, Some (handWith (mkFingers true true true true true)))]);
    [reflexivity|discriminate|simpl; lia].
Defined.

End RecognizerFacts.

(* ================================================================== *)
(** * More on the engine: invariants of the public interface *)

Module EngineInvariants.
Import Engine EngineReading EngineModes EngineMotion.
Local Open Scope R_scope.

(** *** What never changes *)

Lemma mapM_map_kept {A B C : Type} (f : A -> Rand B) (g : B -> C) (h : A -> C) :
  (forall a k, g (fst (f a k)) = h a) ->
  forall l k, map g (fst (mapM f l k)) = map h l.
Proof.
  intro H. induction l as [|a l IH]; intro k; [reflexivity|].
  simpl mapM. rewrite !bind_unfold. unfold ret. simpl.
  now rewrite H, IH.
Qed.

Lemma mapMi_map_kept {A B C : Type} (f : nat -> A -> Rand B) (g : B -> C) (h : A -> C) :
  (forall i a k, g (fst (f i a k)) = h a) ->
  forall l i k, map g (fst (mapMi f i l k)) = map h l.
Proof.
  intro H. induction l as [|a l IH]; intros i k; [reflexivity|].
  simpl mapMi. rewrite !bind_unfold. unfold ret. simpl.
  now rewrite H, IH.
Qed.

Lemma setAt_map_kept {A C : Type} (g : A -> C) (l : list A) :
  forall i p v, nth_error l i = Some p -> g v = g p ->
                map g (setAt l i v) = map g l.
Proof.
  induction l as [|a l IH]; intros i p v Hn Hg.
  - destruct i; discriminate Hn.
  - destruct i as [|i]; simpl in *.
    + injection Hn as ->. now rewrite Hg.
    + f_equal. now apply (IH i p).
Qed.

Lemma assignTargets_exceptTarget (random : nat -> R) (sh : list nat)
      (points : list TextPoint) :
  forall todo i ps k,
    map exceptTarget (snd (fst (assignTargets random todo i sh points ps k)))
    = map exceptTarget ps.
Proof.
  induction todo as [|todo IH]; intros i ps k; [reflexivity|].
  simpl assignTargets.
  destruct (if (List.length points =? 0)%nat then None
            else nth_error points (i mod List.length points)) as [pt|];
    [|reflexivity].
  rewrite IH.
  destruct (nth_error ps (nth i sh 0%nat)) as [p|] eqn:E; [|reflexivity].
  now apply (setAt_map_kept exceptTarget ps _ p).
Qed.

Lemma setTarget_exceptTarget (random : nat -> R) (points : list TextPoint)
      (s : ParticleSystem) :
  map exceptTarget (particles (stateOf (setTarget random points s)))
  = map exceptTarget (particles s).
Proof.
  unfold setTarget. cbv zeta.
  destruct (shuffle _ _ _ _) as [sh k].
  pose proof (assignTargets_exceptTarget random sh points
                (List.length (particles s)) 0 (particles s) k) as H.
  destruct (assignTargets _ _ _ _ _ _ _) as [[exn ps] k'].
  simpl in H. destruct exn; exact H.
Qed.

Lemma exceptTarget_identity (ps ps' : list Particle) :
  map exceptTarget ps' = map exceptTarget ps ->
  map identityOf ps' = map identityOf ps.
Proof.
  intro H.
  assert (E : forall l, map identityOf l = map snd (map exceptTarget l)).
  { intro l. rewrite map_map. reflexivity. }
  now rewrite !E, H.
Qed.

Lemma update_identity (random : nat -> R) (now dt : R) (s : ParticleSystem) :
  map identityOf (particles (update random now dt s))
  = map identityOf (particles s).
Proof.
  unfold update.
  destruct (isExploding s).
  { rewrite updateExplosion_particles, map_map. reflexivity. }
  destruct (isDispersing s).
  { rewrite updateDispersion_particles, map_map. reflexivity. }
  destruct (isOrbiting s).
  { unfold updateOrbiting. destruct (orbitBounds s) as [b|]; [|reflexivity].
    pose proof (mapM_map_kept
                  (orbitParticle random (getCenter b) (orbitTime s + dt) dt)
                  identityOf identityOf) as H.
    specialize (H ltac:(intros a k; unfold orbitParticle;
                        rewrite !bind_unfold; reflexivity)
                  (particles s) (randomCalls s)).
    destruct (mapM _ _ _) as [ps k]. exact H. }
  destruct (isIdle s).
  { unfold updateIdleState. simpl. rewrite map_map. reflexivity. }
  unfold interpolateToTarget.
  pose proof (mapM_map_kept (interpolateParticle random) identityOf identityOf) as H.
  specialize (H ltac:(intros a k; unfold interpolateParticle;
                      destruct (Rlt_b _ _); [reflexivity|];
                      rewrite !bind_unfold; reflexivity)
                (particles s) (randomCalls s)).
  destruct (mapM _ _ _) as [ps k]. exact H.
Qed.

Lemma perform_identity (random : nat -> R) (s : ParticleSystem) (c : Call) :
  map identityOf (particles (perform random s c)) = map identityOf (particles s).
Proof.
  destruct c as [points| | | |bounds|now dt]; simpl perform.
  - apply exceptTarget_identity, setTarget_exceptTarget.
  - unfold setIdleState. simpl. rewrite map_map. reflexivity.
  - unfold disperse.
    pose proof (mapM_map_kept (disperseParticle random) identityOf identityOf) as H.
    specialize (H ltac:(intros a k; unfold disperseParticle;
                        rewrite !bind_unfold; reflexivity)
                  (particles s) (randomCalls s)).
    destruct (mapM _ _ _) as [ps k]. exact H.
  - unfold explode. simpl. rewrite map_map. reflexivity.
  - unfold orbitAroundBounds. cbv zeta.
    pose proof (mapMi_map_kept
                  (placeOnOrbit random (getCenter bounds)
                                (List.length (particles s) / 3))
                  identityOf identityOf) as H.
    specialize (H ltac:(intros i a k; unfold placeOnOrbit;
                        rewrite !bind_unfold; reflexivity)
                  (particles s) 0%nat (randomCalls s)).
    destruct (mapMi _ _ _ _) as [ps k]. exact H.
  - apply update_identity.
Qed.

(** X14.  Per-particle identity is permanent: over any sequence of calls
    of the public interface ([setTarget], including one that throws,
    [setIdleState], [disperse], [explode], [orbitAroundBounds], [update]),
    the number of particles and every particle's drift axis, colour, speed
    multiplier and orbit axis stay what they were. *)
Theorem identity_is_never_reassigned
        (random : nat -> R) (calls : list Call) (s : ParticleSystem) :
  map identityOf (particles (run random calls s)) = map identityOf (particles s) /\
  List.length (particles (run random calls s)) = List.length (particles s).
Proof.
  assert (H : map identityOf (particles (run random calls s))
              = map identityOf (particles s)).
  { revert s. induction calls as [|c calls IH]; intro s; [reflexivity|].
    change (run random (c :: calls) s) with (run random calls (perform random s c)).
    now rewrite IH, perform_identity. }
  split; [exact H|].
  apply (f_equal (@List.length _)) in H. now rewrite !length_map in H.
Qed.

Lemma assignTargets_returns (random : nat -> R) (sh : list nat)
      (points : list TextPoint) :
  points <> [] ->
  forall todo i ps k,
    fst (fst (assignTargets random todo i sh points ps k)) = None.
Proof.
  intro Hne.
  assert (Hlen : List.length points <> 0%nat)
    by (destruct points; [contradiction|discriminate]).
  induction todo as [|todo IH]; intros i ps k; [reflexivity|].
  simpl assignTargets. rewrite (proj2 (Nat.eqb_neq _ _) Hlen).
  destruct (nth_error points (i mod List.length points)) as [pt|] eqn:E.
  - apply IH.
  - exfalso. apply nth_error_None in E.
    pose proof (Nat.mod_upper_bound i _ Hlen). lia.
Qed.

(** X15.  [setTarget] throws exactly when it is given no anchor point and
    the engine has at least one particle; thrown or not, it writes targets
    only: every particle keeps its position and its velocity. *)
Theorem setTarget_throws_iff_empty_and_moves_nothing
        (random : nat -> R) (points : list TextPoint) (s : ParticleSystem) :
  (hasThrown (setTarget random points s) = true <->
   points = [] /\ particles s <> []) /\
  map exceptTarget (particles (stateOf (setTarget random points s)))
  = map exceptTarget (particles s).
Proof.
  split; [|apply setTarget_exceptTarget].
  destruct points as [|pt points].
  - destruct (EmptyTarget.setTarget_empty_outcome random s) as (_ & _ & Ht).
    cbv zeta in Ht. rewrite Ht.
    destruct (particles s) as [|p ps]; simpl.
    + split; [discriminate|]. intros [_ H]. congruence.
    + split; [|reflexivity]. intros _. split; [reflexivity|discriminate].
  - unfold setTarget. cbv zeta.
    destruct (shuffle _ _ _ _) as [sh k].
    pose proof (assignTargets_returns random sh (pt :: points)
                  ltac:(discriminate) (List.length (particles s)) 0%nat
                  (particles s) k) as H.
    destruct (assignTargets _ _ _ _ _ _ _) as [[exn ps] k'].
    simpl in H. subst exn. simpl.
    split; [discriminate|]. intros [H _]. discriminate H.
Qed.

(** *** The orbit guard *)

Lemma update_orbit_fields (random : nat -> R) (now dt : R) (s : ParticleSystem) :
  isOrbiting (update random now dt s) = isOrbiting s /\
  orbitBounds (update random now dt s) = orbitBounds s.
Proof.
  unfold update.
  destruct (isExploding s).
  { unfold updateExplosion. cbv zeta. destruct (Rle_b _ _); split; reflexivity. }
  destruct (isDispersing s).
  { unfold updateDispersion. cbv zeta. destruct (Rle_b _ _); split; reflexivity. }
  destruct (isOrbiting s) eqn:E.
  { unfold updateOrbiting. destruct (orbitBounds s) as [b|] eqn:F.
    - destruct (mapM _ _ _). simpl. split; first [assumption|reflexivity].
    - split; first [assumption|reflexivity]. }
  destruct (isIdle s).
  { split; first [assumption|reflexivity]. }
  unfold interpolateToTarget. destruct (mapM _ _ _).
  split; first [assumption|reflexivity].
Qed.

Lemma perform_orbitReady (random : nat -> R) (s : ParticleSystem) (c : Call) :
  orbitReady s -> orbitReady (perform random s c).
Proof.
  unfold orbitReady. intro H.
  destruct c as [points| | | |bounds|now dt]; simpl perform.
  - destruct (setTarget_flags random points s) as (Hf & _ & _ & _ & Hb).
    cbv zeta in Hf, Hb. apply flagsOf_inv in Hf.
    destruct Hf as (_ & _ & _ & Ho). now rewrite Ho, Hb.
  - simpl. discriminate.
  - destruct (disperse_flags random s) as (Hf & _ & Hb).
    apply flagsOf_inv in Hf. destruct Hf as (_ & _ & _ & Ho).
    now rewrite Ho, Hb.
  - exact H.
  - destruct (orbitAroundBounds_flags random bounds s) as (_ & _ & Hb).
    rewrite Hb. discriminate.
  - destruct (update_orbit_fields random now dt s) as [-> ->]. exact H.
Qed.

Lemma run_orbitReady (random : nat -> R) (calls : list Call) :
  forall s, orbitReady s -> orbitReady (run random calls s).
Proof.
  induction calls as [|c calls IH]; intros s H; [exact H|].
  apply IH. now apply perform_orbitReady.
Qed.

(** X16.  The guard of [updateOrbiting] is never taken: after any sequence
    of calls on a new engine, an engine that orbits has its bounds, so an
    [update] in the orbiting mode always advances the orbit clock by the
    step. *)
Theorem orbiting_engine_has_bounds
        (random : nat -> R) (n : nat) (calls : list Call) (now dt : R) :
  let s := run random calls (create random n) in
  activeMode s = ORBITING ->
  orbitBounds s <> None /\
  orbitTime (update random now dt s) = orbitTime s + dt.
Proof.
  intros s Hmode.
  assert (Hr : orbitReady s).
  { apply run_orbitReady. unfold orbitReady.
    pose proof (EmptyTarget.create_flags random n) as Hf.
    apply flagsOf_inv in Hf. destruct Hf as (_ & _ & _ & Ho).
    rewrite Ho. discriminate. }
  unfold activeMode in Hmode.
  destruct (isExploding s) eqn:He; [discriminate|].
  destruct (isDispersing s) eqn:Hd; [discriminate|].
  destruct (isOrbiting s) eqn:Ho; [|destruct (isIdle s); discriminate].
  specialize (Hr Ho). split; [exact Hr|].
  rewrite (update_orbiting random now dt s He Hd Ho).
  unfold updateOrbiting. destruct (orbitBounds s); [|contradiction].
  destruct (mapM _ _ _). reflexivity.
Qed.

Lemma orbiting_engine_has_bounds_witness :
  let s := run half [CallOrbitAroundBounds unitBox] (create half 3) in
  orbitBounds s <> None /\
  orbitTime (update half 0 0.1 s) = orbitTime s + 0.1.
Proof.
  apply (orbiting_engine_has_bounds half 3 [CallOrbitAroundBounds unitBox] 0 0.1).
  simpl run.
  destruct (orbitAroundBounds_flags half unitBox (create half 3)) as (Hf & _).
  now rewrite (activeMode_flags _ _ Hf).
Defined.

End EngineInvariants.

(* ================================================================== *)
(** * More on the engine: where the particles are and how fast they go *)

Module EngineGeometry.
Import Engine EngineReading EngineModes EngineMotion.
Local Open Scope R_scope.

Lemma length_zero_vector (v : Vector3) : length v = 0 -> v = zeroVector.
Proof.
  intro H. unfold length in H.
  apply sqrt_eq_0 in H; [|apply lengthSq_nonneg].
  unfold lengthSq in H. destruct v as [a b c]. simpl in H.
  unfold zeroVector. f_equal; nra.
Qed.

Lemma normalize_zero (v : Vector3) : length v = 0 -> normalize v = zeroVector.
Proof.
  intro H. rewrite (length_zero_vector v H).
  unfold normalize, divideScalar, multiplyScalar, zeroVector. simpl.
  f_equal; ring.
Qed.

Lemma normalize_unit (v : Vector3) : length v <> 0 -> length (normalize v) = 1.
Proof.
  intro H. rewrite (normalize_nonzero v H), length_multiplyScalar.
  pose proof (length_nonneg v) as Hn.
  assert (Hpos : 0 < length v) by lra.
  rewrite Rabs_pos_eq.
  - field. lra.
  - unfold Rdiv. rewrite Rmult_1_l. left. now apply Rinv_0_lt_compat.
Qed.



(** A point given by radius and two angles is at that radius. *)
Lemma length_spherical (r phi theta : R) :
  length (mkVector3 (r * sin phi * cos theta) (r * sin phi * sin theta)
                    (r * cos phi)) = Rabs r.
Proof.
  unfold length, lengthSq. simpl.
  pose proof (sin2_cos2 phi) as Hp. pose proof (sin2_cos2 theta) as Ht.
  unfold Rsqr in Hp, Ht.
  replace (r * sin phi * cos theta * (r * sin phi * cos theta)
           + r * sin phi * sin theta * (r * sin phi * sin theta)
           + r * cos phi * (r * cos phi))
    with (r * r * (sin phi * sin phi * (sin theta * sin theta + cos theta * cos theta)
                   + cos phi * cos phi)) by ring.
  rewrite Ht, Rmult_1_r, Hp, Rmult_1_r.
  fold (Rsqr r). apply sqrt_Rsqr_abs.
Qed.

(** *** A new engine *)

Lemma initializeParticles_Forall (random : nat -> R) (P : Particle -> Prop) :
  (forall k, P (fst (newParticle random k))) ->
  forall n k, Forall P (fst (initializeParticles random n k)).
Proof.
  intro H. induction n as [|n IH]; intro k; [constructor|].
  simpl initializeParticles. rewrite !bind_unfold. unfold ret. simpl fst.
  constructor; [apply H|apply IH].
Qed.

(** X18.  A new engine of [n] particles, with [Math.random()] in [0,1):
    it is idle, has [n] particles, and every particle is within the idle
    radius, at rest, already at its target, with a speed multiplier in
    [0.5,1.5]. *)
Theorem new_engine_is_idle_and_contained (random : nat -> R) (n : nat) :
  (forall k, 0 <= random k < 1) ->
  let s := create random n in
  activeMode s = IDLE /\
  List.length (particles s) = n /\
  Forall (fun p => insideIdleRadius p /\ velocity p = zeroVector /\
                   target p = current p /\ speedInRange p)
         (particles s).
Proof.
  intros Hr s. unfold s.
  split.
  { rewrite (activeMode_flags _ _ (EmptyTarget.create_flags random n)).
    reflexivity. }
  split; [apply EmptyTarget.create_length|].
  unfold create.
  pose proof (initializeParticles_Forall random
    (fun p => insideIdleRadius p /\ velocity p = zeroVector /\
              target p = current p /\ speedInRange p)) as H.
  assert (Hnew : forall k,
             (fun p => insideIdleRadius p /\ velocity p = zeroVector /\
                       target p = current p /\ speedInRange p)
               (fst (newParticle random k))).
  { intro k.
    unfold insideIdleRadius, speedInRange, newParticle, bind, ret, Math_random.
    simpl.
    split; [|split; [reflexivity|split; [reflexivity|]]].
    - rewrite length_spherical.
      match goal with |- Rabs (random ?j * _) <= _ => pose proof (Hr j) end.
      unfold PARTICLE_IDLE_RADIUS. rewrite Rabs_pos_eq; nra.
    - match goal with |- _ <= 0.5 + random ?j * 1.0 <= _ => pose proof (Hr j) end.
      lra. }
  specialize (H Hnew n 0%nat).
  destruct (initializeParticles random n 0%nat) as [ps k]. exact H.
Qed.

Lemma new_engine_is_idle_and_contained_witness :
  activeMode (create half 2) = IDLE /\
  List.length (particles (create half 2)) = 2%nat.
Proof.
  destruct (new_engine_is_idle_and_contained half 2) as (H1 & H2 & _).
  - intro k. unfold half. lra.
  - split; assumption.
Defined.

End EngineGeometry.

(* ================================================================== *)
(** * More on the engine: impulses, orbit set-up, arrival *)

Module EngineDynamics.
Import Engine EngineReading EngineModes EngineMotion EngineGeometry.
Local Open Scope R_scope.

(** *** How explosions and dispersions end *)

Lemma update_quiet_flags (random : nat -> R) (now dt : R) (s : ParticleSystem) :
  isExploding s = false -> isDispersing s = false ->
  flagsOf (update random now dt s) = flagsOf s.
Proof.
  intros He Hd. unfold update. rewrite He, Hd.
  destruct (isOrbiting s).
  { unfold updateOrbiting. destruct (orbitBounds s); [|reflexivity].
    destruct (mapM _ _ _). reflexivity. }
  destruct (isIdle s); [reflexivity|].
  unfold interpolateToTarget. destruct (mapM _ _ _). reflexivity.
Qed.

Lemma ticks_quiet_flags (random : nat -> R) (now dt : R) (n : nat) :
  forall s, isExploding s = false -> isDispersing s = false ->
            flagsOf (ticks random n now dt s) = flagsOf s.
Proof.
  induction n as [|n IH]; intros s He Hd; [reflexivity|].
  simpl ticks.
  pose proof (update_quiet_flags random now dt s He Hd) as Hf.
  pose proof (flagsOf_inv _ _ _ _ _ Hf) as (_ & He' & Hd' & _).
  rewrite IH; [exact Hf|now rewrite He'|now rewrite Hd'].
Qed.





End EngineDynamics.

(* ================================================================== *)
(** * More on the engine: the velocities the triggers set *)

Module EngineImpulse.
Import Engine EngineReading EngineModes EngineMotion EngineGeometry.
Local Open Scope R_scope.

Lemma multiplyScalar_zeroVector (k : R) : multiplyScalar zeroVector k = zeroVector.
Proof. unfold multiplyScalar, zeroVector. simpl. f_equal; ring. Qed.

Lemma length_scaled_normalize (v : Vector3) (k : R) :
  0 <= k ->
  (length v <> 0 /\ length (multiplyScalar (normalize v) k) = k) \/
  (length v = 0 /\ multiplyScalar (normalize v) k = zeroVector).
Proof.
  intro Hk. destruct (Req_dec_T (length v) 0) as [H|H].
  - right. split; [exact H|].
    now rewrite (normalize_zero v H), multiplyScalar_zeroVector.
  - left. split; [exact H|].
    rewrite length_multiplyScalar, (normalize_unit v H), Rmult_1_r.
    now apply Rabs_pos_eq.
Qed.







(** *** The tangent of the orbit *)




(** *** Where the orbit is set up *)








End EngineImpulse.

(* ================================================================== *)
(** * More on the engine: a morphing particle arrives *)

Module EngineArrival.
Import Engine EngineReading EngineModes EngineMotion.
Local Open Scope R_scope.






End EngineArrival.

(* ================================================================== *)
(** * The frame-rate monitor *)

Module MonitorFacts.
Import PerformanceMonitor.
Local Open Scope Q_scope.

Lemma recordAll_window (n : nat) (clock : list Q) :
  forall m,
    sampleSize m = Z.of_nat n ->
    (List.length (frameTimes m) <= n)%nat ->
    let all := frameTimes m ++ deltas (lastFrameTime m) clock in
    frameTimes (recordAll clock m) = skipn (List.length all - n) all.
Proof.
  induction clock as [|t clock IH]; intros m Hn Hlen; cbv zeta.
  - simpl. rewrite app_nil_r.
    replace (List.length (frameTimes m) - n)%nat with 0%nat by lia. reflexivity.
  - change (recordAll (t :: clock) m) with (recordAll clock (recordFrame t m)).
    simpl deltas.
    set (d := t - lastFrameTime m).
    set (D := deltas t clock).
    assert (Hpushed : List.length (frameTimes m ++ [d]) = S (List.length (frameTimes m)))
      by (rewrite length_app; simpl; lia).
    unfold recordFrame in *. cbv zeta in *. fold d.
    destruct (sampleSize m <? Z.of_nat (List.length (frameTimes m ++ [d])))%Z eqn:E.
    + apply Z.ltb_lt in E. rewrite Hn, Hpushed in E.
      assert (Hfull : List.length (frameTimes m) = n) by lia.
      rewrite IH; cbn [frameTimes sampleSize lastFrameTime].
      * fold D.
        destruct (frameTimes m ++ [d]) as [|x l] eqn:Ex;
          [simpl in Hpushed; lia|].
        simpl tl.
        replace (frameTimes m ++ d :: D) with ((frameTimes m ++ [d]) ++ D)
          by (rewrite <- app_assoc; reflexivity).
        rewrite Ex. simpl in Hpushed.
        rewrite !length_app. simpl List.length.
        replace (S (List.length l) + List.length D - n)%nat
          with (S (List.length l + List.length D - n)) by lia.
        reflexivity.
      * exact Hn.
      * destruct (frameTimes m ++ [d]); simpl in *; lia.
    + apply Z.ltb_ge in E. rewrite Hn, Hpushed in E.
      rewrite IH; cbn [frameTimes sampleSize lastFrameTime].
      * fold D. rewrite <- app_assoc. reflexivity.
      * exact Hn.
      * rewrite Hpushed. lia.
Qed.

(** X27.  Sliding window of frame times: a monitor created with a sample
    size [n] and fed one clock reading per frame holds exactly the last
    [n] frame-to-frame times (all of them while there are fewer), oldest
    first. *)
Theorem monitor_holds_the_last_samples (n : nat) (start : Q) (clock : list Q) :
  frameTimes (recordAll clock (create (Z.of_nat n) start))
  = skipn (List.length clock - n) (deltas start clock) /\
  List.length (frameTimes (recordAll clock (create (Z.of_nat n) start)))
  = Nat.min (List.length clock) n.
Proof.
  pose proof (recordAll_window n clock (create (Z.of_nat n) start) eq_refl
                (Nat.le_0_l n)) as H.
  cbv zeta in H. simpl in H.
  assert (Hd : forall l s, List.length (deltas s l) = List.length l).
  { induction l as [|a l IHl]; intro s; simpl; [reflexivity|now rewrite IHl]. }
  rewrite Hd in H. split; [exact H|].
  rewrite H, length_skipn, Hd. lia.
Qed.

End MonitorFacts.

(* ================================================================== *)
(** * More on the engine: which target each particle gets *)

Module EngineAssignment.
Import Engine EngineReading EngineModes EngineMotion.
Local Open Scope R_scope.

(** *** Array updates *)

Lemma length_setAt {A : Type} (l : list A) :
  forall i v, List.length (setAt l i v) = List.length l.
Proof.
  induction l as [|a l IH]; intros i v; [reflexivity|].
  destruct i; simpl; [reflexivity|now rewrite IH].
Qed.

Lemma nth_error_setAt_eq {A : Type} (l : list A) :
  forall i v, (i < List.length l)%nat -> nth_error (setAt l i v) i = Some v.
Proof.
  induction l as [|a l IH]; intros i v Hi; [simpl in Hi; lia|].
  destruct i; simpl; [reflexivity|]. apply IH. simpl in Hi. lia.
Qed.

Lemma nth_error_setAt_neq {A : Type} (l : list A) :
  forall i j v, i <> j -> nth_error (setAt l i v) j = nth_error l j.
Proof.
  induction l as [|a l IH]; intros i j v Hij; [reflexivity|].
  destruct i, j; simpl; try reflexivity; try congruence.
  apply IH. congruence.
Qed.

(** *** The shuffle is a permutation *)

Lemma floorIndex_below (x : R) (m : nat) :
  0 <= x < INR m -> (floorIndex x < m)%nat.
Proof.
  intros [H0 Hm]. unfold floorIndex.
  destruct (base_Int_part x) as [H1 _].
  rewrite INR_IZR_INZ in Hm.
  assert (Hlt : (Int_part x < Z.of_nat m)%Z) by (apply lt_IZR; lra).
  assert (Hpos : (0 < m)%nat).
  { destruct m; [simpl in Hm; lra|lia]. }
  lia.
Qed.

Lemma swap_covers (n : nat) (l : list nat) (i j : nat) :
  coversIndices n l -> (i < n)%nat -> (j < n)%nat ->
  coversIndices n (setAt (setAt l i (nth j l 0%nat)) j (nth i l 0%nat)).
Proof.
  intros [Hlen Hin] Hi Hj. split; [now rewrite !length_setAt|].
  intros q Hq. specialize (Hin q Hq).
  apply In_nth_error in Hin. destruct Hin as [k Hk].
  assert (Hkn : nth k l 0%nat = q) by now apply nth_error_nth.
  destruct (Nat.eq_dec k i) as [->|Hki].
  - apply (nth_error_In _ j). rewrite nth_error_setAt_eq, Hkn; [reflexivity|].
    rewrite length_setAt. lia.
  - destruct (Nat.eq_dec k j) as [->|Hkj].
    + apply (nth_error_In _ i).
      rewrite nth_error_setAt_neq by congruence.
      rewrite nth_error_setAt_eq, Hkn; [reflexivity|lia].
    + apply (nth_error_In _ k).
      rewrite !nth_error_setAt_neq by congruence. exact Hk.
Qed.

Lemma shuffle_covers (random : nat -> R) (n : nat) :
  (forall k, 0 <= random k < 1) ->
  forall i l k,
    (i <= n - 1)%nat -> coversIndices n l ->
    coversIndices n (fst (shuffle random i l k)) /\
    snd (shuffle random i l k) = (k + i)%nat.
Proof.
  intro Hr. induction i as [|i IH]; intros l k Hi Hl.
  - simpl. split; [exact Hl|lia].
  - set (j := floorIndex (random k * (INR (S i) + 1))).
    change (shuffle random (S i) l k)
      with (shuffle random i
              (setAt (setAt l (S i) (nth j l 0%nat)) j (nth (S i) l 0%nat))
              (S k)).
    assert (Hj : (j < S (S i))%nat).
    { apply floorIndex_below. rewrite (S_INR (S i)).
      pose proof (Hr k). pose proof (pos_INR (S i)). nra. }
    destruct (IH (setAt (setAt l (S i) (nth j l 0%nat)) j (nth (S i) l 0%nat))
                 (S k) ltac:(lia)) as [H1 H2].
    { apply swap_covers; [exact Hl|lia|lia]. }
    split; [exact H1|]. rewrite H2. lia.
Qed.

Lemma seq_covers (n : nat) : coversIndices n (seq 0 n).
Proof.
  split; [apply length_seq|]. intros q Hq. apply in_seq. lia.
Qed.

Lemma covers_permutation (n : nat) (l : list nat) :
  coversIndices n l -> Permutation (seq 0 n) l /\ NoDup l.
Proof.
  intros [Hlen Hin].
  assert (Hincl : incl (seq 0 n) l).
  { intros q Hq. apply in_seq in Hq. apply Hin. lia. }
  split.
  - apply NoDup_Permutation_bis; [apply seq_NoDup|rewrite length_seq; lia|exact Hincl].
  - apply NoDup_incl_NoDup with (l := seq 0 n); [apply seq_NoDup|rewrite length_seq; lia|exact Hincl].
Qed.

(** *** The assignment loop *)

Lemma assign_loop (random : nat -> R) (sh : list nat) (points : list TextPoint) :
  points <> [] -> NoDup sh ->
  forall todo i ps k,
    (i + todo <= List.length sh)%nat ->
    (forall j, (j < List.length sh)%nat -> (nth j sh 0 < List.length ps)%nat) ->
    let ps' := snd (fst (assignTargets random todo i sh points ps k)) in
    List.length ps' = List.length ps /\
    (forall j, (i <= j < i + todo)%nat ->
       exists p', nth_error ps' (nth j sh 0%nat) = Some p' /\
                  target p' = targetAt random points (k + 3 * (j - i)) j) /\
    (forall q, (forall j, (i <= j < i + todo)%nat -> nth j sh 0%nat <> q) ->
       nth_error ps' q = nth_error ps q).
Proof.
  intros Hne Hnd.
  assert (Hc : List.length points <> 0%nat)
    by (destruct points; [contradiction|discriminate]).
  induction todo as [|todo IH]; intros i ps k Hi Hsh; cbv zeta.
  - simpl. split; [reflexivity|]. split; [intros j Hj; lia|reflexivity].
  - simpl assignTargets. rewrite (proj2 (Nat.eqb_neq _ _) Hc).
    destruct (nth_error points (i mod List.length points)) as [pt|] eqn:Ept.
    2:{ exfalso. apply nth_error_None in Ept.
        pose proof (Nat.mod_upper_bound i _ Hc). lia. }
    assert (Hq : (nth i sh 0 < List.length ps)%nat) by (apply Hsh; lia).
    destruct (nth_error ps (nth i sh 0%nat)) as [p|] eqn:Ep.
    2:{ exfalso. apply nth_error_None in Ep. lia. }
    set (t := mkVector3 _ _ _).
    set (ps1 := setAt ps (nth i sh 0%nat) _).
    assert (Hlen1 : List.length ps1 = List.length ps) by apply length_setAt.
    destruct (IH (S i) ps1 (k + 3)%nat ltac:(lia)
                 ltac:(intros j Hj; rewrite Hlen1; now apply Hsh))
      as (H1 & H2 & H3).
    cbv zeta in H1, H2, H3.
    split; [now rewrite H1|]. split.
    + intros j Hj. destruct (Nat.eq_dec j i) as [->|Hji].
      * rewrite H3.
        -- exists (mkParticle (current p) t (velocity p) (idleOffset p)
                              (color p) (speed p) (orbitAxis p)).
           split; [apply nth_error_setAt_eq; exact Hq|].
           simpl target. unfold t, targetAt. cbv zeta.
           rewrite Nat.sub_diag, Nat.mul_0_r, Nat.add_0_r.
           rewrite (nth_error_nth _ _ _ Ept). reflexivity.
        -- intros j' Hj' E.
           apply (proj1 (NoDup_nth sh 0%nat) Hnd) in E; lia.
      * destruct (H2 j ltac:(lia)) as (p' & Hp' & Ht).
        exists p'. split; [exact Hp'|]. rewrite Ht. f_equal. lia.
    + intros q Hq'. rewrite H3.
      * apply nth_error_setAt_neq. apply Hq'. lia.
      * intros j Hj. apply Hq'. lia.
Qed.

Lemma map_nth_seq {A B : Type} (g : A -> B) (l : list A) (d : A) :
  List.map g l = List.map (fun q => g (nth q l d)) (seq 0 (List.length l)).
Proof.
  apply (nth_ext _ _ (g d) (g d)).
  - now rewrite !length_map, length_seq.
  - intros n Hn. rewrite length_map in Hn.
    rewrite (map_nth g l d n).
    rewrite (nth_indep _ (g d) ((fun q => g (nth q l d)) 0%nat))
      by (rewrite length_map, length_seq; exact Hn).
    rewrite (map_nth (fun q => g (nth q l d)) (seq 0 (List.length l)) 0%nat n).
    now rewrite seq_nth.
Qed.

(** The targets after [setTarget] are, in some order, the values the loop
    computes for the indices 0 to [n - 1]. *)
Lemma setTarget_targets (random : nat -> R) (points : list TextPoint)
      (s : ParticleSystem) :
  (forall k, 0 <= random k < 1) -> points <> [] ->
  let n := List.length (particles s) in
  Permutation
    (List.map target (particles (stateOf (setTarget random points s))))
    (List.map (fun j => targetAt random points
                          (randomCalls s + (n - 1) + 3 * j) j)
              (seq 0 n)).
Proof.
  intros Hr Hne n. unfold setTarget. cbv zeta. fold n.
  destruct (shuffle_covers random n Hr (n - 1) (seq 0 n) (randomCalls s)
              (Nat.le_refl _) (seq_covers n)) as [Hcov Hk].
  destruct (shuffle random (n - 1) (seq 0 n) (randomCalls s)) as [sh k].
  simpl in Hcov, Hk. subst k.
  destruct (covers_permutation n sh Hcov) as [Hperm Hnd].
  destruct Hcov as [Hlen Hin].
  assert (Hsh : forall j, (j < List.length sh)%nat -> (nth j sh 0 < n)%nat).
  { intros j Hj.
    assert (In (nth j sh 0%nat) (seq 0 n)).
    { apply (Permutation_in _ (Permutation_sym Hperm)). now apply nth_In. }
    apply in_seq in H. lia. }
  pose proof (assign_loop random sh points Hne Hnd n 0%nat (particles s)
                (randomCalls s + (n - 1))%nat ltac:(lia) Hsh) as (H1 & H2 & _).
  cbv zeta in H1, H2.
  destruct (assignTargets random n 0 sh points (particles s)
                          (randomCalls s + (n - 1))) as [[exn ps] k'].
  simpl in H1, H2.
  assert (Hps : particles (stateOf
                  match exn with
                  | Some e =>
                    Throws e (mkParticleSystem ps false (isExploding s)
                      (explosionTime s) (isDispersing s) (dispersionTime s)
                      (isOrbiting s) (orbitBounds s) (orbitTime s) k')
                  | None =>
                    Returns (mkParticleSystem ps false (isExploding s)
                      (explosionTime s) (isDispersing s) (dispersionTime s)
                      (isOrbiting s) (orbitBounds s) (orbitTime s) k')
                  end) = ps) by (destruct exn; reflexivity).
  rewrite Hps.
  set (d := loneParticle zeroVector zeroVector).
  rewrite (map_nth_seq target ps d). fold n in H1. rewrite H1.
  set (F := fun q => target (nth q ps d)).
  apply (Permutation_trans (Permutation_map F Hperm)).
  rewrite (map_nth_seq F sh 0%nat), Hlen.
  apply Permutation_refl'.
  apply map_ext_in. intros j Hj. apply in_seq in Hj.
  destruct (H2 j ltac:(lia)) as (p' & Hp' & Ht).
  unfold F. rewrite (nth_error_nth _ _ d Hp'), Ht. f_equal. lia.
Qed.

Lemma targetAt_first_layer (random : nat -> R) (points : list TextPoint)
      (k j : nat) :
  (j < List.length points)%nat ->
  targetAt random points k j = vectorOf (nth j points (mkTextPoint 0 0 0)).
Proof.
  intro Hj. unfold targetAt, vectorOf. cbv zeta.
  rewrite Nat.mod_small, Nat.div_small by exact Hj.
  simpl INR. f_equal; ring.
Qed.

(** X29.  With at least as many anchor points as particles, [setTarget]
    (with [Math.random()] in [0,1)) gives the particles exactly the first
    [particleCount] anchor points, each anchor to one particle, unmoved:
    the shuffle only decides which particle gets which anchor. *)
Theorem enough_anchors_are_assigned_one_to_one
        (random : nat -> R) (points : list TextPoint) (s : ParticleSystem) :
  (forall k, 0 <= random k < 1) ->
  (List.length (particles s) <= List.length points)%nat ->
  Permutation
    (List.map target (particles (stateOf (setTarget random points s))))
    (List.map vectorOf (firstn (List.length (particles s)) points)).
Proof.
  intros Hr Hn.
  destruct points as [|pt0 points'] eqn:Epts.
  - simpl in Hn. assert (E : particles s = []).
    { destruct (particles s); [reflexivity|simpl in Hn; lia]. }
    unfold setTarget. rewrite E. simpl. constructor.
  - rewrite <- Epts in *.
    assert (Hne : points <> []) by (rewrite Epts; discriminate).
    pose proof (setTarget_targets random points s Hr Hne) as H.
    cbv zeta in H.
    set (n := List.length (particles s)) in *.
    set (d := mkTextPoint 0 0 0).
    assert (E : List.map vectorOf (firstn n points)
                = List.map (fun j => targetAt random points
                                       (randomCalls s + (n - 1) + 3 * j) j)
                           (seq 0 n)).
    { rewrite (map_nth_seq vectorOf (firstn n points) d).
      rewrite length_firstn, Nat.min_l by exact Hn.
      apply map_ext_in. intros j Hj. apply in_seq in Hj.
      rewrite targetAt_first_layer by lia.
      rewrite nth_firstn.
      destruct (j <? n)%nat eqn:E; [reflexivity|].
      apply Nat.ltb_ge in E. lia. }
    rewrite E. exact H.
Qed.

Lemma enough_anchors_are_assigned_one_to_one_witness :
  Permutation
    (List.map target
       (particles (stateOf (setTarget half
                              [mkTextPoint 1 0 0; mkTextPoint 0 1 0;
                               mkTextPoint 0 0 1]
                              (create half 2)))))
    [mkVector3 1 0 0; mkVector3 0 1 0].
Proof.
  pose proof (enough_anchors_are_assigned_one_to_one half
                [mkTextPoint 1 0 0; mkTextPoint 0 1 0; mkTextPoint 0 0 1]
                (create half 2)) as H.
  rewrite EmptyTarget.create_length in H.
  apply H.
  - intro k. unfold half. lra.
  - simpl. lia.
Defined.



End EngineAssignment.

(* ================================================================== *)
(** * Rounding of doubles: where the leading bit of a result can be *)

Module DoubleRounding.
Import SpecFloat Double.
Local Open Scope Z_scope.

Lemma digits2_size (p : positive) : digits2_pos p = Pos.size p.
Proof. induction p; simpl; congruence. Qed.

Lemma Zdigits2_log2 (m : Z) : 0 < m -> Zdigits2 m = Z.log2 m + 1.
Proof.
  destruct m as [|p|p]; try lia. intros _.
  unfold Zdigits2. rewrite digits2_size.
  destruct p; simpl; lia.
Qed.

Lemma fexp_eq (e : Z) : fexp prec emax e = Z.max (e - 53) (-1074).
Proof. reflexivity. Qed.

Lemma shr_1_m (mrs : shr_record) :
  0 <= shr_m mrs -> shr_m (shr_1 mrs) = Z.div2 (shr_m mrs).
Proof.
  destruct mrs as [m r s]. simpl. intro H.
  destruct m as [|p|p]; try lia; try reflexivity.
  destruct p; reflexivity.
Qed.

Lemma iter_shr_1_m (p : positive) :
  forall mrs, 0 <= shr_m mrs ->
    shr_m (iter_pos shr_1 p mrs) = Z.shiftr (shr_m mrs) (Zpos p).
Proof.
  induction p as [p IH|p IH|]; intros mrs H; simpl iter_pos.
  - assert (H1 : 0 <= shr_m (shr_1 mrs)).
    { rewrite shr_1_m by exact H. apply Z.div2_nonneg. exact H. }
    assert (H2 : 0 <= shr_m (iter_pos shr_1 p (shr_1 mrs))).
    { rewrite IH by exact H1. apply Z.shiftr_nonneg. exact H1. }
    rewrite IH by exact H2. rewrite IH by exact H1. rewrite shr_1_m by exact H.
    rewrite Z.div2_spec. rewrite !Z.shiftr_shiftr by lia.
    f_equal. lia.
  - assert (H2 : 0 <= shr_m (iter_pos shr_1 p mrs)).
    { rewrite IH by exact H. apply Z.shiftr_nonneg. exact H. }
    rewrite IH by exact H2. rewrite IH by exact H.
    rewrite !Z.shiftr_shiftr by lia. f_equal. lia.
  - rewrite shr_1_m by exact H. now rewrite Z.div2_spec.
Qed.

Lemma shr_fexp_spec (m e : Z) (l : location) :
  0 <= m ->
  let n := fexp prec emax (Zdigits2 m + e) - e in
  shr_m (fst (shr_fexp prec emax m e l)) = (if 0 <? n then Z.shiftr m n else m) /\
  snd (shr_fexp prec emax m e l) = (if 0 <? n then e + n else e).
Proof.
  intros Hm n. unfold shr_fexp. fold n.
  assert (Hrec : shr_m (shr_record_of_loc m l) = m).
  { destruct l as [|[| |]]; reflexivity. }
  unfold shr. destruct n as [|p|p]; simpl; try (split; [exact Hrec|reflexivity]).
  split; [|reflexivity].
  rewrite iter_shr_1_m by (rewrite Hrec; exact Hm). now rewrite Hrec.
Qed.

Lemma round_nearest_even_cases (m : Z) (l : location) :
  round_nearest_even m l = m \/ round_nearest_even m l = m + 1.
Proof.
  unfold round_nearest_even.
  destruct l as [|[| |]]; try (left; reflexivity); try (right; reflexivity).
  destruct (Z.even m); [left|right]; reflexivity.
Qed.

Lemma round_nearest_even_exact (m : Z) : round_nearest_even m loc_Exact = m.
Proof. reflexivity. Qed.

Lemma bounded_iff (m : positive) (e : Z) :
  bounded prec emax m e = true <->
  fexp prec emax (Zdigits2 (Zpos m) + e) = e /\ e <= 971.
Proof.
  unfold bounded, canonical_mantissa. rewrite andb_true_iff, Z.eqb_eq, Z.leb_le.
  reflexivity.
Qed.

Lemma rounded_finite (s : bool) (D : Z) (p : positive) (e : Z) :
  fexp prec emax (Z.log2 (Zpos p) + 1 + e) = e -> e <= 971 ->
  D <= Z.log2 (Zpos p) + 1 + e ->
  (Z.log2 (Zpos p) + 1 + e <= D \/ Z.log2 (Zpos p) + 1 + e = -1073 \/
   (Z.log2 (Zpos p) + 1 + e = D + 1 /\ Zpos p = 2 ^ Z.log2 (Zpos p))) ->
  rounded s D (S754_finite s p e).
Proof.
  intros Hc He Hlow Hup. unfold rounded.
  rewrite (Zdigits2_log2 (Zpos p)) by lia.
  split; [reflexivity|]. split.
  - apply bounded_iff. rewrite (Zdigits2_log2 (Zpos p)) by lia.
    split; assumption.
  - cbv zeta. split; assumption.
Qed.

Lemma rounded_overflow (s : bool) (D : Z) (p : positive) (e : Z) :
  (e <= 971 -> rounded s D (S754_finite s p e)) ->
  (971 < e -> 1024 <= D) ->
  rounded s D (if e <=? emax - prec then S754_finite s p e else S754_infinity s).
Proof.
  intros Hf Hi. change (emax - prec) with 971.
  destruct (e <=? 971) eqn:E.
  - apply Hf. now apply Z.leb_le.
  - unfold rounded. split; [reflexivity|]. apply Hi. now apply Z.leb_gt.
Qed.

Lemma binary_round_aux_spec (s : bool) (m e : Z) (l : location) :
  0 < m ->
  e <= fexp prec emax (Zdigits2 m + e) ->
  rounded s (Zdigits2 m + e) (binary_round_aux prec emax s m e l).
Proof.
  intros Hm Hpre.
  rewrite (Zdigits2_log2 m Hm) in *.
  set (D := Z.log2 m + 1 + e) in *.
  unfold binary_round_aux.
  destruct (shr_fexp_spec m e l ltac:(lia)) as [H1 H2].
  rewrite (Zdigits2_log2 m Hm) in H1, H2. fold D in H1, H2.
  destruct (shr_fexp prec emax m e l) as [mrs1 e1]. simpl in H1, H2.
  set (n1 := fexp prec emax D - e) in *.
  assert (HM : shr_m mrs1 = Z.shiftr m n1).
  { rewrite H1. destruct (0 <? n1) eqn:E; [reflexivity|].
    apply Z.ltb_ge in E. replace n1 with 0 by lia. now rewrite Z.shiftr_0_r. }
  assert (He1 : e1 = fexp prec emax D).
  { rewrite H2. destruct (0 <? n1) eqn:E; [unfold n1; lia|].
    apply Z.ltb_ge in E. unfold n1 in E. lia. }
  clear H1 H2.
  set (M := shr_m mrs1) in *.
  assert (HM0 : 0 <= M) by (rewrite HM; apply Z.shiftr_nonneg; lia).
  set (m1 := round_nearest_even M (loc_of_shr_record mrs1)).
  assert (Hm1 : m1 = M \/ m1 = M + 1) by apply round_nearest_even_cases.
  destruct (shr_fexp_spec m1 e1 loc_Exact ltac:(lia)) as [H3 H4].
  destruct (shr_fexp prec emax m1 e1 loc_Exact) as [mrs2 e2]. simpl in H3, H4.
  pose proof (fexp_eq D) as HfD.
  destruct (Z.eq_dec M 0) as [HMz|HMnz].
  - (* everything was shifted out *)
    assert (HD : D <= -1074).
    { assert (Hlt : Z.log2 m < n1).
      { rewrite HM in HMz. apply Z.shiftr_eq_0_iff in HMz.
        destruct HMz as [HMz|[_ HMz]]; [lia|exact HMz]. }
      unfold n1 in Hlt. unfold D in *. lia. }
    destruct Hm1 as [Hm1|Hm1]; rewrite Hm1, HMz in *.
    + replace (shr_m mrs2) with 0.
      * unfold rounded. split; [reflexivity|exact HD].
      * rewrite H3. destruct (0 <? _); [now rewrite Z.shiftr_0_l|reflexivity].
    + simpl Z.add in *. change (Zdigits2 1) with 1 in *.
      rewrite fexp_eq in H3, H4.
      assert (He1' : e1 = -1074) by lia.
      rewrite He1' in *.
      change (Z.max (1 + -1074 - 53) (-1074) - -1074) with 0 in *.
      simpl in H3, H4. rewrite H3, H4.
      change (rounded s D (S754_finite s 1 (-1074))).
      apply rounded_finite; [reflexivity|lia|simpl; lia|].
      right. left. reflexivity.
  - assert (HMpos : 0 < M) by lia.
    assert (Hn1 : 0 <= n1) by (unfold n1; lia).
    assert (HlogM : Z.log2 M = Z.log2 m - n1).
    { rewrite HM, Z.log2_shiftr by lia.
      assert (n1 <= Z.log2 m).
      { destruct (Z_lt_le_dec (Z.log2 m) n1) as [Hlt|Hge]; [|exact Hge].
        exfalso. rewrite HM in HMnz. apply HMnz.
        apply Z.shiftr_eq_0; lia. }
      lia. }
    assert (HDM : Z.log2 M + 1 + e1 = D).
    { rewrite HlogM, He1. unfold n1. unfold D at 3. lia. }
    assert (Hm1pos : 0 < m1) by lia.
    rewrite (Zdigits2_log2 m1 Hm1pos) in H3, H4.
    assert (Hcase : Z.log2 m1 = Z.log2 M \/
                    (Z.log2 m1 = Z.log2 M + 1 /\ m1 = 2 ^ (Z.log2 M + 1))).
    { destruct Hm1 as [->| ->]; [left; reflexivity|].
      destruct (Z.log2_succ_or M) as [Hs|Hs]; unfold Z.succ in Hs.
      - right. split; [exact Hs|].
        apply (proj1 (Z.log2_eq_succ_iff_pow2 M HMpos)) in Hs.
        destruct Hs as [b Hb]. unfold Z.succ in Hb.
        assert (Hb0 : 0 <= b).
        { destruct (Z_lt_le_dec b 0) as [Hneg|Hok]; [|exact Hok].
          rewrite Z.pow_neg_r in Hb by exact Hneg. lia. }
        assert (Z.log2 (M + 1) = b) by (rewrite Hb; now apply Z.log2_pow2).
        assert (Z.log2 (M + 1) = Z.log2 M + 1).
        { apply (proj2 (Z.log2_eq_succ_iff_pow2 M HMpos)). exists b. exact Hb. }
        rewrite Hb. f_equal. lia.
      - left. exact Hs. }
    destruct Hcase as [Hsame|[Hbump Hpow]].
    + (* the rounded mantissa has as many digits *)
      assert (Hn2 : fexp prec emax (Z.log2 m1 + 1 + e1) - e1 = 0).
      { rewrite Hsame, HDM. lia. }
      rewrite Hn2 in H3, H4. simpl in H3, H4. rewrite H3, H4.
      destruct m1 as [|p1|p1]; try lia.
      apply rounded_overflow.
      * intro Ee. apply rounded_finite; rewrite ?Hsame, ?HDM; try lia.
      * intro Ee. lia.
    + (* the rounded mantissa is the next power of two *)
      assert (HD1 : Z.log2 m1 + 1 + e1 = D + 1) by lia.
      rewrite HD1 in H3, H4.
      pose proof (fexp_eq (D + 1)) as HfD1.
      assert (Hn2 : fexp prec emax (D + 1) - e1 = 0 \/ fexp prec emax (D + 1) - e1 = 1) by lia.
      destruct Hn2 as [Hn2|Hn2]; rewrite Hn2 in H3, H4; simpl in H3, H4.
      * rewrite H3, H4.
        destruct m1 as [|p1|p1]; try lia.
        apply rounded_overflow.
        -- intro Ee. apply rounded_finite; rewrite ?HD1; try lia.
           right. right. split; [reflexivity|]. rewrite Hbump. exact Hpow.
        -- intro Ee. lia.
      * assert (Hhalf : Z.shiftr m1 1 = 2 ^ Z.log2 M).
        { rewrite Hpow, Z.shiftr_div_pow2 by lia.
          replace (Z.log2 M + 1) with (Z.succ (Z.log2 M)) by lia.
          rewrite Z.pow_succ_r by apply Z.log2_nonneg.
          change (2 ^ 1) with 2. rewrite Z.mul_comm, Z.div_mul by lia.
          reflexivity. }
        rewrite Hhalf in H3. rewrite H3, H4.
        assert (Hpos2 : 0 < 2 ^ Z.log2 M) by (apply Z.pow_pos_nonneg; [lia|apply Z.log2_nonneg]).
        destruct (2 ^ Z.log2 M) as [|p2|p2] eqn:Ep2; try lia.
        assert (Hlog2 : Z.log2 (Zpos p2) = Z.log2 M).
        { rewrite <- Ep2. apply Z.log2_pow2. apply Z.log2_nonneg. }
        apply rounded_overflow.
        -- intro Ee. apply rounded_finite; rewrite ?Hlog2;
             replace (Z.log2 M + 1 + (e1 + 1)) with (D + 1) by lia; lia.
        -- intro Ee. lia.
Qed.

Lemma rounded_signed (s : bool) (D : Z) (r : spec_float) :
  rounded s D r -> signed s r.
Proof. destruct r; simpl; tauto. Qed.

Lemma shr_fexp_nonneg (m e : Z) (l : location) :
  0 <= m -> 0 <= shr_m (fst (shr_fexp prec emax m e l)).
Proof.
  intro Hm. destruct (shr_fexp_spec m e l Hm) as [H _]. rewrite H.
  match goal with |- 0 <= (if ?b then _ else _) => destruct b end;
    [apply Z.shiftr_nonneg|]; exact Hm.
Qed.

Lemma binary_round_aux_signed (s : bool) (m e : Z) (l : location) :
  0 <= m -> signed s (binary_round_aux prec emax s m e l).
Proof.
  intro Hm. unfold binary_round_aux.
  pose proof (shr_fexp_nonneg m e l Hm) as HM.
  destruct (shr_fexp prec emax m e l) as [mrs1 e1]. simpl in HM.
  set (m1 := round_nearest_even (shr_m mrs1) (loc_of_shr_record mrs1)).
  assert (Hm1 : 0 <= m1).
  { destruct (round_nearest_even_cases (shr_m mrs1) (loc_of_shr_record mrs1));
      unfold m1; lia. }
  pose proof (shr_fexp_nonneg m1 e1 loc_Exact Hm1) as HM2.
  destruct (shr_fexp prec emax m1 e1 loc_Exact) as [mrs2 e2]. simpl in HM2.
  destruct (shr_m mrs2) as [|p|p]; try lia; [reflexivity|].
  destruct (_ <=? _); reflexivity.
Qed.

Lemma shl_align_spec (m : positive) (e e' : Z) :
  let r := shl_align m e e' in
  Zpos (fst r) = Zpos m * 2 ^ (e - snd r) /\
  snd r = Z.min e e'.
Proof.
  unfold shl_align.
  destruct (e' - e) as [|d|d] eqn:E; simpl.
  - rewrite Z.sub_diag, Z.pow_0_r. split; lia.
  - rewrite Z.sub_diag, Z.pow_0_r. split; lia.
  - split; [|lia].
    change (Pos.iter xO m d) with (shift_pos d m).
    rewrite shift_pos_correct.
    replace (e - e') with (Zpos d) by lia.
    rewrite Z.mul_comm. reflexivity.
Qed.

Lemma log2_shifted (m : positive) (d : Z) :
  0 <= d -> Z.log2 (Zpos m * 2 ^ d) = Z.log2 (Zpos m) + d.
Proof. intro H. rewrite Z.log2_mul_pow2 by lia. lia. Qed.

Lemma binary_round_spec (s : bool) (m : positive) (e : Z) :
  rounded s (Zdigits2 (Zpos m) + e) (binary_round prec emax s m e).
Proof.
  unfold binary_round.
  set (e' := fexp prec emax (Zpos (digits2_pos m) + e)).
  destruct (shl_align_spec m e e') as [H1 H2].
  destruct (shl_align m e e') as [mz ez]. cbn [fst snd] in H1, H2.
  assert (Hd : Zdigits2 (Zpos mz) + ez = Zdigits2 (Zpos m) + e).
  { rewrite !Zdigits2_log2 by lia. rewrite H1, log2_shifted by lia. lia. }
  rewrite <- Hd. apply binary_round_aux_spec; [lia|].
  rewrite Hd. fold e'. change (Zdigits2 (Zpos m)) with (Zpos (digits2_pos m)).
  fold e'. lia.
Qed.

Lemma rounded_below (s : bool) (D k : Z) (r : spec_float) :
  rounded s D r -> D <= k -> -1074 <= k -> k <= 1023 ->
  isDouble r = true /\ below (k + 1) r = true.
Proof.
  intros H HD Hk1 Hk2. destruct r as [s'|s'| |s' m e];
    unfold rounded in H; cbv beta iota zeta in H.
  - split; reflexivity.
  - lia.
  - contradiction.
  - destruct H as (_ & Hb & Hlow & Hup).
    split; [exact Hb|]. unfold below. apply Z.leb_le. lia.
Qed.

Lemma rounded_lower (s : bool) (D k : Z) (r : spec_float) :
  rounded s D r -> below k r = true -> -1074 <= k -> D <= k.
Proof.
  intros H Hb Hk. destruct r as [s'|s'| |s' m e];
    unfold rounded in H; cbv beta iota zeta in H;
    unfold below in Hb; try discriminate.
  - lia.
  - apply Z.leb_le in Hb. lia.
Qed.

(** [0 <= c]: a zero of either sign, a positive number or [+Infinity]. *)
Lemma leb_zero_iff (c : double) :
  leb zero c = true <->
  match c with
  | S754_zero _ => True
  | S754_infinity s | S754_finite s _ _ => s = false
  | S754_nan => False
  end.
Proof.
  unfold leb, zero, SFleb, SFcompare.
  destruct c as [s|[|]| |[|] m e]; simpl; split; intro H;
    try reflexivity; try discriminate; try exact I; try contradiction.
Qed.

Lemma signed_false_leb (c : double) : signed false c -> leb zero c = true.
Proof.
  intro H. apply leb_zero_iff. destruct c; simpl in *; try exact I; assumption.
Qed.

Lemma aligned (m : positive) (e ez : Z) :
  ez <= e ->
  Zpos (fst (shl_align m e ez)) = Zpos m * 2 ^ (e - ez).
Proof.
  intro H. destruct (shl_align_spec m e ez) as [H1 H2].
  rewrite H1, H2. f_equal. f_equal. lia.
Qed.

Lemma log2_aligned (m : positive) (e ez : Z) :
  ez <= e ->
  Z.log2 (Zpos (fst (shl_align m e ez))) + 1 + ez = Zdigits2 (Zpos m) + e.
Proof.
  intro H. rewrite aligned by exact H.
  rewrite log2_shifted by lia. rewrite Zdigits2_log2 by lia. lia.
Qed.

Lemma below_digits (s : bool) (m : positive) (e k : Z) :
  below k (S754_finite s m e) = true <-> Zdigits2 (Zpos m) + e <= k.
Proof. unfold below. apply Z.leb_le. Qed.

(** The sum of two numbers that are not negative is not negative, and at
    least as large as the second, as far as the leading bit tells. *)
Lemma add_nonneg (a b : double) :
  isFinite a = true -> isFinite b = true ->
  leb zero a = true -> leb zero b = true ->
  leb zero (add a b) = true /\
  forall k, -1074 <= k -> below k (add a b) = true -> below k b = true.
Proof.
  intros Fa Fb Na Nb.
  apply leb_zero_iff in Na. apply leb_zero_iff in Nb.
  destruct a as [sa|sa| |sa ma ea]; try discriminate;
    destruct b as [sb|sb| |sb mb eb]; try discriminate.
  - split; [|intros; reflexivity].
    apply leb_zero_iff. unfold add, SFadd. destruct sa, sb; exact I.
  - subst sb. split; [apply leb_zero_iff; reflexivity|]. intros k _ H. exact H.
  - subst sa. split; [apply leb_zero_iff; reflexivity|]. intros; reflexivity.
  - subst sa sb. unfold add, SFadd. cbv zeta.
    set (ez := Z.min ea eb).
    unfold cond_Zopp.
    set (ax := fst (shl_align ma ea ez)). set (ay := fst (shl_align mb eb ez)).
    change (Zpos ax + Zpos ay) with (Zpos (ax + ay)).
    unfold binary_normalize.
    pose proof (binary_round_spec false (ax + ay) ez) as Hr.
    split; [apply signed_false_leb; exact (rounded_signed _ _ _ Hr)|].
    intros k Hk Hb. apply below_digits.
    pose proof (rounded_lower _ _ _ _ Hr Hb Hk) as Hlow.
    rewrite Zdigits2_log2 in Hlow by lia.
    pose proof (log2_aligned mb eb ez ltac:(unfold ez; lia)) as Hy. fold ay in Hy.
    assert (Z.log2 (Zpos ay) <= Z.log2 (Zpos (ax + ay))).
    { apply Z.log2_le_mono. lia. }
    lia.
Qed.

Lemma log2_quotient (a b q r : Z) :
  0 < a -> 0 < b -> a = b * q + r -> 0 <= r < b -> 0 < q ->
  Z.log2 a - Z.log2 b - 1 <= Z.log2 q.
Proof.
  intros Ha Hb Heq Hr Hq.
  destruct (Z_lt_le_dec (Z.log2 a - Z.log2 b - 1) 0) as [Hneg|Hpos].
  - pose proof (Z.log2_nonneg q). lia.
  - apply Z.log2_le_pow2; [exact Hq|].
    set (P := 2 ^ (Z.log2 a - Z.log2 b - 1)).
    destruct (Z_lt_le_dec q P) as [Hlt|Hge]; [exfalso|exact Hge].
    destruct (Z.log2_spec a Ha) as [Ha1 _].
    destruct (Z.log2_spec b Hb) as [_ Hb2].
    assert (Hpow : 2 ^ Z.succ (Z.log2 b) * P = 2 ^ Z.log2 a).
    { unfold P. rewrite <- Z.pow_add_r by (pose proof (Z.log2_nonneg b); lia).
      f_equal. lia. }
    assert (HP : 0 < P) by (apply Z.pow_pos_nonneg; lia).
    assert (H1 : b * (q + 1) <= b * P) by (apply Z.mul_le_mono_nonneg_l; lia).
    assert (H2 : b * P < 2 ^ Z.succ (Z.log2 b) * P)
      by (apply Z.mul_lt_mono_pos_r; lia).
    lia.
Qed.

(** The quotient that [SFdiv] hands to the rounding: it is not negative;
    when it is zero the exact quotient is below the smallest number, and
    otherwise its leading bit is not below that of the exact quotient and
    it has digits enough for the rounding. *)
Lemma div_core_spec (m1 : positive) (e1 : Z) (m2 : positive) (e2 : Z) :
  let X := (Zdigits2 (Zpos m1) + e1) - (Zdigits2 (Zpos m2) + e2) in
  let q := fst (fst (SFdiv_core_binary prec emax (Zpos m1) e1 (Zpos m2) e2)) in
  let e' := snd (fst (SFdiv_core_binary prec emax (Zpos m1) e1 (Zpos m2) e2)) in
  0 <= q /\
  (q = 0 -> X <= -1074) /\
  (0 < q -> X <= Zdigits2 q + e' /\ e' <= fexp prec emax (Zdigits2 q + e')).
Proof.
  intros X q e'. subst X q e'. unfold SFdiv_core_binary.
  rewrite (Zdigits2_log2 (Zpos m1)), (Zdigits2_log2 (Zpos m2)) by lia.
  set (X := Z.log2 (Zpos m1) + 1 + e1 - (Z.log2 (Zpos m2) + 1 + e2)).
  set (E := Z.min (fexp prec emax X) (e1 - e2)).
  set (s := e1 - e2 - E).
  set (m' := match s with
             | 0 => Zpos m1
             | Zpos _ => Z.shiftl (Zpos m1) s
             | Zneg _ => 0
             end).
  assert (Hs : 0 <= s) by (unfold s, E; lia).
  assert (Hm' : m' = Zpos m1 * 2 ^ s).
  { unfold m'. destruct s as [|p|p]; try lia.
    now rewrite Z.shiftl_mul_pow2 by lia. }
  assert (Hm'pos : 0 < m').
  { rewrite Hm'. apply Z.mul_pos_pos; [lia|]. apply Z.pow_pos_nonneg; lia. }
  assert (Hlog' : Z.log2 m' = Z.log2 (Zpos m1) + s).
  { rewrite Hm'. apply log2_shifted. exact Hs. }
  pose proof (Z_div_mod m' (Zpos m2) ltac:(lia)) as Hdiv.
  destruct (Z.div_eucl m' (Zpos m2)) as [q0 r0] eqn:Ediv.
  destruct Hdiv as [Heq Hr].
  cbn [fst snd].
  assert (Hq0 : 0 <= q0).
  { destruct (Z_lt_le_dec q0 0) as [Hneg|Hok]; [|exact Hok].
    exfalso. assert (Zpos m2 * q0 <= Zpos m2 * (-1)) by (apply Z.mul_le_mono_nonneg_l; lia).
    lia. }
  pose proof (fexp_eq X) as HfX.
  split; [exact Hq0|]. split.
  - intro Hz. subst q0.
    assert (Hlt : m' < Zpos m2) by lia.
    assert (Z.log2 m' <= Z.log2 (Zpos m2)) by (apply Z.log2_le_mono; lia).
    unfold s, E, X in *. lia.
  - intro Hpos.
    pose proof (log2_quotient m' (Zpos m2) q0 r0 Hm'pos ltac:(lia) Heq Hr Hpos) as Hlog.
    rewrite Zdigits2_log2 by exact Hpos.
    assert (HX : X <= Z.log2 q0 + 1 + E) by (unfold s, E, X in *; lia).
    split; [exact HX|].
    pose proof (fexp_eq (Z.log2 q0 + 1 + E)) as Hf.
    unfold E in *. lia.
Qed.

(** Dividing a number that is not negative by a positive number whose
    leading bit is at most that of 1/2. *)
Lemma div_nonneg (t : double) (md : positive) (ed : Z) :
  Zdigits2 (Zpos md) + ed <= 0 ->
  leb zero t = true ->
  leb zero (div t (S754_finite false md ed)) = true /\
  forall k, -1074 <= k -> below k (div t (S754_finite false md ed)) = true ->
            below k t = true.
Proof.
  intros Hd Nt. apply leb_zero_iff in Nt.
  destruct t as [st|st| |st mt et]; try contradiction.
  - split; [apply leb_zero_iff; exact I|intros; reflexivity].
  - subst st. split; [apply leb_zero_iff; reflexivity|].
    intros k _ H. discriminate H.
  - subst st. unfold div, SFdiv.
    pose proof (div_core_spec mt et md ed) as Hc. cbv zeta in Hc.
    destruct (SFdiv_core_binary prec emax (Zpos mt) et (Zpos md) ed) as [[q e'] l].
    cbn [fst snd] in Hc. destruct Hc as (Hq0 & Hz & Hp).
    change (xorb false false) with false.
    split.
    + apply signed_false_leb. apply binary_round_aux_signed. exact Hq0.
    + intros k Hk Hb. apply below_digits.
      destruct (Z.eq_dec q 0) as [E|E].
      * specialize (Hz E). lia.
      * destruct (Hp ltac:(lia)) as [HX Hpre].
        pose proof (binary_round_aux_spec false q e' l ltac:(lia) Hpre) as Hr.
        pose proof (rounded_lower _ _ _ _ Hr Hb Hk). lia.
Qed.

Lemma one_eq : one = S754_finite false 4503599627370496 (-52).
Proof. reflexivity. Qed.

Lemma Math_max_zero_negative (r : double) :
  signed true r -> Math_max zero r = zero.
Proof.
  destruct r as [s|s| |s m e]; simpl; intro H; try contradiction; subst s;
    reflexivity.
Qed.

Lemma Math_max_zero_positive (m : positive) (e : Z) :
  Math_max zero (S754_finite false m e) = S754_finite false m e.
Proof. reflexivity. Qed.

Lemma leb_one (m : positive) (e D : Z) :
  rounded false D (S754_finite false m e) -> D <= 0 ->
  leb (S754_finite false m e) one = true.
Proof.
  intros H HD. unfold rounded in H. cbv beta iota zeta in H.
  destruct H as (_ & Hb & Hlow & Hup).
  apply bounded_iff in Hb. destruct Hb as [Hc He].
  rewrite fexp_eq in Hc.
  rewrite one_eq. unfold leb, SFleb, SFcompare.
  destruct (Z.compare_spec e (-52)) as [Heq|Hlt|Hgt].
  - assert (HD' : Zdigits2 (Zpos m) + e = 1) by lia.
    destruct Hup as [Hup|[Hup|[_ Hpow]]]; try lia.
    rewrite Zdigits2_log2 in HD' by lia.
    assert (Hlog : Z.log2 (Zpos m) = 52) by lia.
    rewrite Hlog in Hpow. change (2 ^ 52) with 4503599627370496 in Hpow.
    injection Hpow as ->. reflexivity.
  - reflexivity.
  - lia.
Qed.

(** The decay factor [Math.max(0, 1 - y)], for [y] not negative: it is
    between 0 and 1, and when it is not zero, [y] is below 1. *)
Lemma decay_spec (y : double) :
  leb zero y = true ->
  let k := Math_max zero (sub one y) in
  leb zero k = true /\ leb k one = true /\
  (k = zero \/
   (below 0 y = true /\ isDouble k = true /\ below 1 k = true)).
Proof.
  intros Ny k. subst k. apply leb_zero_iff in Ny.
  destruct y as [sy|sy| |sy my ey]; try contradiction.
  - replace (sub one (S754_zero sy)) with one by (destruct sy; reflexivity).
    split; [reflexivity|]. split; [reflexivity|]. right.
    repeat split.
  - subst sy. split; [reflexivity|]. split; [reflexivity|]. left. reflexivity.
  - subst sy. rewrite one_eq. unfold sub, SFsub. cbv zeta.
    set (ez := Z.min (-52) ey). unfold cond_Zopp.
    set (a1 := fst (shl_align 4503599627370496 (-52) ez)).
    set (ay := fst (shl_align my ey ez)).
    pose proof (aligned 4503599627370496 (-52) ez ltac:(unfold ez; lia)) as Ha1.
    fold a1 in Ha1.
    assert (Hpow : Zpos a1 = 2 ^ (- ez)).
    { rewrite Ha1. change 4503599627370496 with (2 ^ 52).
      rewrite <- Z.pow_add_r by (unfold ez; lia). f_equal. lia. }
    pose proof (log2_aligned my ey ez ltac:(unfold ez; lia)) as Hy. fold ay in Hy.
    assert (Hez : 0 <= - ez) by (unfold ez; lia).
    destruct (Zpos a1 - Zpos ay) as [|p|p] eqn:Ediff; unfold binary_normalize.
    + split; [reflexivity|]. split; [reflexivity|]. left. reflexivity.
    + pose proof (binary_round_spec false p ez) as Hr.
      assert (HD : Zdigits2 (Zpos p) + ez <= 0).
      { rewrite Zdigits2_log2 by lia.
        assert (Z.log2 (Zpos p) < - ez).
        { apply Z.log2_lt_pow2; lia. }
        lia. }
      assert (Hyb : below 0 (S754_finite false my ey) = true).
      { apply below_digits. rewrite <- Hy.
        assert (Z.log2 (Zpos ay) < - ez).
        { apply Z.log2_lt_pow2; lia. }
        lia. }
      destruct (binary_round prec emax false p ez) as [s|s| |s m e] eqn:Er.
      * unfold rounded in Hr. destruct Hr as [-> _].
        split; [reflexivity|]. split; [reflexivity|]. left. reflexivity.
      * unfold rounded in Hr. lia.
      * contradiction.
      * assert (s = false) by (unfold rounded in Hr; tauto). subst s.
        rewrite Math_max_zero_positive.
        split; [reflexivity|]. split; [exact (leb_one m e _ Hr HD)|].
        right. split; [exact Hyb|].
        destruct (rounded_below _ _ 0 _ Hr HD ltac:(lia) ltac:(lia)) as [Hd Hb].
        split; assumption.
    + pose proof (binary_round_spec true p ez) as Hr.
      rewrite Math_max_zero_negative by exact (rounded_signed _ _ _ Hr).
      split; [reflexivity|]. split; [reflexivity|]. left. reflexivity.
Qed.

(** *** Products *)

Lemma mul_pre (ma : positive) (ea : Z) (mb : positive) (eb : Z) :
  bounded prec emax ma ea = true -> bounded prec emax mb eb = true ->
  ea + eb <= fexp prec emax (Zdigits2 (Zpos (ma * mb)) + (ea + eb)).
Proof.
  intros Ha Hb. apply bounded_iff in Ha. apply bounded_iff in Hb.
  destruct Ha as [Ha _]. destruct Hb as [Hb _].
  rewrite Zdigits2_log2 in * by lia. rewrite fexp_eq in *.
  pose proof (Z.log2_mul_below (Zpos ma) (Zpos mb) ltac:(lia) ltac:(lia)) as Hl.
  change (Zpos ma * Zpos mb) with (Zpos (ma * mb)) in Hl.
  pose proof (Z.log2_nonneg (Zpos ma)). pose proof (Z.log2_nonneg (Zpos mb)).
  lia.
Qed.

Lemma mul_zero_l (s : bool) (b : double) :
  isFinite b = true -> exists s', mul (S754_zero s) b = S754_zero s'.
Proof.
  destruct b as [sb|sb| |sb mb eb]; try discriminate; intros _; eexists; reflexivity.
Qed.

Lemma mul_zero_r (a : double) (s : bool) :
  isFinite a = true -> exists s', mul a (S754_zero s) = S754_zero s'.
Proof.
  destruct a as [sa|sa| |sa ma ea]; try discriminate; intros _; eexists; reflexivity.
Qed.

Lemma mul_below (a b : double) (ka kb : Z) :
  isDouble a = true -> isDouble b = true ->
  below ka a = true -> below kb b = true ->
  -1074 <= ka + kb -> ka + kb <= 1023 ->
  isDouble (mul a b) = true /\ below (ka + kb + 1) (mul a b) = true.
Proof.
  intros Da Db Ba Bb Hlo Hhi.
  destruct a as [sa|sa| |sa ma ea]; try discriminate;
    destruct b as [sb|sb| |sb mb eb]; try discriminate;
    try (split; reflexivity).
  unfold mul, SFmul.
  unfold isDouble, valid_binary in Da, Db.
  pose proof (mul_pre ma ea mb eb Da Db) as Hpre.
  pose proof (binary_round_aux_spec (xorb sa sb) (Zpos (ma * mb)) (ea + eb) loc_Exact
                ltac:(lia) Hpre) as Hr.
  apply (rounded_below _ _ (ka + kb) _ Hr); try lia.
  apply below_digits in Ba. apply below_digits in Bb.
  rewrite Zdigits2_log2 in * by lia.
  pose proof (Z.log2_mul_above (Zpos ma) (Zpos mb) ltac:(lia) ltac:(lia)) as Hl.
  change (Zpos ma * Zpos mb) with (Zpos (ma * mb)) in Hl.
  lia.
Qed.

(** *** Sums of any signs *)

Lemma log2_sum_bound (a b z : Z) :
  0 < a -> 0 < b -> 0 < z -> z <= a + b ->
  Z.log2 z <= Z.max (Z.log2 a) (Z.log2 b) + 1.
Proof.
  intros Ha Hb Hz Hle.
  destruct (Z.log2_spec a Ha) as [_ Ha2]. destruct (Z.log2_spec b Hb) as [_ Hb2].
  set (M := Z.max (Z.log2 a) (Z.log2 b)).
  assert (HM : 0 <= M) by (pose proof (Z.log2_nonneg a); unfold M; lia).
  assert (H1 : 2 ^ Z.succ (Z.log2 a) <= 2 ^ Z.succ M)
    by (apply Z.pow_le_mono_r; unfold M; lia).
  assert (H2 : 2 ^ Z.succ (Z.log2 b) <= 2 ^ Z.succ M)
    by (apply Z.pow_le_mono_r; unfold M; lia).
  assert (H3 : 2 ^ (M + 2) = 2 * 2 ^ Z.succ M).
  { replace (M + 2) with (Z.succ (Z.succ M)) by lia.
    rewrite (Z.pow_succ_r 2 (Z.succ M)) by lia. reflexivity. }
  assert (Z.log2 z < M + 2) by (apply Z.log2_lt_pow2; lia).
  lia.
Qed.

Lemma add_below (p q : double) (k : Z) :
  below k p = true -> below k q = true ->
  -1074 <= k -> k <= 1022 ->
  isFinite (add p q) = true /\ below (k + 2) (add p q) = true.
Proof.
  intros Bp Bq Hlo Hhi.
  destruct p as [sp|sp| |sp mp ep]; try discriminate;
    destruct q as [sq|sq| |sq mq eq]; try discriminate.
  - unfold add, SFadd. destruct sp, sq; split; reflexivity.
  - split; [reflexivity|]. apply below_digits in Bq. apply below_digits. lia.
  - split; [reflexivity|]. apply below_digits in Bp. apply below_digits. lia.
  - unfold add, SFadd. cbv zeta.
    set (ez := Z.min ep eq).
    set (ax := fst (shl_align mp ep ez)). set (ay := fst (shl_align mq eq ez)).
    pose proof (log2_aligned mp ep ez ltac:(unfold ez; lia)) as Hx. fold ax in Hx.
    pose proof (log2_aligned mq eq ez ltac:(unfold ez; lia)) as Hy. fold ay in Hy.
    apply below_digits in Bp. apply below_digits in Bq.
    set (z := cond_Zopp sp (Zpos ax) + cond_Zopp sq (Zpos ay)).
    assert (Hz : Z.abs z <= Zpos ax + Zpos ay).
    { unfold z, cond_Zopp. destruct sp, sq; lia. }
    unfold binary_normalize.
    destruct z as [|pz|pz] eqn:Ez.
    + split; reflexivity.
    + pose proof (binary_round_spec false pz ez) as Hr.
      pose proof (log2_sum_bound (Zpos ax) (Zpos ay) (Zpos pz)
                    ltac:(lia) ltac:(lia) ltac:(lia) ltac:(lia)) as Hl.
      assert (HD : Zdigits2 (Zpos pz) + ez <= k + 1)
        by (rewrite Zdigits2_log2 by lia; lia).
      destruct (rounded_below _ _ (k + 1) _ Hr HD ltac:(lia) ltac:(lia)) as [_ Hb].
      replace (k + 1 + 1) with (k + 2) in Hb by lia.
      split; [|exact Hb].
      destruct (binary_round prec emax false pz ez); try discriminate; reflexivity.
    + pose proof (binary_round_spec true pz ez) as Hr.
      pose proof (log2_sum_bound (Zpos ax) (Zpos ay) (Zpos pz)
                    ltac:(lia) ltac:(lia) ltac:(lia) ltac:(lia)) as Hl.
      assert (HD : Zdigits2 (Zpos pz) + ez <= k + 1)
        by (rewrite Zdigits2_log2 by lia; lia).
      destruct (rounded_below _ _ (k + 1) _ Hr HD ltac:(lia) ltac:(lia)) as [_ Hb].
      replace (k + 1 + 1) with (k + 2) in Hb by lia.
      split; [|exact Hb].
      destruct (binary_round prec emax true pz ez); try discriminate; reflexivity.
Qed.

Lemma below_mono (k k' : Z) (a : double) :
  k <= k' -> below k a = true -> below k' a = true.
Proof.
  intros H. destruct a; simpl; try (intros; assumption; fail); try reflexivity.
  intro Hb. apply Z.leb_le in Hb. apply Z.leb_le. lia.
Qed.

Lemma below_finite (k : Z) (a : double) : below k a = true -> isFinite a = true.
Proof. destruct a; simpl; intro; try reflexivity; discriminate. Qed.

End DoubleRounding.

(* ================================================================== *)
(** * The decaying modes over doubles: steps of any finite size *)

Module EngineDoublesFacts.
Import SpecFloat Double DoubleRounding EngineDoubles.
Local Open Scope Z_scope.

Lemma factor_spec (e dt : double) (md : positive) (ed : Z) :
  Zdigits2 (Zpos md) + ed <= 0 ->
  elapsed e = true -> elapsed dt = true ->
  let k := decayFactor (add e dt) (S754_finite false md ed) in
  leb zero k = true /\ leb k one = true /\
  isDouble (mul k dt) = true /\ below 2 (mul k dt) = true.
Proof.
  intros Hd He Hdt k.
  unfold elapsed in He, Hdt.
  apply andb_true_iff in He. destruct He as [He Ne].
  apply andb_true_iff in He. destruct He as [De Fe].
  apply andb_true_iff in Hdt. destruct Hdt as [Hdt Ndt].
  apply andb_true_iff in Hdt. destruct Hdt as [Ddt Fdt].
  destruct (add_nonneg e dt Fe Fdt Ne Ndt) as [Nt Lt].
  destruct (div_nonneg (add e dt) md ed Hd Nt) as [Ny Ly].
  destruct (decay_spec _ Ny) as (K0 & K1 & Kc).
  fold (decayFactor (add e dt) (S754_finite false md ed)) in K0, K1, Kc.
  fold k in K0, K1, Kc.
  split; [exact K0|]. split; [exact K1|].
  destruct Kc as [Kz|(By & Dk & Bk)].
  - rewrite Kz. unfold zero.
    destruct (mul_zero_l false dt Fdt) as [s' ->]. split; reflexivity.
  - assert (Bdt : below 0 dt = true).
    { apply Lt; [lia|]. apply Ly; [lia|exact By]. }
    apply (mul_below k dt 1 0); try assumption; lia.
Qed.

Lemma moved_component (p v f : double) :
  below 1000 p = true -> ordinary v = true ->
  isDouble f = true -> below 9 f = true ->
  isFinite (add p (mul v f)) = true.
Proof.
  intros Bp Hv Df Bf.
  unfold ordinary in Hv. apply andb_true_iff in Hv. destruct Hv as [Dv Bv].
  destruct (mul_below v f 1000 9 Dv Df Bv Bf ltac:(lia) ltac:(lia)) as [_ Bm].
  apply (add_below p (mul v f) 1010); try lia; [|exact Bm].
  apply (below_mono 1000); [lia|exact Bp].
Qed.

Lemma moved_particle (f : double) (p : Particle) :
  isDouble f = true -> below 9 f = true ->
  ordinaryVector (current p) = true -> ordinaryVector (velocity p) = true ->
  finiteVector (current (moveBy f p)) = true.
Proof.
  intros Df Bf Hc Hv.
  unfold ordinaryVector in Hc, Hv.
  apply andb_true_iff in Hc. destruct Hc as [Hc Hcz].
  apply andb_true_iff in Hc. destruct Hc as [Hcx Hcy].
  apply andb_true_iff in Hv. destruct Hv as [Hv Hvz].
  apply andb_true_iff in Hv. destruct Hv as [Hvx Hvy].
  assert (Hb : forall c, ordinary c = true -> below 1000 c = true).
  { intros c H. unfold ordinary in H. apply andb_true_iff in H. tauto. }
  unfold finiteVector, moveBy, addVector, multiplyScalar. cbn [current vx vy vz].
  rewrite !moved_component by auto. reflexivity.
Qed.

Lemma durations :
  EXPLOSION_DURATION = S754_finite false 4503599627370496 (-53) /\
  DISPERSION_DURATION = S754_finite false 5404319552844595 (-54) /\
  ofZ 60 = S754_finite false 8444249301319680 (-47).
Proof. vm_compute. repeat split. Qed.

(** C9, amended (timestep robustness).  For every finite step
    [deltaTime >= 0], zero and the largest double included, with the
    mode's elapsed time finite and not negative and with every coordinate
    of every position and velocity of magnitude below [2^1000]: in
    [updateExplosion] and in [updateDispersion] the decay factor is a
    number between 0 and 1 (so it is clamped at 0, never negative), and
    every coordinate of every particle's position after the update is
    finite, neither NaN nor an infinity. *)
Theorem finite_steps_keep_positions_finite (deltaTime : double) (s : DecayingModes) :
  elapsed deltaTime = true ->
  elapsed (explosionTime s) = true -> elapsed (dispersionTime s) = true ->
  Forall (fun p => ordinaryVector (current p) = true /\
                   ordinaryVector (velocity p) = true) (particles s) ->
  (let k := decayFactor (add (explosionTime s) deltaTime) EXPLOSION_DURATION in
   leb zero k = true /\ leb k one = true /\
   Forall (fun p => finiteVector (current p) = true)
          (particles (updateExplosion deltaTime s))) /\
  (let k := decayFactor (add (dispersionTime s) deltaTime) DISPERSION_DURATION in
   leb zero k = true /\ leb k one = true /\
   Forall (fun p => finiteVector (current p) = true)
          (particles (updateDispersion deltaTime s))).
Proof.
  intros Hdt He Hd Hps.
  destruct durations as (HE & HD & H60).
  split.
  - intro k.
    destruct (factor_spec (explosionTime s) deltaTime 4503599627370496 (-53)
                ltac:(simpl; lia) He Hdt) as (K0 & K1 & Df & Bf).
    rewrite <- HE in K0, K1, Df, Bf. fold k in K0, K1, Df, Bf.
    split; [exact K0|]. split; [exact K1|].
    unfold updateExplosion. cbv zeta. cbn [particles]. fold k.
    apply Forall_map. apply (Forall_impl _ (P := fun p =>
      ordinaryVector (current p) = true /\ ordinaryVector (velocity p) = true));
      [|exact Hps].
    intros p [Hc Hv]. apply moved_particle; try assumption.
    apply (below_mono 2); [lia|exact Bf].
  - intro k.
    destruct (factor_spec (dispersionTime s) deltaTime 5404319552844595 (-54)
                ltac:(simpl; lia) Hd Hdt) as (K0 & K1 & Df & Bf).
    rewrite <- HD in K0, K1, Df, Bf. fold k in K0, K1, Df, Bf.
    split; [exact K0|]. split; [exact K1|].
    assert (H60d : isDouble (ofZ 60) = true /\ below 6 (ofZ 60) = true)
      by (rewrite H60; split; reflexivity).
    destruct H60d as [D60 B60].
    destruct (mul_below (mul k deltaTime) (ofZ 60) 2 6 Df D60 Bf B60
                ltac:(lia) ltac:(lia)) as [Df' Bf'].
    assert (Hall : Forall (fun p => finiteVector (current p) = true)
                     (map (moveBy (mul (mul k deltaTime) (ofZ 60))) (particles s))).
    { apply Forall_map. apply (Forall_impl _ (P := fun p =>
        ordinaryVector (current p) = true /\ ordinaryVector (velocity p) = true));
        [|exact Hps].
      intros p [Hc Hv]. apply moved_particle; assumption. }
    unfold updateDispersion. cbv zeta. fold k.
    destruct (geb _ _); exact Hall.
Qed.

Lemma finite_steps_keep_positions_finite_witness :
  leb (decayFactor (add (explosionTime exploded) (decimal 1 10)) EXPLOSION_DURATION)
      one = true /\
  Forall (fun p => finiteVector (current p) = true)
         (particles (updateExplosion (decimal 1 10) exploded)) /\
  Forall (fun p => finiteVector (current p) = true)
         (particles (updateDispersion (decimal 1 10) dispersed)).
Proof.
  destruct (finite_steps_keep_positions_finite (decimal 1 10) exploded)
    as ((_ & H1 & H2) & _); try reflexivity.
  { repeat constructor. }
  destruct (finite_steps_keep_positions_finite (decimal 1 10) dispersed)
    as (_ & (_ & _ & H3)); try reflexivity.
  { repeat constructor. }
  split; [exact H1|]. split; [exact H2|exact H3].
Defined.

(** C9, as stated, fails: [+Infinity] is a step [>= 0]; with it the
    elapsed time is infinite, the decay factor is 0, the factor
    [decayFactor * deltaTime] is [0 * Infinity], that is NaN, and every
    coordinate of the particle's position is NaN after [updateExplosion],
    and after [updateDispersion] as well. *)
Lemma infinite_step_gives_NaN :
  elapsed (explosionTime exploded) = true /\
  elapsed (dispersionTime dispersed) = true /\
  leb zero infinity = true /\
  decayFactor (add (explosionTime exploded) infinity) EXPLOSION_DURATION = zero /\
  mul zero infinity = nan /\
  map current (particles (updateExplosion infinity exploded))
  = [mkVector3 nan nan nan] /\
  map current (particles (updateDispersion infinity dispersed))
  = [mkVector3 nan nan nan].
Proof. vm_compute. repeat split. Qed.

End EngineDoublesFacts.
